(** * om-file-format: the chunk codec of the encoder

    A shallow embedding of [delta2d.c], [om_common.c] and [om_encoder.c],
    followed by the properties stated about them.

    Conventions.
    - [size_t] loop counters and buffer indices are [nat]: a buffer of
      [length0 * length1] elements that exists in memory cannot overflow an
      index computation.
    - [intW_t] elements are [Z] in the two's-complement range, with the
      wrap-around of [+=] and [-=] written out ([wrap]).
    - [uint64_t] coordinates of the gather loop are [Z], reduced modulo
      [2^64] after every operation.
    - [float] and [double] are the binary32 and binary64 instances of the
      Standard Library's [spec_float]; a conversion to an integer type whose
      value does not fit has no defined result and is [None].

    Part I holds the definitions, Part II the lemmas and theorems. *)

From Stdlib Require Import ZArith List Lia Bool SpecFloat.
From Stdlib Require Strings.String.
From stdpp Require Import base list.

Local Open Scope Z_scope.

(* ===================================================================== *)
(** * Part I: the embedding *)
(* ===================================================================== *)

(** ** Machine integers *)

Module MachInt.

(** Two's-complement reduction of an integer to [W] bits, signed. *)
Definition wrap (W : Z) (x : Z) : Z :=
  (x + 2 ^ (W - 1)) mod 2 ^ W - 2 ^ (W - 1).

(** The range of [intW_t]. *)
Definition in_range (W : Z) (x : Z) : Prop :=
  - 2 ^ (W - 1) <= x < 2 ^ (W - 1).

(** Reduction to [uint64_t]. *)
Definition u64 (x : Z) : Z := x mod 2 ^ 64.

Definition INT16_MAX : Z := 32767.
Definition INT16_MIN : Z := -32768.
Definition INT32_MAX : Z := 2147483647.
Definition INT32_MIN : Z := -2147483648.
Definition INT64_MAX : Z := 9223372036854775807.
Definition INT64_MIN : Z := -9223372036854775808.

End MachInt.

(** ** delta2d.c: the 2-D predictor *)

Module Delta2d.
Import MachInt.
Local Open Scope nat_scope.

(** All twelve functions of [delta2d.c] have one shape: an early return
    when [length0 <= 1], then a loop over the rows [d0] (ascending in the
    decoders, descending in the encoders) around a loop over the columns
    [d1] whose body is a compound assignment
    [chunkBuffer[d0*length1 + d1] op= chunkBuffer[(d0-1)*length1 + d1]]. *)
Section Loops.
Variable op : Z -> Z -> Z.

(** [chunkBuffer[dst] op= chunkBuffer[src]] *)
Definition assign (buf : list Z) (dst src : nat) : list Z :=
  <[dst := op (buf !!! dst) (buf !!! src)]> buf.

(** [for (size_t d1 = 0; d1 < length1; d1++) ...] *)
Definition row_loop (length1 d0 : nat) (buf : list Z) : list Z :=
  fold_left
    (fun b d1 => assign b (d0 * length1 + d1) ((d0 - 1) * length1 + d1))
    (seq 0 length1) buf.

(** [for (size_t d0 = 1; d0 < length0; d0++) ...] *)
Definition loop_up (length0 length1 : nat) (buf : list Z) : list Z :=
  if length0 <=? 1 then buf
  else fold_left (fun b d0 => row_loop length1 d0 b)
                 (seq 1 (length0 - 1)) buf.

(** [for (size_t d0 = length0-1; d0 >= 1; d0--) ...] *)
Definition loop_down (length0 length1 : nat) (buf : list Z) : list Z :=
  if length0 <=? 1 then buf
  else fold_left (fun b d0 => row_loop length1 d0 b)
                 (rev (seq 1 (length0 - 1))) buf.
End Loops.

(** [+=] and [-=] on [intW_t], and [^=] on [int]. *)
Definition add_assign (W : Z) (a b : Z) : Z := wrap W (a + b).
Definition sub_assign (W : Z) (a b : Z) : Z := wrap W (a - b).
Definition xor_assign (a b : Z) : Z := Z.lxor a b.

Definition delta2d_decode8 := loop_up (add_assign 8).
Definition delta2d_encode8 := loop_down (sub_assign 8).
Definition delta2d_decode16 := loop_up (add_assign 16).
Definition delta2d_encode16 := loop_down (sub_assign 16).
Definition delta2d_decode32 := loop_up (add_assign 32).
Definition delta2d_encode32 := loop_down (sub_assign 32).
Definition delta2d_decode64 := loop_up (add_assign 64).
Definition delta2d_encode64 := loop_down (sub_assign 64).

(** The XOR variants take a [float*] and work on
    [int* chunkBufferInt = (int* )chunkBuffer].  A [float] buffer is given
    here by the [int] view of its elements, one [int] per element. *)
Definition delta2d_decode_xor := loop_up xor_assign.
Definition delta2d_encode_xor := loop_down xor_assign.

(** *** The [int] view of a [double] buffer

    [delta2d_decode_xor_double] and [delta2d_encode_xor_double] take a
    [double*] and cast it to [int*] as well.  A [double] buffer is given by
    the 64-bit patterns of its elements, in [[0, 2^64)]; in memory every
    element is two [int]s, in the order the byte order fixes. *)
Inductive byte_order := LittleEndian | BigEndian.

Definition double_to_ints (bo : byte_order) (d : Z) : list Z :=
  let lo := wrap 32 (d mod 2 ^ 32) in
  let hi := wrap 32 (d / 2 ^ 32) in
  match bo with
  | LittleEndian => [lo; hi]
  | BigEndian => [hi; lo]
  end.

Definition ints_to_double (bo : byte_order) (w0 w1 : Z) : Z :=
  let '(lo, hi) := match bo with
                   | LittleEndian => (w0, w1)
                   | BigEndian => (w1, w0)
                   end in
  ((hi mod 2 ^ 32) * 2 ^ 32 + lo mod 2 ^ 32)%Z.

Definition int_view (bo : byte_order) (buf : list Z) : list Z :=
  flat_map (double_to_ints bo) buf.

Fixpoint double_view (bo : byte_order) (ws : list Z) : list Z :=
  match ws with
  | w0 :: w1 :: ws' => ints_to_double bo w0 w1 :: double_view bo ws'
  | _ => []
  end.

Definition delta2d_decode_xor_double (bo : byte_order)
    (length0 length1 : nat) (chunkBuffer : list Z) : list Z :=
  double_view bo (loop_up xor_assign length0 length1 (int_view bo chunkBuffer)).

Definition delta2d_encode_xor_double (bo : byte_order)
    (length0 length1 : nat) (chunkBuffer : list Z) : list Z :=
  double_view bo (loop_down xor_assign length0 length1 (int_view bo chunkBuffer)).

(** The 64-bit patterns a [double] buffer may hold. *)
Definition is_u64 (d : Z) : Prop := (0 <= d < 2 ^ 64)%Z.

(** *** The 64-bit XOR predictor as the specification words it

    [buf[d0] <- buf[d0] XOR buf[d0-1]] on the 64-bit patterns of the
    elements of rows [1 .. length0-1]; the first row stays. *)
Definition spec_xor2d_double (length0 length1 : nat) (buf : list Z) : list Z :=
  imap (fun k x => if decide (length1 <= k < length0 * length1)
                   then Z.lxor x (buf !!! (k - length1)) else x) buf.

(** *** What the loops compute

    The predictor of an encoder: every element of the rows
    [1 .. length0-1] is combined with the element one row above of the
    input; the first row and the elements past the chunk stay. *)
Definition predicted (op : Z -> Z -> Z) (length0 length1 : nat)
    (buf : list Z) : list Z :=
  imap (fun k x => if decide (length1 <= k < length0 * length1)
                   then op x (buf !!! (k - length1)) else x) buf.

(** The running combination down the column [d1], from the row 0 to the
    row [d0]. *)
Fixpoint column_fold (op : Z -> Z -> Z) (length1 : nat) (buf : list Z)
    (d0 d1 : nat) : Z :=
  match d0 with
  | O => buf !!! d1
  | S r => op (buf !!! (S r * length1 + d1)) (column_fold op length1 buf r d1)
  end.

(** The sum of the column [d1] from the row 0 to the row [d0]. *)
Fixpoint column_sum (length1 : nat) (buf : list Z) (d0 d1 : nat) : Z :=
  match d0 with
  | O => buf !!! d1
  | S r => (buf !!! (S r * length1 + d1)%nat + column_sum length1 buf r d1)%Z
  end.

End Delta2d.

(** ** IEEE 754 values: [float] and [double]

    The operations of [<math.h>] and the conversions that [om_common.c]
    uses, on the Standard Library's [spec_float].  Arithmetic is evaluated
    in the format of its operands, one rounding per operation (no excess
    precision, no fused multiply-add). *)

Module IEEE.

Record format := { prec : Z; emax : Z }.

(** [float] *)
Definition binary32 : format := {| prec := 24; emax := 128 |}.
(** [double] *)
Definition binary64 : format := {| prec := 53; emax := 1024 |}.

(** [isnan] *)
Definition isnan (x : spec_float) : bool :=
  match x with S754_nan => true | _ => false end.

(** [NAN] *)
Definition NAN : spec_float := S754_nan.

(** Conversion of an integer to a floating-point type, to nearest. *)
Definition of_int (fmt : format) (n : Z) : spec_float :=
  binary_normalize (prec fmt) (emax fmt) n 0 false.

(** [(double)x] for a [float] [x]: exact. *)
Definition to_double (x : spec_float) : spec_float :=
  match x with
  | S754_finite s m e =>
      binary_normalize (prec binary64) (emax binary64)
        (if s then Zneg m else Zpos m) e s
  | _ => x
  end.

Definition mul (fmt : format) := SFmul (prec fmt) (emax fmt).
Definition add (fmt : format) := SFadd (prec fmt) (emax fmt).
Definition sub (fmt : format) := SFsub (prec fmt) (emax fmt).
Definition div (fmt : format) := SFdiv (prec fmt) (emax fmt).

(** [roundf] and [round]: to the nearest integer, halfway cases away from
    zero; zeros, infinities and NaN are returned as they are. *)
Definition round (fmt : format) (x : spec_float) : spec_float :=
  match x with
  | S754_finite s m e =>
      if 0 <=? e then x
      else
        let d := 2 ^ (- e) in
        let q := Zpos m / d in
        let r := Zpos m mod d in
        let n := if d <=? 2 * r then q + 1 else q in
        binary_normalize (prec fmt) (emax fmt) (if s then - n else n) 0 s
  | _ => x
  end.

(** [fminf] and [fmin]: a NaN argument is ignored in favour of the other. *)
Definition fmin (x y : spec_float) : spec_float :=
  match x, y with
  | S754_nan, _ => y
  | _, S754_nan => x
  | _, _ => if SFltb y x then y else x
  end.

(** [fmaxf] and [fmax]. *)
Definition fmax (x y : spec_float) : spec_float :=
  match x, y with
  | S754_nan, _ => y
  | _, S754_nan => x
  | _, _ => if SFltb x y then y else x
  end.

(** The integral part of a finite value (truncation toward zero). *)
Definition trunc (x : spec_float) : option Z :=
  match x with
  | S754_zero _ => Some 0
  | S754_finite s m e =>
      let a := if 0 <=? e then Zpos m * 2 ^ e else Zpos m / 2 ^ (- e) in
      Some (if s then - a else a)
  | S754_infinity _ | S754_nan => None
  end.

(** [(intW_t)x]: the integral part when it is a value of [intW_t]; the
    conversion has no defined result otherwise (C11 6.3.1.4). *)
Definition to_int (W : Z) (x : spec_float) : option Z :=
  match trunc x with
  | Some n =>
      if (- 2 ^ (W - 1) <=? n) && (n <? 2 ^ (W - 1)) then Some n else None
  | None => None
  end.

(** A value of the format: the mantissa of a finite value has at most
    [prec] bits. *)
Definition mantissa_fits (fmt : format) (x : spec_float) : Prop :=
  match x with
  | S754_finite _ m _ => Zpos m < 2 ^ prec fmt
  | _ => True
  end.

End IEEE.

(** ** om_common.c *)

Module OmCommon.
Import MachInt IEEE.

(** Modelled from the spec: the enumerations of [om_common.h], which is not
    among the sources; section 6.1 of the specification gives their members
    and values.  [OmDataType_t] and [OmCompression_t] are C enumerations, so
    a caller can pass any integer: they are [Z], and the members are
    abbreviations that the [switch] statements below match on. *)
Inductive OmError_t :=
| ERROR_OK
| ERROR_INVALID_COMPRESSION_TYPE
| ERROR_INVALID_DATA_TYPE
| ERROR_OUT_OF_BOUND_READ
| ERROR_NOT_AN_OM_FILE
| ERROR_DEFLATED_SIZE_MISMATCH.

Definition OmDataType_t := Z.
Abbreviation DATA_TYPE_NONE := 0%Z.
Abbreviation DATA_TYPE_INT8 := 1%Z.
Abbreviation DATA_TYPE_UINT8 := 2%Z.
Abbreviation DATA_TYPE_INT16 := 3%Z.
Abbreviation DATA_TYPE_UINT16 := 4%Z.
Abbreviation DATA_TYPE_INT32 := 5%Z.
Abbreviation DATA_TYPE_UINT32 := 6%Z.
Abbreviation DATA_TYPE_INT64 := 7%Z.
Abbreviation DATA_TYPE_UINT64 := 8%Z.
Abbreviation DATA_TYPE_FLOAT := 9%Z.
Abbreviation DATA_TYPE_DOUBLE := 10%Z.
Abbreviation DATA_TYPE_STRING := 11%Z.
Abbreviation DATA_TYPE_STRING_ARRAY := 12%Z.
Abbreviation DATA_TYPE_INT8_ARRAY := 13%Z.
Abbreviation DATA_TYPE_UINT8_ARRAY := 14%Z.
Abbreviation DATA_TYPE_INT16_ARRAY := 15%Z.
Abbreviation DATA_TYPE_UINT16_ARRAY := 16%Z.
Abbreviation DATA_TYPE_INT32_ARRAY := 17%Z.
Abbreviation DATA_TYPE_UINT32_ARRAY := 18%Z.
Abbreviation DATA_TYPE_INT64_ARRAY := 19%Z.
Abbreviation DATA_TYPE_UINT64_ARRAY := 20%Z.
Abbreviation DATA_TYPE_FLOAT_ARRAY := 21%Z.
Abbreviation DATA_TYPE_DOUBLE_ARRAY := 22%Z.

Definition OmCompression_t := Z.
Abbreviation COMPRESSION_PFOR_DELTA2D_INT16 := 0%Z.
Abbreviation COMPRESSION_FPX_XOR2D := 1%Z.
Abbreviation COMPRESSION_PFOR_DELTA2D := 2%Z.
Abbreviation COMPRESSION_PFOR_DELTA2D_INT16_LOGARITHMIC := 3%Z.

Record OmElementSize_t := {
  size_bytes_per_element : Z;
  size_bytes_per_element_compressed : Z
}.

(** [om_get_element_size]: the error code and the record behind [size] as
    the call leaves it. *)
Definition om_get_element_size (data_type : OmDataType_t)
    (compression : OmCompression_t) (size : OmElementSize_t)
    : OmError_t * OmElementSize_t :=
  let sized (n : Z) :=
    {| size_bytes_per_element := n; size_bytes_per_element_compressed := n |} in
  let by_type :=
    match data_type with
    | DATA_TYPE_INT8_ARRAY | DATA_TYPE_UINT8_ARRAY => Some (sized 1)
    | DATA_TYPE_INT16_ARRAY | DATA_TYPE_UINT16_ARRAY => Some (sized 2)
    | DATA_TYPE_INT32_ARRAY | DATA_TYPE_UINT32_ARRAY | DATA_TYPE_FLOAT_ARRAY =>
        Some (sized 4)
    | DATA_TYPE_INT64_ARRAY | DATA_TYPE_UINT64_ARRAY | DATA_TYPE_DOUBLE_ARRAY =>
        Some (sized 8)
    | _ => None
    end in
  match by_type with
  | None => (ERROR_INVALID_DATA_TYPE, size)
  | Some size =>
      match compression with
      | COMPRESSION_PFOR_DELTA2D_INT16
      | COMPRESSION_PFOR_DELTA2D_INT16_LOGARITHMIC =>
          match data_type with
          | DATA_TYPE_FLOAT_ARRAY =>
              (ERROR_OK, {| size_bytes_per_element := 4;
                            size_bytes_per_element_compressed := 2 |})
          | _ => (ERROR_INVALID_DATA_TYPE, size)
          end
      | COMPRESSION_FPX_XOR2D | COMPRESSION_PFOR_DELTA2D => (ERROR_OK, size)
      | _ => (ERROR_INVALID_COMPRESSION_TYPE, size)
      end
  end.

(** *** The element loops

    Every copy function is [for (uint64_t i = 0; i < length; ++i)
    dst[i] = f(src[i])] on a typed view of [src] and [dst].  An access past
    the end of a buffer, or a conversion without a defined result, leaves the
    call without a result. *)
Fixpoint element_loop {A B : Type} (body : A -> option B)
    (n i : nat) (src : list A) (dst : list B) : option (list B) :=
  match n with
  | O => Some dst
  | S n' =>
      match src !! i with
      | None => None
      | Some val =>
          match body val with
          | None => None
          | Some r =>
              if decide (i < length dst)%nat
              then element_loop body n' (S i) src (<[i:=r]> dst)
              else None
          end
      end
  end.

(** The first [n] elements of [src] all have a conversion with a defined
    result. *)
Definition converts {A B : Type} (body : A -> option B) (n : nat) (src : list A)
    : Prop :=
  forall (k : nat) (v : A), (k < n)%nat -> src !! k = Some v -> is_Some (body v).

(** The bodies of the four quantisers. *)
Definition float_to_int16 (scale_factor add_offset val : spec_float) : option Z :=
  if isnan val then Some INT16_MAX
  else
    let scaled := add binary32 (mul binary32 val scale_factor) add_offset in
    let clamped := fmax (of_int binary32 INT16_MIN)
                     (fmin (of_int binary32 INT16_MAX) (round binary32 scaled)) in
    to_int 16 clamped.

Definition float_to_int32 (scale_factor add_offset val : spec_float) : option Z :=
  if isnan val then Some INT32_MAX
  else
    let scaled := add binary32 (mul binary32 val scale_factor) add_offset in
    let clamped := fmax (of_int binary32 INT32_MIN)
                     (fmin (of_int binary32 INT32_MAX) (round binary32 scaled)) in
    to_int 32 clamped.

Definition double_to_int64 (scale_factor add_offset val : spec_float) : option Z :=
  if isnan val then Some INT64_MAX
  else
    let scaled := add binary64 (mul binary64 val (to_double scale_factor))
                    (to_double add_offset) in
    let clamped := fmax (of_int binary64 INT64_MIN)
                     (fmin (of_int binary64 INT64_MAX) (round binary64 scaled)) in
    to_int 64 clamped.

(** The bodies of the linear dequantisers. *)
Definition int16_to_float (scale_factor add_offset : spec_float) (val : Z)
    : spec_float :=
  if val =? INT16_MAX then NAN
  else sub binary32 (div binary32 (of_int binary32 val) scale_factor) add_offset.

Definition int32_to_float (scale_factor add_offset : spec_float) (val : Z)
    : spec_float :=
  if val =? INT32_MAX then NAN
  else sub binary32 (div binary32 (of_int binary32 val) scale_factor) add_offset.

Definition int64_to_double (scale_factor add_offset : spec_float) (val : Z)
    : spec_float :=
  if val =? INT64_MAX then NAN
  else sub binary64 (div binary64 (of_int binary64 val) (to_double scale_factor))
         (to_double add_offset).

Definition om_common_copy_float_to_int16 (length : Z)
    (scale_factor add_offset : spec_float)
    (src : list spec_float) (dst : list Z) : option (list Z) :=
  element_loop (float_to_int16 scale_factor add_offset) (Z.to_nat length) 0 src dst.

Definition om_common_copy_float_to_int32 (length : Z)
    (scale_factor add_offset : spec_float)
    (src : list spec_float) (dst : list Z) : option (list Z) :=
  element_loop (float_to_int32 scale_factor add_offset) (Z.to_nat length) 0 src dst.

Definition om_common_copy_double_to_int64 (length : Z)
    (scale_factor add_offset : spec_float)
    (src : list spec_float) (dst : list Z) : option (list Z) :=
  element_loop (double_to_int64 scale_factor add_offset) (Z.to_nat length) 0 src dst.

Definition om_common_copy_int16_to_float (length : Z)
    (scale_factor add_offset : spec_float)
    (src : list Z) (dst : list spec_float) : option (list spec_float) :=
  element_loop (fun val => Some (int16_to_float scale_factor add_offset val))
    (Z.to_nat length) 0 src dst.

Definition om_common_copy_int32_to_float (length : Z)
    (scale_factor add_offset : spec_float)
    (src : list Z) (dst : list spec_float) : option (list spec_float) :=
  element_loop (fun val => Some (int32_to_float scale_factor add_offset val))
    (Z.to_nat length) 0 src dst.

Definition om_common_copy_int64_to_double (length : Z)
    (scale_factor add_offset : spec_float)
    (src : list Z) (dst : list spec_float) : option (list spec_float) :=
  element_loop (fun val => Some (int64_to_double scale_factor add_offset val))
    (Z.to_nat length) 0 src dst.

(** *** The logarithmic pair

    [log10f] and [powf] come from the C library; they are parameters. *)
Section Log10.
Variable log10f : spec_float -> spec_float.
Variable powf : spec_float -> spec_float -> spec_float.

Definition float_to_int16_log10 (scale_factor add_offset val : spec_float)
    : option Z :=
  if isnan val then Some INT16_MAX
  else
    let scaled := mul binary32 (log10f (add binary32 (of_int binary32 1) val))
                    scale_factor in
    let clamped := fmax (of_int binary32 INT16_MIN)
                     (fmin (of_int binary32 INT16_MAX) (round binary32 scaled)) in
    to_int 16 clamped.

Definition int16_to_float_log10 (scale_factor add_offset : spec_float) (val : Z)
    : spec_float :=
  if val =? INT16_MAX then NAN
  else sub binary32
         (powf (of_int binary32 10)
            (div binary32 (of_int binary32 val) scale_factor))
         (of_int binary32 1).

Definition om_common_copy_float_to_int16_log10 (length : Z)
    (scale_factor add_offset : spec_float)
    (src : list spec_float) (dst : list Z) : option (list Z) :=
  element_loop (float_to_int16_log10 scale_factor add_offset)
    (Z.to_nat length) 0 src dst.

Definition om_common_copy_int16_to_float_log10 (length : Z)
    (scale_factor add_offset : spec_float)
    (src : list Z) (dst : list spec_float) : option (list spec_float) :=
  element_loop (fun val => Some (int16_to_float_log10 scale_factor add_offset val))
    (Z.to_nat length) 0 src dst.
End Log10.

(** *** The straight copies

    [copyW] reads and writes [intW_t] views.  The buffers are given by their
    bytes; element [i] of the view is the bytes [i*W/8 .. i*W/8 + W/8 - 1],
    whatever the byte order. *)
Definition copy_element (width : nat) (i : nat) (src dst : list Z)
    : option (list Z) :=
  if decide (i * width + width <= length src
             /\ i * width + width <= length dst)%nat
  then Some (take (i * width) dst
               ++ take width (drop (i * width) src)
               ++ drop (i * width + width) dst)
  else None.

Fixpoint copy_loop (width : nat) (n i : nat) (src dst : list Z)
    : option (list Z) :=
  match n with
  | O => Some dst
  | S n' =>
      match copy_element width i src dst with
      | None => None
      | Some dst' => copy_loop width n' (S i) src dst'
      end
  end.

Definition om_common_copy8 (length : Z) (scale_factor add_offset : spec_float)
    (src dst : list Z) : option (list Z) :=
  copy_loop 1 (Z.to_nat length) 0 src dst.

Definition om_common_copy16 (length : Z) (scale_factor add_offset : spec_float)
    (src dst : list Z) : option (list Z) :=
  copy_loop 2 (Z.to_nat length) 0 src dst.

Definition om_common_copy32 (length : Z) (scale_factor add_offset : spec_float)
    (src dst : list Z) : option (list Z) :=
  copy_loop 4 (Z.to_nat length) 0 src dst.

Definition om_common_copy64 (length : Z) (scale_factor add_offset : spec_float)
    (src dst : list Z) : option (list Z) :=
  copy_loop 8 (Z.to_nat length) 0 src dst.

(** *** [om_error_string]

    The message of each member of [OmError_t].  The [return] of the empty
    string after the [switch] is reached only by a value that is no member
    of the enumeration. *)
Section ErrorString.
Import Stdlib.Strings.String.StringSyntax.
Local Open Scope string_scope.

Definition om_error_string (error : OmError_t) : String.string :=
  match error with
  | ERROR_OK => "No error occured"
  | ERROR_INVALID_COMPRESSION_TYPE => "Invalid compression type"
  | ERROR_INVALID_DATA_TYPE => "Invalid data type"
  | ERROR_OUT_OF_BOUND_READ => "Corrupted data with potential out-of-bound read"
  | ERROR_NOT_AN_OM_FILE => "Not an OM file"
  | ERROR_DEFLATED_SIZE_MISMATCH => "Corrupted data: Deflated size does not match"
  end.

End ErrorString.

End OmCommon.

(** ** om_encoder.c *)

Module OmEncoder.
Import MachInt IEEE OmCommon.

(** *** The encoder record

    The three callbacks are function pointers; a pointer is given by the
    name of the function it points to. *)
Inductive om_compress_copy_callback_t :=
| ptr_om_common_copy8
| ptr_om_common_copy16
| ptr_om_common_copy32
| ptr_om_common_copy64
| ptr_om_common_copy_float_to_int16
| ptr_om_common_copy_float_to_int32
| ptr_om_common_copy_double_to_int64
| ptr_om_common_copy_float_to_int16_log10.

Inductive om_compress_filter_callback_t :=
| ptr_delta2d_encode8
| ptr_delta2d_encode16
| ptr_delta2d_encode32
| ptr_delta2d_encode64
| ptr_delta2d_encode_xor
| ptr_delta2d_encode_xor_double.

Inductive om_compress_callback_t :=
| ptr_p4nzenc8
| ptr_p4ndenc8
| ptr_p4nzenc128v16
| ptr_p4ndenc128v16
| ptr_p4nzenc128v32
| ptr_p4ndenc128v32
| ptr_p4nzenc64
| ptr_p4ndenc64
| ptr_om_common_compress_fpxenc32
| ptr_om_common_compress_fpxenc64.

(** Modelled from the spec: [OmEncoder_t] is declared in [om_encoder.h],
    which is not among the sources; the fields are those that
    [om_encoder.c] reads and writes.  [dimensions] and [chunks] point to
    arrays of [dimension_count] [uint64_t]. *)
Record OmEncoder_t := {
  dimension_count : Z;
  scale_factor : spec_float;
  add_offset : spec_float;
  dimensions : list Z;
  chunks : list Z;
  compress_callback : om_compress_callback_t;
  compress_filter_callback : om_compress_filter_callback_t;
  compress_copy_callback : om_compress_copy_callback_t;
  bytes_per_element : Z;
  bytes_per_element_compressed : Z
}.

(** Assignments to the fields, in the groups in which [om_encoder_init]
    writes them. *)
Definition set_parameters (encoder : OmEncoder_t)
    (sf ao : spec_float) (dims chks : list Z) (count : Z) : OmEncoder_t :=
  {| dimension_count := count;
     scale_factor := sf;
     add_offset := ao;
     dimensions := dims;
     chunks := chks;
     compress_callback := compress_callback encoder;
     compress_filter_callback := compress_filter_callback encoder;
     compress_copy_callback := compress_copy_callback encoder;
     bytes_per_element := bytes_per_element encoder;
     bytes_per_element_compressed := bytes_per_element_compressed encoder |}.

Definition set_sizes (encoder : OmEncoder_t) (bpe bpec : Z) : OmEncoder_t :=
  {| dimension_count := dimension_count encoder;
     scale_factor := scale_factor encoder;
     add_offset := add_offset encoder;
     dimensions := dimensions encoder;
     chunks := chunks encoder;
     compress_callback := compress_callback encoder;
     compress_filter_callback := compress_filter_callback encoder;
     compress_copy_callback := compress_copy_callback encoder;
     bytes_per_element := bpe;
     bytes_per_element_compressed := bpec |}.

Definition set_copy (encoder : OmEncoder_t)
    (cb : om_compress_copy_callback_t) : OmEncoder_t :=
  {| dimension_count := dimension_count encoder;
     scale_factor := scale_factor encoder;
     add_offset := add_offset encoder;
     dimensions := dimensions encoder;
     chunks := chunks encoder;
     compress_callback := compress_callback encoder;
     compress_filter_callback := compress_filter_callback encoder;
     compress_copy_callback := cb;
     bytes_per_element := bytes_per_element encoder;
     bytes_per_element_compressed := bytes_per_element_compressed encoder |}.

Definition set_filter (encoder : OmEncoder_t)
    (cb : om_compress_filter_callback_t) : OmEncoder_t :=
  {| dimension_count := dimension_count encoder;
     scale_factor := scale_factor encoder;
     add_offset := add_offset encoder;
     dimensions := dimensions encoder;
     chunks := chunks encoder;
     compress_callback := compress_callback encoder;
     compress_filter_callback := cb;
     compress_copy_callback := compress_copy_callback encoder;
     bytes_per_element := bytes_per_element encoder;
     bytes_per_element_compressed := bytes_per_element_compressed encoder |}.

Definition set_compress (encoder : OmEncoder_t)
    (cb : om_compress_callback_t) : OmEncoder_t :=
  {| dimension_count := dimension_count encoder;
     scale_factor := scale_factor encoder;
     add_offset := add_offset encoder;
     dimensions := dimensions encoder;
     chunks := chunks encoder;
     compress_callback := cb;
     compress_filter_callback := compress_filter_callback encoder;
     compress_copy_callback := compress_copy_callback encoder;
     bytes_per_element := bytes_per_element encoder;
     bytes_per_element_compressed := bytes_per_element_compressed encoder |}.

(** *** [om_encoder_init]

    The first [switch]: element sizes and copy function by data type;
    [None] is its [default: return ERROR_INVALID_DATA_TYPE]. *)
Definition init_data_type (encoder : OmEncoder_t) (data_type : OmDataType_t)
    : option OmEncoder_t :=
  match data_type with
  | DATA_TYPE_INT8_ARRAY | DATA_TYPE_UINT8_ARRAY =>
      Some (set_copy (set_sizes encoder 1 1) ptr_om_common_copy8)
  | DATA_TYPE_INT16_ARRAY | DATA_TYPE_UINT16_ARRAY =>
      Some (set_copy (set_sizes encoder 2 2) ptr_om_common_copy16)
  | DATA_TYPE_INT32_ARRAY | DATA_TYPE_UINT32_ARRAY | DATA_TYPE_FLOAT_ARRAY =>
      Some (set_copy (set_sizes encoder 4 4) ptr_om_common_copy32)
  | DATA_TYPE_INT64_ARRAY | DATA_TYPE_UINT64_ARRAY | DATA_TYPE_DOUBLE_ARRAY =>
      Some (set_copy (set_sizes encoder 8 8) ptr_om_common_copy32)
  | _ => None
  end.

(** The second [switch]: the pipeline by compression and data type. *)
Definition init_compression (encoder : OmEncoder_t)
    (compression : OmCompression_t) (data_type : OmDataType_t)
    : OmError_t * OmEncoder_t :=
  match compression with
  | COMPRESSION_PFOR_DELTA2D_INT16 =>
      match data_type with
      | DATA_TYPE_FLOAT_ARRAY =>
          (ERROR_OK,
           set_compress
             (set_filter
                (set_copy (set_sizes encoder 4 2) ptr_om_common_copy_float_to_int16)
                ptr_delta2d_encode16)
             ptr_p4nzenc128v16)
      | _ => (ERROR_INVALID_DATA_TYPE, encoder)
      end
  | COMPRESSION_FPX_XOR2D =>
      match data_type with
      | DATA_TYPE_FLOAT_ARRAY =>
          (ERROR_OK,
           set_filter (set_compress encoder ptr_om_common_compress_fpxenc32)
             ptr_delta2d_encode_xor)
      | DATA_TYPE_DOUBLE_ARRAY =>
          (ERROR_OK,
           set_filter (set_compress encoder ptr_om_common_compress_fpxenc64)
             ptr_delta2d_encode_xor_double)
      | _ => (ERROR_INVALID_DATA_TYPE, encoder)
      end
  | COMPRESSION_PFOR_DELTA2D =>
      match data_type with
      | DATA_TYPE_INT8_ARRAY =>
          (ERROR_OK,
           set_filter (set_compress encoder ptr_p4nzenc8) ptr_delta2d_encode8)
      | DATA_TYPE_UINT8_ARRAY =>
          (ERROR_OK,
           set_filter (set_compress encoder ptr_p4ndenc8) ptr_delta2d_encode8)
      | DATA_TYPE_INT16_ARRAY =>
          (ERROR_OK,
           set_filter (set_compress encoder ptr_p4nzenc128v16) ptr_delta2d_encode16)
      | DATA_TYPE_UINT16_ARRAY =>
          (ERROR_OK,
           set_filter (set_compress encoder ptr_p4ndenc128v16) ptr_delta2d_encode16)
      | DATA_TYPE_INT32_ARRAY =>
          (ERROR_OK,
           set_filter (set_compress encoder ptr_p4nzenc128v32) ptr_delta2d_encode32)
      | DATA_TYPE_UINT32_ARRAY =>
          (ERROR_OK,
           set_filter (set_compress encoder ptr_p4ndenc128v32) ptr_delta2d_encode32)
      | DATA_TYPE_INT64_ARRAY =>
          (ERROR_OK,
           set_filter (set_compress encoder ptr_p4nzenc64) ptr_delta2d_encode64)
      | DATA_TYPE_UINT64_ARRAY =>
          (ERROR_OK,
           set_filter (set_compress encoder ptr_p4ndenc64) ptr_delta2d_encode64)
      | DATA_TYPE_FLOAT_ARRAY =>
          (ERROR_OK,
           set_compress
             (set_filter (set_copy encoder ptr_om_common_copy_float_to_int32)
                ptr_delta2d_encode32)
             ptr_p4nzenc128v32)
      | DATA_TYPE_DOUBLE_ARRAY =>
          (ERROR_OK,
           set_compress
             (set_filter (set_copy encoder ptr_om_common_copy_double_to_int64)
                ptr_delta2d_encode64)
             ptr_p4nzenc64)
      | _ => (ERROR_INVALID_DATA_TYPE, encoder)
      end
  | COMPRESSION_PFOR_DELTA2D_INT16_LOGARITHMIC =>
      match data_type with
      | DATA_TYPE_FLOAT_ARRAY =>
          (ERROR_OK,
           set_compress
             (set_filter
                (set_copy (set_sizes encoder 4 2)
                   ptr_om_common_copy_float_to_int16_log10)
                ptr_delta2d_encode16)
             ptr_p4nzenc128v16)
      | _ => (ERROR_INVALID_DATA_TYPE, encoder)
      end
  | _ => (ERROR_INVALID_COMPRESSION_TYPE, encoder)
  end.

(** [om_encoder_init] mutates the record behind [encoder] and returns an
    error code: the result is the code and the record as the call leaves
    it. *)
Definition om_encoder_init (encoder : OmEncoder_t)
    (scale_factor add_offset : spec_float)
    (compression : OmCompression_t) (data_type : OmDataType_t)
    (dimensions chunks : list Z) (dimension_count : Z)
    : OmError_t * OmEncoder_t :=
  let encoder :=
    set_parameters encoder scale_factor add_offset dimensions chunks
      dimension_count in
  match init_data_type encoder data_type with
  | None => (ERROR_INVALID_DATA_TYPE, encoder)
  | Some encoder => init_compression encoder compression data_type
  end.

(** The vocabulary of the configuration errors: the data types that carry
    a payload, the four compressions, and the pairs that go together. *)
Definition payload_array_type (data_type : OmDataType_t) : Prop :=
  In data_type
    [DATA_TYPE_INT8_ARRAY; DATA_TYPE_UINT8_ARRAY; DATA_TYPE_INT16_ARRAY;
     DATA_TYPE_UINT16_ARRAY; DATA_TYPE_INT32_ARRAY; DATA_TYPE_UINT32_ARRAY;
     DATA_TYPE_INT64_ARRAY; DATA_TYPE_UINT64_ARRAY; DATA_TYPE_FLOAT_ARRAY;
     DATA_TYPE_DOUBLE_ARRAY].

Definition known_compression (compression : OmCompression_t) : Prop :=
  In compression
    [COMPRESSION_PFOR_DELTA2D_INT16; COMPRESSION_FPX_XOR2D;
     COMPRESSION_PFOR_DELTA2D; COMPRESSION_PFOR_DELTA2D_INT16_LOGARITHMIC].

Definition incompatible (data_type : OmDataType_t)
    (compression : OmCompression_t) : Prop :=
  ((compression = COMPRESSION_PFOR_DELTA2D_INT16
    \/ compression = COMPRESSION_PFOR_DELTA2D_INT16_LOGARITHMIC)
   /\ data_type <> DATA_TYPE_FLOAT_ARRAY)
  \/ (compression = COMPRESSION_FPX_XOR2D
      /\ data_type <> DATA_TYPE_FLOAT_ARRAY
      /\ data_type <> DATA_TYPE_DOUBLE_ARRAY).

(** The element size and the copy function that the first [switch] of
    [om_encoder_init] writes for each data type. *)
Definition first_switch_writes
    : list (OmDataType_t * (Z * om_compress_copy_callback_t)) :=
  [(DATA_TYPE_INT8_ARRAY, (1, ptr_om_common_copy8));
   (DATA_TYPE_UINT8_ARRAY, (1, ptr_om_common_copy8));
   (DATA_TYPE_INT16_ARRAY, (2, ptr_om_common_copy16));
   (DATA_TYPE_UINT16_ARRAY, (2, ptr_om_common_copy16));
   (DATA_TYPE_INT32_ARRAY, (4, ptr_om_common_copy32));
   (DATA_TYPE_UINT32_ARRAY, (4, ptr_om_common_copy32));
   (DATA_TYPE_FLOAT_ARRAY, (4, ptr_om_common_copy32));
   (DATA_TYPE_INT64_ARRAY, (8, ptr_om_common_copy32));
   (DATA_TYPE_UINT64_ARRAY, (8, ptr_om_common_copy32));
   (DATA_TYPE_DOUBLE_ARRAY, (8, ptr_om_common_copy32))].

(** The sizes in bytes of the elements that a copy function reads and
    writes: the types of its two casts. *)
Definition copy_element_sizes (callback : om_compress_copy_callback_t) : Z * Z :=
  match callback with
  | ptr_om_common_copy8 => (1, 1)
  | ptr_om_common_copy16 => (2, 2)
  | ptr_om_common_copy32 => (4, 4)
  | ptr_om_common_copy64 => (8, 8)
  | ptr_om_common_copy_float_to_int16 => (4, 2)
  | ptr_om_common_copy_float_to_int32 => (4, 4)
  | ptr_om_common_copy_double_to_int64 => (8, 8)
  | ptr_om_common_copy_float_to_int16_log10 => (4, 2)
  end.

(** The size in bytes of the elements that the loops of a filter of
    [delta2d.c] read and write: [intW_t] in [delta2d_encodeW], and [int] in
    both XOR filters, which walk their buffer through
    [int* chunkBufferInt = (int* )chunkBuffer], the one that takes a
    [double*] as well. *)
Definition filter_element_size (callback : om_compress_filter_callback_t) : Z :=
  match callback with
  | ptr_delta2d_encode8 => 1
  | ptr_delta2d_encode16 => 2
  | ptr_delta2d_encode32 => 4
  | ptr_delta2d_encode64 => 8
  | ptr_delta2d_encode_xor => 4
  | ptr_delta2d_encode_xor_double => 4
  end.

(** A record whose memory is all zero bytes, as [calloc] hands it out; a
    null function pointer is given by the first function of its type. *)
Definition zeroed : OmEncoder_t :=
  {| dimension_count := 0;
     scale_factor := S754_zero false;
     add_offset := S754_zero false;
     dimensions := [];
     chunks := [];
     compress_callback := ptr_p4nzenc8;
     compress_filter_callback := ptr_delta2d_encode8;
     compress_copy_callback := ptr_om_common_copy8;
     bytes_per_element := 0;
     bytes_per_element_compressed := 0 |}.

(** *** Helpers of [om_common.h] and [uint64_t] arithmetic *)

Definition add64 (a b : Z) : Z := u64 (a + b).
Definition sub64 (a b : Z) : Z := u64 (a - b).
Definition mul64 (a b : Z) : Z := u64 (a * b).

(** *** [om_encoder_compress_chunk]

    What a call can come to: it returns, an [assert] aborts it (the source
    line is recorded), it does something without a defined result (a
    division by zero, a read past the end of one of the [uint64_t] arrays),
    or the fuel given to its [while (true)] loop runs out. *)
Inductive outcome (A : Type) :=
| Returned (a : A)
| AssertionFailed (line : nat)
| Undefined
| OutOfFuel.
Arguments Returned {A} a.
Arguments AssertionFailed {A} line.
Arguments Undefined {A}.
Arguments OutOfFuel {A}.

#[global] Instance outcome_ret : MRet outcome := @Returned.

#[global] Instance outcome_bind : MBind outcome :=
  fun A B (k : A -> outcome B) (m : outcome A) =>
    match m with
    | Returned a => k a
    | AssertionFailed line => AssertionFailed line
    | Undefined => Undefined
    | OutOfFuel => OutOfFuel
    end.

(** [arr[i]] *)
Definition read (arr : list Z) (i : nat) : outcome Z :=
  match arr !! i with
  | Some v => Returned v
  | None => Undefined
  end.

(** [assert(cond)] at a line of [om_encoder.c] *)
Definition assert (line : nat) (cond : bool) : outcome unit :=
  if cond then Returned tt else AssertionFailed line.

(** [a / b] and [a % b] on [uint64_t] *)
Definition div64 (a b : Z) : outcome Z :=
  if b =? 0 then Undefined else Returned (a / b).
Definition mod64 (a b : Z) : outcome Z :=
  if b =? 0 then Undefined else Returned (a mod b).

(** Modelled from the spec: the macros [divide_rounded_up] and [min] of
    [om_common.h], which is not among the sources (section 4.4: the ceiling
    of [dimensions[i] / chunks[i]], and the minimum of two values). *)
Definition divide_rounded_up (dividend divisor : Z) : outcome Z :=
  div64 (dividend + divisor - 1) divisor.

Definition min (a b : Z) : Z := Z.min a b.

(** The function touches the user's array and the chunk buffer only through
    the callbacks of the encoder.  A call of the copy callback is recorded
    with its arguments: [src] and [dst] are the byte offsets of the two
    pointers from [array] and from [chunkBuffer]. *)
Record copy_call := {
  copy_callback : om_compress_copy_callback_t;
  copy_length : Z;
  copy_scale_factor : spec_float;
  copy_add_offset : spec_float;
  copy_src : Z;
  copy_dst : Z
}.

(** The calls of one [om_encoder_compress_chunk], in order: the copies,
    then the filter on [chunkBuffer] with its two lengths, then the
    compressor on [chunkBuffer] with its length, whose result the function
    returns. *)
Record chunk_calls := {
  copies : list copy_call;
  filter_callback : om_compress_filter_callback_t;
  filter_length0 : Z;
  filter_length1 : Z;
  compressor_callback : om_compress_callback_t;
  compressor_length : Z
}.

(** The local variables that the two loops share. *)
Record cursor := {
  rollingMultiply : Z;
  rollingMultiplyChunkLength : Z;
  rollingMultiplyTargetCube : Z;
  readCoordinate : Z;
  writeCoordinate : Z;
  linearReadCount : Z;
  linearRead : bool;
  lengthLast : Z
}.

Section CompressChunk.
Variable encoder : OmEncoder_t.
Variables arrayDimensions arrayOffset arrayCount : list Z.
Variables chunkIndex chunkIndexOffsetInThisArray : Z.

(** [uint64_t arrayTotalCount = 1; for (...) arrayTotalCount *= arrayDimensions[i];] *)
Fixpoint total_count (ixs : list nat) (acc : Z) : outcome Z :=
  match ixs with
  | [] => Returned acc
  | i :: ixs' =>
      d ← read arrayDimensions i;
      total_count ixs' (mul64 acc d)
  end.

(** The linear-run bookkeeping that both loops contain:
    [if (i == dimension_count - 1 && !(arrayCount[i] == length0 &&
    arrayDimensions[i] == length0)) {...}
    if (linearRead && arrayCount[i] == length0 && arrayDimensions[i] ==
    length0) {...} else {...}]. *)
Definition linear_run (is_last : bool) (count dim length0 : Z)
    (lrc : Z) (lr : bool) : Z * bool :=
  let full := (count =? length0) && (dim =? length0) in
  let '(lrc, lr) :=
    if is_last && negb full then (length0, false) else (lrc, lr) in
  if lr && full then (mul64 lrc length0, lr) else (lrc, false).

(** The body of the first loop, for the dimension [i]. *)
Definition start_dimension (i : nat) (st : cursor) : outcome cursor :=
  let is_last := Z.of_nat i =? dimension_count encoder - 1 in
  dimension ← read (dimensions encoder) i;
  chunk ← read (chunks encoder) i;
  nChunksInThisDimension ← divide_rounded_up dimension chunk;
  q ← div64 chunkIndex (rollingMultiply st);
  c0 ← mod64 q nChunksInThisDimension;
  qOffset ← div64 chunkIndexOffsetInThisArray (rollingMultiply st);
  c0Offset ← mod64 qOffset nChunksInThisDimension;
  let length0 := sub64 (min (mul64 (add64 c0 1) chunk) dimension) (mul64 c0 chunk) in
  let lengthLast := if is_last then length0 else lengthLast st in
  offset ← read arrayOffset i;
  let readCoordinate :=
    add64 (readCoordinate st)
      (mul64 (rollingMultiplyTargetCube st) (add64 (mul64 c0Offset chunk) offset)) in
  count ← read arrayCount i;
  assert 261 (length0 <=? count) ;;
  dim ← read arrayDimensions i;
  assert 262 (length0 <=? dim) ;;
  let '(lrc, lr) :=
    linear_run is_last count dim length0 (linearReadCount st) (linearRead st) in
  Returned {|
    rollingMultiply := mul64 (rollingMultiply st) nChunksInThisDimension;
    rollingMultiplyChunkLength := mul64 (rollingMultiplyChunkLength st) length0;
    rollingMultiplyTargetCube := mul64 (rollingMultiplyTargetCube st) dim;
    readCoordinate := readCoordinate;
    writeCoordinate := writeCoordinate st;
    linearReadCount := lrc;
    linearRead := lr;
    lengthLast := lengthLast |}.

Fixpoint start_loop (ixs : list nat) (st : cursor) : outcome cursor :=
  match ixs with
  | [] => Returned st
  | i :: ixs' => st' ← start_dimension i st; start_loop ixs' st'
  end.

(** How the body of the inner [for] loop of the main loop is left. *)
Inductive control := NextDimension | Break | Return.

(** The body of the inner loop, for the dimension [i]. *)
Definition step_dimension (i : nat) (st : cursor) : outcome (control * cursor) :=
  let is_last := Z.of_nat i =? dimension_count encoder - 1 in
  chunk ← read (chunks encoder) i;
  dim ← read arrayDimensions i;
  offset ← read arrayOffset i;
  count ← read arrayCount i;
  p ← div64 (readCoordinate st) (rollingMultiplyTargetCube st);
  p ← mod64 p dim;
  qPos ← div64 (sub64 p offset) chunk;
  let length0 := sub64 (min (mul64 (add64 qPos 1) chunk) count) (mul64 qPos chunk) in
  let readCoordinate := add64 (readCoordinate st) (rollingMultiplyTargetCube st) in
  let '(lrc, lr) :=
    linear_run is_last count dim length0 (linearReadCount st) (linearRead st) in
  p' ← div64 readCoordinate (rollingMultiplyTargetCube st);
  p' ← mod64 p' dim;
  q0 ← mod64 (sub64 p' offset) chunk;
  let moved := {|
    rollingMultiply := rollingMultiply st;
    rollingMultiplyChunkLength := rollingMultiplyChunkLength st;
    rollingMultiplyTargetCube := rollingMultiplyTargetCube st;
    readCoordinate := readCoordinate;
    writeCoordinate := writeCoordinate st;
    linearReadCount := lrc;
    linearRead := lr;
    lengthLast := lengthLast st |} in
  if negb (q0 =? 0) && negb (q0 =? length0) then Returned (Break, moved)
  else
    let wrapped := {|
      rollingMultiply := rollingMultiply st;
      rollingMultiplyChunkLength := rollingMultiplyChunkLength st;
      rollingMultiplyTargetCube := mul64 (rollingMultiplyTargetCube st) dim;
      readCoordinate := sub64 readCoordinate (mul64 length0 (rollingMultiplyTargetCube st));
      writeCoordinate := writeCoordinate st;
      linearReadCount := lrc;
      linearRead := lr;
      lengthLast := lengthLast st |} in
    Returned (if (i =? 0)%nat then Return else NextDimension, wrapped).

Fixpoint step_loop (ixs : list nat) (st : cursor) : outcome (control * cursor) :=
  match ixs with
  | [] => Returned (NextDimension, st)
  | i :: ixs' =>
      r ← step_dimension i st;
      match r with
      | (NextDimension, st') => step_loop ixs' st'
      | _ => Returned r
      end
  end.

(** The dimensions in the order both [for] loops visit them:
    [i = dimension_count - i_forward - 1]. *)
Definition backward : list nat :=
  rev (seq 0 (Z.to_nat (dimension_count encoder))).

(** [while (true) {...}] *)
Fixpoint main_loop (fuel : nat) (arrayTotalCount lengthInChunk : Z)
    (st : cursor) (calls : list copy_call) : outcome chunk_calls :=
  match fuel with
  | O => OutOfFuel
  | S fuel' =>
      assert 282 (add64 (readCoordinate st) (linearReadCount st)
                         <=? arrayTotalCount) ;;
      assert 283 (add64 (writeCoordinate st) (linearReadCount st)
                         <=? lengthInChunk) ;;
      let call := {|
        copy_callback := compress_copy_callback encoder;
        copy_length := linearReadCount st;
        copy_scale_factor := scale_factor encoder;
        copy_add_offset := add_offset encoder;
        copy_src := mul64 (bytes_per_element encoder) (readCoordinate st);
        copy_dst := mul64 (bytes_per_element_compressed encoder) (writeCoordinate st) |} in
      let st1 := {|
        rollingMultiply := rollingMultiply st;
        rollingMultiplyChunkLength := rollingMultiplyChunkLength st;
        rollingMultiplyTargetCube := 1;
        readCoordinate := add64 (readCoordinate st) (sub64 (linearReadCount st) 1);
        writeCoordinate :=
          add64 (add64 (writeCoordinate st) (sub64 (linearReadCount st) 1)) 1;
        linearReadCount := 1;
        linearRead := true;
        lengthLast := lengthLast st |} in
      r ← step_loop backward st1;
      match r with
      | (Return, st2) =>
          length0 ← div64 lengthInChunk (lengthLast st2);
          Returned {|
            copies := calls ++ [call];
            filter_callback := compress_filter_callback encoder;
            filter_length0 := length0;
            filter_length1 := lengthLast st2;
            compressor_callback := compress_callback encoder;
            compressor_length := lengthInChunk |}
      | (_, st2) => main_loop fuel' arrayTotalCount lengthInChunk st2 (calls ++ [call])
      end
  end.

Definition om_encoder_compress_chunk (fuel : nat) : outcome chunk_calls :=
  arrayTotalCount ← total_count (seq 0 (Z.to_nat (dimension_count encoder))) 1;
  st ← start_loop backward {|
          rollingMultiply := 1;
          rollingMultiplyChunkLength := 1;
          rollingMultiplyTargetCube := 1;
          readCoordinate := 0;
          writeCoordinate := 0;
          linearReadCount := 1;
          linearRead := true;
          lengthLast := 0 |};
  main_loop fuel arrayTotalCount (rollingMultiplyChunkLength st) st [].

End CompressChunk.

(** *** The copies on memory

    A recorded call of one of the straight copies, run on the bytes of the
    user's array and of the chunk buffer.  (The quantisers read and write
    typed views; their calls are not run on bytes.) *)
Definition run_copy (array : list Z) (chunkBuffer : list Z) (c : copy_call)
    : option (list Z) :=
  let src := drop (Z.to_nat (copy_src c)) array in
  let dst := drop (Z.to_nat (copy_dst c)) chunkBuffer in
  let copied :=
    match copy_callback c with
    | ptr_om_common_copy8 =>
        om_common_copy8 (copy_length c) (copy_scale_factor c)
          (copy_add_offset c) src dst
    | ptr_om_common_copy16 =>
        om_common_copy16 (copy_length c) (copy_scale_factor c)
          (copy_add_offset c) src dst
    | ptr_om_common_copy32 =>
        om_common_copy32 (copy_length c) (copy_scale_factor c)
          (copy_add_offset c) src dst
    | ptr_om_common_copy64 =>
        om_common_copy64 (copy_length c) (copy_scale_factor c)
          (copy_add_offset c) src dst
    | _ => None
    end in
  match copied with
  | Some dst' => Some (take (Z.to_nat (copy_dst c)) chunkBuffer ++ dst')
  | None => None
  end.

Fixpoint run_copies (array : list Z) (chunkBuffer : list Z)
    (calls : list copy_call) : option (list Z) :=
  match calls with
  | [] => Some chunkBuffer
  | c :: calls' =>
      match run_copy array chunkBuffer c with
      | Some chunkBuffer' => run_copies array chunkBuffer' calls'
      | None => None
      end
  end.

(** The chunk buffer as the gather loop of [om_encoder_compress_chunk]
    leaves it, before the filter runs. *)
Definition gathered (encoder : OmEncoder_t)
    (array : list Z) (arrayDimensions arrayOffset arrayCount : list Z)
    (chunkIndex chunkIndexOffsetInThisArray : Z) (chunkBuffer : list Z)
    (fuel : nat) : outcome (list Z) :=
  calls ← om_encoder_compress_chunk encoder arrayDimensions arrayOffset
            arrayCount chunkIndex chunkIndexOffsetInThisArray fuel;
  match run_copies array chunkBuffer (copies calls) with
  | Some chunkBuffer' => Returned chunkBuffer'
  | None => Undefined
  end.

(** *** The sizing functions

    The dimensions in the order [for (uint64_t i = 0; i < dimension_count;
    i++)] visits them. *)
Definition forward (encoder : OmEncoder_t) : list nat :=
  seq 0 (Z.to_nat (dimension_count encoder)).

(** [n *= divide_rounded_up(array[i], encoder->chunks[i])], for [array]
    the dimensions of the file array or the [array_count] of the caller. *)
Fixpoint count_loop (encoder : OmEncoder_t) (array : list Z)
    (ixs : list nat) (n : Z) : outcome Z :=
  match ixs with
  | [] => Returned n
  | i :: ixs' =>
      dimension ← read array i;
      chunk ← read (chunks encoder) i;
      k ← divide_rounded_up dimension chunk;
      count_loop encoder array ixs' (mul64 n k)
  end.

Definition om_encoder_count_chunks (encoder : OmEncoder_t) : outcome Z :=
  count_loop encoder (dimensions encoder) (forward encoder) 1.

Definition om_encoder_count_chunks_in_array (encoder : OmEncoder_t)
    (array_count : list Z) : outcome Z :=
  count_loop encoder array_count (forward encoder) 1.

(** [chunkLength *= encoder->chunks[i]] *)
Fixpoint chunk_length_loop (encoder : OmEncoder_t) (ixs : list nat)
    (chunkLength : Z) : outcome Z :=
  match ixs with
  | [] => Returned chunkLength
  | i :: ixs' =>
      chunk ← read (chunks encoder) i;
      chunk_length_loop encoder ixs' (mul64 chunkLength chunk)
  end.

Definition om_encoder_chunk_buffer_size (encoder : OmEncoder_t) : outcome Z :=
  chunkLength ← chunk_length_loop encoder (forward encoder) 1;
  Returned (mul64 chunkLength (bytes_per_element_compressed encoder)).

(** [(chunkLength + 255) /256 + (chunkLength + 32) *
    encoder->bytes_per_element_compressed] *)
Definition om_encoder_compressed_chunk_buffer_size (encoder : OmEncoder_t)
    : outcome Z :=
  chunkLength ← chunk_length_loop encoder (forward encoder) 1;
  Returned (add64 (add64 chunkLength 255 / 256)
              (mul64 (add64 chunkLength 32)
                 (bytes_per_element_compressed encoder))).

(** *** The look-up table

    Modelled from the spec: [LUT_CHUNK_COUNT] is a macro of [om_common.h],
    which is not among the sources; section 2 of the specification gives its
    value. *)
Definition LUT_CHUNK_COUNT : Z := 256.

Section Lut.
(** [p4ndenc64(in, n, out)] comes from the compression library.  It is a
    parameter: given the elements from [in] on, [n], and the bytes from
    [out] on, it gives the length it returns and the bytes from [out] on as
    it leaves them. *)
Variable p4ndenc64 : list Z -> Z -> list Z -> Z * list Z.

(** What both functions do with the block [i] of the table:
    [p4ndenc64((uint64_t* )&lookUpTable[rangeStart], rangeEnd - rangeStart,
    out)]. *)
Definition lut_encode (lookUpTable : list Z) (lookUpTableCount : Z)
    (i : nat) (out : list Z) : outcome (Z * list Z) :=
  let rangeStart := mul64 (Z.of_nat i) LUT_CHUNK_COUNT in
  let rangeEnd := min (add64 rangeStart LUT_CHUNK_COUNT) lookUpTableCount in
  if Z.of_nat (length lookUpTable) <? rangeStart then Undefined
  else Returned (p4ndenc64 (drop (Z.to_nat rangeStart) lookUpTable)
                   (sub64 rangeEnd rangeStart) out).

(** The loop of [om_encoder_lut_buffer_size]. *)
Fixpoint lut_max_length (lookUpTable : list Z) (lookUpTableCount : Z)
    (ixs : list nat) (buffer : list Z) (maxLength : Z) : outcome Z :=
  match ixs with
  | [] => Returned maxLength
  | i :: ixs' =>
      r ← lut_encode lookUpTable lookUpTableCount i buffer;
      let '(len, buffer) := r in
      lut_max_length lookUpTable lookUpTableCount ixs' buffer
        (if maxLength <? len then len else maxLength)
  end.

Definition om_encoder_lut_buffer_size (lookUpTable : list Z)
    (lookUpTableCount : Z) : outcome Z :=
  let buffer := replicate (Z.to_nat ((LUT_CHUNK_COUNT + 32) * 8)) 0 in
  nLutChunks ← divide_rounded_up lookUpTableCount LUT_CHUNK_COUNT;
  maxLength ← lut_max_length lookUpTable lookUpTableCount
                (seq 0 (Z.to_nat nLutChunks)) buffer 0;
  Returned (add64 (mul64 maxLength nLutChunks) (mul64 32 8)).

(** [for (uint64_t j = ...; j < ...; j++) out[j] = 0;] with [count]
    iterations from [j] on. *)
Fixpoint zero_fill (out : list Z) (j : Z) (count : nat) : outcome (list Z) :=
  match count with
  | O => Returned out
  | S count' =>
      if decide (Z.to_nat j < length out)%nat
      then zero_fill (<[Z.to_nat j := 0]> out) (j + 1) count'
      else Undefined
  end.

(** The loop of [om_encoder_compress_lut]. *)
Fixpoint lut_chunks (lookUpTable : list Z) (lookUpTableCount : Z)
    (lutChunkLength : Z) (ixs : list nat) (out : list Z)
    : outcome (list Z) :=
  match ixs with
  | [] => Returned out
  | i :: ixs' =>
      let offset := mul64 (Z.of_nat i) lutChunkLength in
      if Z.of_nat (length out) <? offset then Undefined
      else
        r ← lut_encode lookUpTable lookUpTableCount i
              (drop (Z.to_nat offset) out);
        let '(len, tail) := r in
        let out := take (Z.to_nat offset) out ++ tail in
        let first := add64 offset len in
        let last := mul64 (Z.of_nat i + 1) lutChunkLength in
        out ← zero_fill out first (Z.to_nat (last - first));
        lut_chunks lookUpTable lookUpTableCount lutChunkLength ixs' out
  end.

(** The result is the value returned and the bytes behind [out]. *)
Definition om_encoder_compress_lut (lookUpTable : list Z)
    (lookUpTableCount : Z) (out : list Z) (compressed_lut_buffer_size : Z)
    : outcome (Z * list Z) :=
  nLutChunks ← divide_rounded_up lookUpTableCount LUT_CHUNK_COUNT;
  let lutSize := sub64 compressed_lut_buffer_size (mul64 32 8) in
  lutChunkLength ← div64 lutSize nLutChunks;
  out ← lut_chunks lookUpTable lookUpTableCount lutChunkLength
          (seq 0 (Z.to_nat nLutChunks)) out;
  Returned (lutSize, out).

End Lut.

End OmEncoder.

(** ** The chunk that a call of [om_encoder_compress_chunk] addresses

    The vocabulary in which the gather loop is specified: the axes of a
    call, the chunk's coordinates in the chunk grid, its shape, and the
    place of each of its elements in the source array. *)

Module ChunkGather.
Import MachInt IEEE OmCommon OmEncoder.

Definition product (l : list Z) : Z := fold_right Z.mul 1 l.

(** One axis, with the five arguments of the call that concern it. *)
Record axis := {
  ax_dimension : Z;
  ax_chunk : Z;
  ax_arrayDimension : Z;
  ax_arrayOffset : Z;
  ax_arrayCount : Z
}.

Section Axes.
Variable encoder : OmEncoder_t.
Variables arrayDimensions arrayOffset arrayCount : list Z.

Definition axis_at (i : nat) : axis :=
  {| ax_dimension := dimensions encoder !!! i;
     ax_chunk := chunks encoder !!! i;
     ax_arrayDimension := arrayDimensions !!! i;
     ax_arrayOffset := arrayOffset !!! i;
     ax_arrayCount := arrayCount !!! i |}.

(** The axes from the innermost (the last dimension) outwards, the order in
    which the loops of [om_encoder_compress_chunk] visit them. *)
Definition inner_first : list axis := map axis_at (backward encoder).
End Axes.

(** An axis together with the chunk's coordinate along it, in the chunk
    grid of the file ([c0]) and in the chunk grid of the array passed in
    ([c0Offset]). *)
Record placed := {
  pl_axis :> axis;
  pl_c0 : Z;
  pl_c0Offset : Z
}.

(** The number of chunks along an axis. *)
Definition chunks_along (a : axis) : Z :=
  (ax_dimension a + ax_chunk a - 1) / ax_chunk a.

(** [chunkIndex] and [chunkIndexOffsetInThisArray] number the chunks in
    row-major order; [rolling] is the number of chunks of one step along
    the axis at the head. *)
Fixpoint place (chunkIndex chunkIndexOffsetInThisArray rolling : Z)
    (axes : list axis) : list placed :=
  match axes with
  | [] => []
  | a :: axes' =>
      {| pl_axis := a;
         pl_c0 := (chunkIndex / rolling) mod chunks_along a;
         pl_c0Offset := (chunkIndexOffsetInThisArray / rolling) mod chunks_along a |}
      :: place chunkIndex chunkIndexOffsetInThisArray
           (rolling * chunks_along a) axes'
  end.

(** The extent of the chunk along an axis (section 3 of the specification:
    the last chunk along an axis may be short). *)
Definition extent (p : placed) : Z :=
  Z.min ((pl_c0 p + 1) * ax_chunk p) (ax_dimension p) - pl_c0 p * ax_chunk p.

(** Where the chunk starts along an axis of the source array. *)
Definition origin (p : placed) : Z :=
  ax_arrayOffset p + pl_c0Offset p * ax_chunk p.

(** The number of elements of the chunk, and of the source array. *)
Definition volume (ps : list placed) : Z :=
  fold_right (fun p v => extent p * v) 1 ps.

Definition source_volume (ps : list placed) : Z :=
  fold_right (fun (p : placed) v => ax_arrayDimension p * v) 1 ps.

Definition grid_volume (ps : list placed) : Z :=
  fold_right (fun (p : placed) v => chunks_along p * v) 1 ps.

(** The index, in the source array, of the element number [w] of the chunk
    in row-major order (axes inner first: the innermost index is
    [w mod extent]). *)
Fixpoint source_coordinate (ps : list placed) (w : Z) : Z :=
  match ps with
  | [] => 0
  | p :: ps' =>
      (origin p + w mod extent p)
      + ax_arrayDimension p * source_coordinate ps' (w / extent p)
  end.

(** An axis that the chunk, the sub-region and the source array span
    alike; runs of elements continue across such axes. *)
Definition covered (p : placed) : bool :=
  (ax_arrayCount p =? extent p) && (ax_arrayDimension p =? extent p).

Fixpoint joined (ps : list placed) : Z :=
  match ps with
  | [] => 1
  | p :: ps' => if covered p then extent p * joined ps' else 1
  end.

(** The number of elements that one call of the copy callback moves. *)
Definition run_length (ps : list placed) : Z :=
  match ps with
  | [] => 1
  | p :: ps' => if covered p then extent p * joined ps' else extent p
  end.

(** By how much the axes [ps] still lengthen a run, for a loop that is at
    its first axis ([is_last]) or past it with the flag [linearRead]. *)
Definition growth (is_last linearRead : bool) (ps : list placed) : Z :=
  if is_last then run_length ps else if linearRead then joined ps else 1.

(** The state of the linear-run bookkeeping after the loop has visited the
    axes [ps], from the state [s]. *)
Fixpoint runs (is_last : bool) (ps : list placed) (s : Z * bool) : Z * bool :=
  match ps with
  | [] => s
  | p :: ps' =>
      runs false ps'
        (linear_run is_last (ax_arrayCount p) (ax_arrayDimension p) (extent p)
           (fst s) (snd s))
  end.

(** The chunk's coordinates are coordinates of the chunk grid. *)
Definition in_grid (p : placed) : Prop :=
  0 <= pl_c0 p < chunks_along p /\ 0 <= pl_c0Offset p.

(** What the gather loop needs of an axis: a chunk grid, a sub-region
    inside the source array, the chunk inside the sub-region and cut where
    the file's chunk grid cuts it, and a cursor that does not reach the end
    of the source array unless the sub-region starts at 0. *)
Definition axis_ok (p : placed) : Prop :=
  1 <= ax_chunk p /\ 1 <= ax_dimension p /\
  0 <= ax_arrayOffset p /\
  ax_arrayOffset p + ax_arrayCount p <= ax_arrayDimension p /\
  pl_c0Offset p * ax_chunk p + extent p <= ax_arrayCount p /\
  (extent p = ax_chunk p
   \/ pl_c0Offset p * ax_chunk p + extent p = ax_arrayCount p) /\
  (ax_arrayOffset p = 0 \/ origin p + extent p < ax_arrayDimension p) /\
  ax_dimension p + ax_chunk p <= 2 ^ 64 /\
  ax_arrayCount p + ax_chunk p <= 2 ^ 64.

(** The calls of the copy callback that gather the chunk: one per run, in
    row-major order; the call number [k] moves the elements
    [k * run_length .. (k+1) * run_length - 1] of the chunk. *)
Definition expected_copy (encoder : OmEncoder_t) (ps : list placed) (k : Z)
    : copy_call :=
  {| copy_callback := compress_copy_callback encoder;
     copy_length := run_length ps;
     copy_scale_factor := scale_factor encoder;
     copy_add_offset := add_offset encoder;
     copy_src := mul64 (bytes_per_element encoder)
                   (source_coordinate ps (k * run_length ps));
     copy_dst := mul64 (bytes_per_element_compressed encoder)
                   (k * run_length ps) |}.

Definition expected_copies (encoder : OmEncoder_t) (ps : list placed)
    : list copy_call :=
  map (expected_copy encoder ps) (seqZ 0 (volume ps / run_length ps)).

(** All the calls of one [om_encoder_compress_chunk] that gathers the
    chunk: the copies, the filter on [volume / extent] rows of [extent]
    elements ([extent] that of the innermost axis), the compressor on
    [volume] elements. *)
Definition expected_calls (encoder : OmEncoder_t) (ps : list placed)
    : chunk_calls :=
  let lengthLast := match ps with p :: _ => extent p | [] => 0 end in
  {| copies := expected_copies encoder ps;
     filter_callback := compress_filter_callback encoder;
     filter_length0 := volume ps / lengthLast;
     filter_length1 := lengthLast;
     compressor_callback := compress_callback encoder;
     compressor_length := volume ps |}.

(** *** The gathered chunk

    The straight copies, with the width in bytes of the elements they
    move. *)
Definition straight_copy (callback : om_compress_copy_callback_t)
    : option nat :=
  match callback with
  | ptr_om_common_copy8 => Some 1%nat
  | ptr_om_common_copy16 => Some 2%nat
  | ptr_om_common_copy32 => Some 4%nat
  | ptr_om_common_copy64 => Some 8%nat
  | _ => None
  end.

(** The bytes of the element [i] of an array of [width]-byte elements. *)
Definition element (width : nat) (array : list Z) (i : Z) : list Z :=
  take width (drop (Z.to_nat i * width) array).

(** The chunk of section 3 of the specification: its elements in row-major
    order, each one read at its place in the source array. *)
Definition chunk_elements (width : nat) (array : list Z) (ps : list placed)
    : list Z :=
  concat (map (fun w => element width array (source_coordinate ps w))
            (seqZ 0 (volume ps))).

(** *** The two loops, axis by axis

    [start_dimension] and [step_dimension] with the array elements they
    read as arguments. *)
Section ByAxis.
Variables chunkIndex chunkIndexOffsetInThisArray : Z.

Definition start_axis (is_last : bool) (a : axis) (st : cursor)
    : outcome cursor :=
  let dimension := ax_dimension a in
  let chunk := ax_chunk a in
  nChunksInThisDimension ← divide_rounded_up dimension chunk;
  q ← div64 chunkIndex (rollingMultiply st);
  c0 ← mod64 q nChunksInThisDimension;
  qOffset ← div64 chunkIndexOffsetInThisArray (rollingMultiply st);
  c0Offset ← mod64 qOffset nChunksInThisDimension;
  let length0 := sub64 (min (mul64 (add64 c0 1) chunk) dimension) (mul64 c0 chunk) in
  let lengthLast := if is_last then length0 else lengthLast st in
  let offset := ax_arrayOffset a in
  let readCoordinate :=
    add64 (readCoordinate st)
      (mul64 (rollingMultiplyTargetCube st) (add64 (mul64 c0Offset chunk) offset)) in
  let count := ax_arrayCount a in
  assert 261 (length0 <=? count) ;;
  let dim := ax_arrayDimension a in
  assert 262 (length0 <=? dim) ;;
  let '(lrc, lr) :=
    linear_run is_last count dim length0 (linearReadCount st) (linearRead st) in
  Returned {|
    rollingMultiply := mul64 (rollingMultiply st) nChunksInThisDimension;
    rollingMultiplyChunkLength := mul64 (rollingMultiplyChunkLength st) length0;
    rollingMultiplyTargetCube := mul64 (rollingMultiplyTargetCube st) dim;
    readCoordinate := readCoordinate;
    writeCoordinate := writeCoordinate st;
    linearReadCount := lrc;
    linearRead := lr;
    lengthLast := lengthLast |}.

Fixpoint start_axes (is_last : bool) (axes : list axis) (st : cursor)
    : outcome cursor :=
  match axes with
  | [] => Returned st
  | a :: axes' => st' ← start_axis is_last a st; start_axes false axes' st'
  end.

Definition step_axis (is_last is_first : bool) (a : axis) (st : cursor)
    : outcome (control * cursor) :=
  let chunk := ax_chunk a in
  let dim := ax_arrayDimension a in
  let offset := ax_arrayOffset a in
  let count := ax_arrayCount a in
  p ← div64 (readCoordinate st) (rollingMultiplyTargetCube st);
  p ← mod64 p dim;
  qPos ← div64 (sub64 p offset) chunk;
  let length0 := sub64 (min (mul64 (add64 qPos 1) chunk) count) (mul64 qPos chunk) in
  let readCoordinate := add64 (readCoordinate st) (rollingMultiplyTargetCube st) in
  let '(lrc, lr) :=
    linear_run is_last count dim length0 (linearReadCount st) (linearRead st) in
  p' ← div64 readCoordinate (rollingMultiplyTargetCube st);
  p' ← mod64 p' dim;
  q0 ← mod64 (sub64 p' offset) chunk;
  let moved := {|
    rollingMultiply := rollingMultiply st;
    rollingMultiplyChunkLength := rollingMultiplyChunkLength st;
    rollingMultiplyTargetCube := rollingMultiplyTargetCube st;
    readCoordinate := readCoordinate;
    writeCoordinate := writeCoordinate st;
    linearReadCount := lrc;
    linearRead := lr;
    lengthLast := lengthLast st |} in
  if negb (q0 =? 0) && negb (q0 =? length0) then Returned (Break, moved)
  else
    let wrapped := {|
      rollingMultiply := rollingMultiply st;
      rollingMultiplyChunkLength := rollingMultiplyChunkLength st;
      rollingMultiplyTargetCube := mul64 (rollingMultiplyTargetCube st) dim;
      readCoordinate := sub64 readCoordinate (mul64 length0 (rollingMultiplyTargetCube st));
      writeCoordinate := writeCoordinate st;
      linearReadCount := lrc;
      linearRead := lr;
      lengthLast := lengthLast st |} in
    Returned (if is_first then Return else NextDimension, wrapped).

(** The axis at the end of the list is dimension 0. *)
Fixpoint step_axes (is_last : bool) (axes : list axis) (st : cursor)
    : outcome (control * cursor) :=
  match axes with
  | [] => Returned (NextDimension, st)
  | a :: axes' =>
      r ← step_axis is_last (match axes' with [] => true | _ => false end) a st;
      match r with
      | (NextDimension, st') => step_axes false axes' st'
      | _ => Returned r
      end
  end.
End ByAxis.

(** A cursor after a step along one axis: the fields that the step writes. *)
Definition with_step (st : cursor) (rc rmtc : Z) (s : Z * bool) : cursor :=
  {| rollingMultiply := rollingMultiply st;
     rollingMultiplyChunkLength := rollingMultiplyChunkLength st;
     rollingMultiplyTargetCube := rmtc;
     readCoordinate := rc;
     writeCoordinate := writeCoordinate st;
     linearReadCount := fst s;
     linearRead := snd s;
     lengthLast := lengthLast st |}.

(** *** The chunk grid

    The number of chunks along each dimension of the file array. *)
Definition chunk_grid (encoder : OmEncoder_t) : list Z :=
  zip_with (fun d c => (d + c - 1) / c) (dimensions encoder) (chunks encoder).

(** The chunk coordinates read as one number, the innermost axis counting
    fastest. *)
Definition chunk_number (ps : list placed) : Z :=
  fold_right (fun (p : placed) n => pl_c0 p + chunks_along p * n) 0 ps.

End ChunkGather.

(* ===================================================================== *)
(** * Part II: properties *)
(* ===================================================================== *)

(** ** Facts about machine integers *)

Module MachIntFacts.
Import MachInt.

Lemma pow2_split (W : Z) : 0 < W -> 2 ^ W = 2 * 2 ^ (W - 1).
Proof.
  intros HW. replace W with (Z.succ (W - 1)) at 1 by lia.
  rewrite Z.pow_succ_r by lia. reflexivity.
Qed.

Lemma wrap_in_range (W x : Z) : 0 < W -> in_range W (wrap W x).
Proof.
  intros HW. unfold in_range, wrap.
  assert (H2 : 0 < 2 ^ (W - 1)) by (apply Z.pow_pos_nonneg; lia).
  pose proof (pow2_split W HW) as Hs.
  pose proof (Z.mod_pos_bound (x + 2 ^ (W - 1)) (2 ^ W)) as Hb.
  lia.
Qed.

Lemma wrap_small (W x : Z) : 0 < W -> in_range W x -> wrap W x = x.
Proof.
  intros HW Hx. unfold in_range in Hx. unfold wrap.
  pose proof (pow2_split W HW) as Hs.
  rewrite Z.mod_small by lia. lia.
Qed.

Lemma wrap_eqm (W x y : Z) :
  0 < W -> (x - y) mod 2 ^ W = 0 -> wrap W x = wrap W y.
Proof.
  intros HW Hxy. unfold wrap. f_equal.
  assert (H2 : 0 < 2 ^ W) by (apply Z.pow_pos_nonneg; lia).
  apply Z.mod_divide in Hxy; [|lia]. destruct Hxy as [k Hk].
  replace (x + 2 ^ (W - 1)) with (y + 2 ^ (W - 1) + k * 2 ^ W) by lia.
  apply Z.mod_add. lia.
Qed.

Lemma wrap_mod (W x : Z) : 0 < W -> (wrap W x - x) mod 2 ^ W = 0.
Proof.
  intros HW. unfold wrap.
  assert (H2 : 0 < 2 ^ W) by (apply Z.pow_pos_nonneg; lia).
  pose proof (Z.div_mod (x + 2 ^ (W - 1)) (2 ^ W)) as Hd.
  replace ((x + 2 ^ (W - 1)) mod 2 ^ W - 2 ^ (W - 1) - x)
    with (- ((x + 2 ^ (W - 1)) / 2 ^ W) * 2 ^ W) by lia.
  apply Z.mod_mul. lia.
Qed.

(** Subtracting a value and adding it back, both wrapping, is the identity
    on [intW_t]. *)
Lemma wrap_add_sub (W a b : Z) :
  0 < W -> in_range W a -> wrap W (wrap W (a - b) + b) = a.
Proof.
  intros HW Ha. rewrite <- (wrap_small W a HW Ha) at 2.
  apply wrap_eqm; [exact HW|].
  replace (wrap W (a - b) + b - a) with (wrap W (a - b) - (a - b)) by lia.
  apply wrap_mod. exact HW.
Qed.

Lemma wrap_of_mod (W x : Z) : 0 < W -> wrap W (x mod 2 ^ W) = wrap W x.
Proof.
  intros HW. apply wrap_eqm; [exact HW|].
  assert (H2 : 0 < 2 ^ W) by (apply Z.pow_pos_nonneg; lia).
  rewrite Zminus_mod_idemp_l, Z.sub_diag. apply Z.mod_0_l. lia.
Qed.

Lemma mod_of_wrap (W x : Z) : 0 < W -> wrap W x mod 2 ^ W = x mod 2 ^ W.
Proof.
  intros HW. pose proof (wrap_mod W x HW) as H.
  assert (H2 : 0 < 2 ^ W) by (apply Z.pow_pos_nonneg; lia).
  apply Z.mod_divide in H; [|lia]. destruct H as [k Hk].
  replace (wrap W x) with (x + k * 2 ^ W) by lia.
  apply Z.mod_add. lia.
Qed.

Lemma lxor_bound_nonneg (n a b : Z) :
  0 <= n -> 0 <= a < 2 ^ n -> 0 <= b < 2 ^ n -> 0 <= Z.lxor a b < 2 ^ n.
Proof.
  intros Hn Ha Hb.
  assert (H0 : 0 <= Z.lxor a b) by (apply Z.lxor_nonneg; lia).
  split; [exact H0|].
  destruct (Z.eq_dec (Z.lxor a b) 0) as [->|Hne].
  - apply Z.pow_pos_nonneg; lia.
  - assert (Hn' : 0 < n).
    { destruct (Z.eq_dec n 0) as [->|]; [|lia]. exfalso. apply Hne.
      change (2 ^ 0) with 1 in *.
      replace a with 0 by lia. replace b with 0 by lia. reflexivity. }
    apply Z.log2_lt_pow2; [lia|].
    pose proof (Z.log2_lxor a b ltac:(lia) ltac:(lia)) as Hl.
    assert (La : Z.log2 a < n).
    { destruct (Z.eq_dec a 0) as [->|]; [exact Hn'|apply Z.log2_lt_pow2; lia]. }
    assert (Lb : Z.log2 b < n).
    { destruct (Z.eq_dec b 0) as [->|]; [exact Hn'|apply Z.log2_lt_pow2; lia]. }
    lia.
Qed.

(** Bitwise exclusive or keeps the signed range. *)
Lemma lxor_in_range (W a b : Z) :
  0 < W -> in_range W a -> in_range W b -> in_range W (Z.lxor a b).
Proof.
  unfold in_range. intros HW Ha Hb.
  assert (Hn : 0 <= W - 1) by lia.
  destruct (Z_lt_le_dec a 0) as [Na|Pa]; destruct (Z_lt_le_dec b 0) as [Nb|Pb].
  - replace (Z.lxor a b) with (Z.lxor (Z.lnot a) (Z.lnot b))
      by (rewrite Z.lxor_lnot_lnot; reflexivity).
    pose proof (lxor_bound_nonneg (W - 1) (Z.lnot a) (Z.lnot b) Hn) as H.
    unfold Z.lnot in *. lia.
  - replace (Z.lxor a b) with (Z.lnot (Z.lxor (Z.lnot a) b))
      by (rewrite <- Z.lnot_lxor_l, Z.lnot_involutive; reflexivity).
    pose proof (lxor_bound_nonneg (W - 1) (Z.lnot a) b Hn) as H.
    unfold Z.lnot in *. lia.
  - replace (Z.lxor a b) with (Z.lnot (Z.lxor a (Z.lnot b)))
      by (rewrite <- Z.lnot_lxor_r, Z.lnot_involutive; reflexivity).
    pose proof (lxor_bound_nonneg (W - 1) a (Z.lnot b) Hn) as H.
    unfold Z.lnot in *. lia.
  - pose proof (lxor_bound_nonneg (W - 1) a b Hn) as H. lia.
Qed.

Lemma lxor_cancel (a b : Z) : Z.lxor (Z.lxor a b) b = a.
Proof. rewrite Z.lxor_assoc, Z.lxor_nilpotent, Z.lxor_0_r. reflexivity. Qed.

End MachIntFacts.

(** ** The predictor is inverted by its decoder *)

Module Delta2dFacts.
Import MachInt MachIntFacts Delta2d.
Local Open Scope nat_scope.

Section RowLoop.
Variable op : Z -> Z -> Z.

Lemma assign_length (buf : list Z) (dst src : nat) :
  length (assign op buf dst src) = length buf.
Proof. unfold assign. apply length_insert. Qed.

Lemma lookup_total_ext (a b : list Z) (k : nat) :
  a !! k = b !! k -> a !!! k = b !!! k.
Proof. intros H. rewrite !list_lookup_total_alt, H. reflexivity. Qed.

(** The first [n] iterations of the column loop of row [d0]: the cells
    [d0*length1 .. d0*length1 + n - 1] have been combined with the cell one
    row above, every other cell is as before. *)
Lemma row_prefix_lookup (length1 d0 n : nat) (buf : list Z) (k : nat) :
  1 <= d0 -> n <= length1 ->
  fold_left
    (fun b d1 => assign op b (d0 * length1 + d1) ((d0 - 1) * length1 + d1))
    (seq 0 n) buf !! k
  = if decide (d0 * length1 <= k < d0 * length1 + n)
    then (fun x => op x (buf !!! (k - length1))) <$> buf !! k
    else buf !! k.
Proof.
  intros Hd0. revert k. induction n as [|n IH]; intros k Hn.
  - simpl. case_decide; [lia|reflexivity].
  - rewrite seq_S, fold_left_app. simpl.
    set (b := fold_left _ (seq 0 n) buf) in *.
    assert (Hb : forall j, b !! j =
                if decide (d0 * length1 <= j < d0 * length1 + n)
                then (fun x => op x (buf !!! (j - length1))) <$> buf !! j
                else buf !! j) by (intros j; apply IH; lia).
    assert (Hlen : length b = length buf).
    { apply Nat.le_antisymm.
      - destruct (decide (length b <= length buf)) as [|Hgt]; [assumption|].
        assert (Hs : is_Some (b !! length buf)) by (apply lookup_lt_is_Some; lia).
        rewrite Hb in Hs. case_decide.
        + rewrite (lookup_ge_None_2 buf) in Hs by lia. destruct Hs as [? Hs]. discriminate.
        + rewrite (lookup_ge_None_2 buf) in Hs by lia. destruct Hs as [? Hs]. discriminate.
      - destruct (decide (length buf <= length b)) as [|Hgt]; [assumption|].
        assert (Hs : b !! length b = None) by (apply lookup_ge_None_2; lia).
        rewrite Hb in Hs.
        assert (Hs' : is_Some (buf !! length b)) by (apply lookup_lt_is_Some; lia).
        destruct Hs' as [x Hx]. rewrite Hx in Hs. case_decide; discriminate. }
    unfold assign.
    assert (Hsrc : (d0 - 1) * length1 + n = d0 * length1 + n - length1) by nia.
    destruct (decide (k = d0 * length1 + n)) as [->|Hk].
    + rewrite decide_True by lia.
      destruct (decide (d0 * length1 + n < length b)) as [Hin|Hout].
      * rewrite list_lookup_insert_eq by exact Hin.
        destruct (lookup_lt_is_Some_2 buf (d0 * length1 + n)) as [x Hx]; [lia|].
        rewrite Hx. simpl. f_equal.
        rewrite (lookup_total_ext b buf (d0 * length1 + n)).
        2:{ rewrite Hb, decide_False by lia. reflexivity. }
        rewrite (lookup_total_ext b buf ((d0 - 1) * length1 + n)).
        2:{ rewrite Hb, decide_False by nia. reflexivity. }
        rewrite (list_lookup_total_correct _ _ _ Hx), Hsrc. reflexivity.
      * rewrite list_insert_ge by lia.
        rewrite Hb, decide_False by lia.
        rewrite (lookup_ge_None_2 buf) by lia. reflexivity.
    + rewrite list_lookup_insert_ne by lia.
      rewrite Hb. repeat case_decide; try lia; reflexivity.
Qed.

Lemma row_loop_lookup (length1 d0 : nat) (buf : list Z) (k : nat) :
  1 <= d0 ->
  row_loop op length1 d0 buf !! k
  = if decide (d0 * length1 <= k < d0 * length1 + length1)
    then (fun x => op x (buf !!! (k - length1))) <$> buf !! k
    else buf !! k.
Proof. intros Hd0. unfold row_loop. apply row_prefix_lookup; lia. Qed.

Lemma row_loop_length (length1 d0 : nat) (buf : list Z) :
  1 <= d0 -> length (row_loop op length1 d0 buf) = length buf.
Proof.
  intros Hd0. apply Nat.le_antisymm.
  - destruct (decide (length (row_loop op length1 d0 buf) <= length buf)) as [|Hgt];
      [assumption|].
    assert (Hs : is_Some (row_loop op length1 d0 buf !! length buf))
      by (apply lookup_lt_is_Some; lia).
    rewrite row_loop_lookup in Hs by exact Hd0.
    rewrite (lookup_ge_None_2 buf) in Hs by lia.
    case_decide; destruct Hs as [? Hs]; discriminate.
  - destruct (decide (length buf <= length (row_loop op length1 d0 buf))) as [|Hgt];
      [assumption|].
    assert (Hs : row_loop op length1 d0 buf !! length (row_loop op length1 d0 buf) = None)
      by (apply lookup_ge_None_2; lia).
    rewrite row_loop_lookup in Hs by exact Hd0.
    destruct (lookup_lt_is_Some_2 buf (length (row_loop op length1 d0 buf))) as [x Hx];
      [lia|].
    rewrite Hx in Hs. case_decide; discriminate.
Qed.

End RowLoop.

(** A row step of the decoder undoes the same row step of the encoder, as
    soon as the two compound assignments cancel on the elements. *)
Section Inverse.
Variables (enc dec : Z -> Z -> Z) (P : Z -> Prop).
Hypothesis dec_enc : forall a b, P a -> dec (enc a b) b = a.
Hypothesis enc_P : forall a b, P a -> P b -> P (enc a b).

Lemma row_dec_enc (length1 d0 : nat) (buf : list Z) :
  1 <= d0 -> Forall P buf ->
  row_loop dec length1 d0 (row_loop enc length1 d0 buf) = buf.
Proof.
  intros Hd0 HP. apply list_eq. intros k.
  rewrite row_loop_lookup by exact Hd0.
  case_decide as Hk.
  - rewrite (lookup_total_ext (row_loop enc length1 d0 buf) buf (k - length1)).
    2:{ rewrite row_loop_lookup, decide_False by (exact Hd0 || nia). reflexivity. }
    rewrite row_loop_lookup, decide_True by (exact Hd0 || lia).
    destruct (buf !! k) as [x|] eqn:Hx; [|reflexivity].
    simpl. f_equal. apply dec_enc.
    rewrite Forall_lookup in HP. eapply HP, Hx.
  - rewrite row_loop_lookup, decide_False by (exact Hd0 || lia). reflexivity.
Qed.

Lemma row_enc_P (length1 d0 : nat) (buf : list Z) :
  1 <= d0 -> Forall P buf -> Forall P (row_loop enc length1 d0 buf).
Proof.
  intros Hd0 HP. rewrite Forall_lookup in HP. apply Forall_lookup.
  intros k y. rewrite row_loop_lookup by exact Hd0.
  case_decide as Hk.
  - destruct (buf !! k) as [x|] eqn:Hx; [|discriminate].
    simpl. intros [= <-].
    assert (Hlt : k < length buf) by (eapply lookup_lt_Some, Hx).
    destruct (lookup_lt_is_Some_2 buf (k - length1)) as [z Hz]; [lia|].
    rewrite (list_lookup_total_correct _ _ _ Hz).
    apply enc_P; [eapply HP, Hx | eapply HP, Hz].
  - apply HP.
Qed.

Lemma rows_dec_enc (length1 : nat) (rows : list nat) (buf : list Z) :
  Forall (fun d0 => 1 <= d0) rows -> Forall P buf ->
  fold_left (fun b d0 => row_loop dec length1 d0 b) rows
    (fold_left (fun b d0 => row_loop enc length1 d0 b) (rev rows) buf) = buf.
Proof.
  intros Hrows. revert buf. induction Hrows as [|d0 rows Hd0 Hrows IH]; intros buf HP.
  - reflexivity.
  - simpl. rewrite fold_left_app. simpl.
    rewrite row_dec_enc; [apply IH, HP | exact Hd0 |].
    clear IH. revert buf HP.
    induction rows as [|r rows IHr] using rev_ind; intros buf HP; [exact HP|].
    rewrite rev_app_distr. simpl.
    apply Forall_app in Hrows. destruct Hrows as [Hrows Hr].
    apply IHr; [exact Hrows|].
    apply row_enc_P; [|exact HP]. inversion Hr; assumption.
Qed.

Lemma loop_up_down (length0 length1 : nat) (buf : list Z) :
  Forall P buf ->
  loop_up dec length0 length1 (loop_down enc length0 length1 buf) = buf.
Proof.
  intros HP. unfold loop_up, loop_down.
  destruct (length0 <=? 1); [reflexivity|].
  apply rows_dec_enc; [|exact HP].
  apply Forall_forall. intros d0 Hin. apply elem_of_seq in Hin. lia.
Qed.

Lemma loop_down_P (length0 length1 : nat) (buf : list Z) :
  Forall P buf -> Forall P (loop_down enc length0 length1 buf).
Proof.
  intros HP. unfold loop_down. destruct (length0 <=? 1); [exact HP|].
  assert (Hrows : Forall (fun d0 => 1 <= d0) (rev (seq 1 (length0 - 1)))).
  { apply Forall_forall. intros d0 Hin.
    apply list_elem_of_In in Hin. apply in_rev, in_seq in Hin. lia. }
  revert buf HP. induction Hrows as [|d0 rows Hd0 _ IH]; intros buf HP; [exact HP|].
  simpl. apply IH, row_enc_P; assumption.
Qed.

Lemma loop_down_length (length0 length1 : nat) (buf : list Z) :
  length (loop_down enc length0 length1 buf) = length buf.
Proof.
  unfold loop_down. destruct (length0 <=? 1); [reflexivity|].
  assert (Hrows : Forall (fun d0 => 1 <= d0) (rev (seq 1 (length0 - 1)))).
  { apply Forall_forall. intros d0 Hin.
    apply list_elem_of_In in Hin. apply in_rev, in_seq in Hin. lia. }
  revert buf. induction Hrows as [|d0 rows Hd0 _ IH]; intros buf; [reflexivity|].
  simpl. rewrite IH. apply row_loop_length. exact Hd0.
Qed.

End Inverse.

(** *** The two views of a [double] buffer *)

Lemma ints_of_double (bo : byte_order) (d : Z) :
  is_u64 d ->
  match double_to_ints bo d with
  | [w0; w1] => ints_to_double bo w0 w1 = d
  | _ => False
  end.
Proof.
  unfold is_u64. intros Hd.
  assert (E : (((d / 2 ^ 32) mod 2 ^ 32) * 2 ^ 32 + (d mod 2 ^ 32) mod 2 ^ 32 = d)%Z).
  { rewrite Z.mod_mod by lia.
    rewrite (Z.mod_small (d / 2 ^ 32)).
    - pose proof (Z.div_mod d (2 ^ 32)). lia.
    - split; [apply Z.div_pos; lia|].
      apply Z.div_lt_upper_bound; [lia|].
      change (2 ^ 32 * 2 ^ 32)%Z with (2 ^ 64)%Z. lia. }
  destruct bo; cbn [double_to_ints ints_to_double];
    rewrite !mod_of_wrap by lia; exact E.
Qed.

Lemma double_of_ints (bo : byte_order) (w0 w1 : Z) :
  in_range 32 w0 -> in_range 32 w1 ->
  double_to_ints bo (ints_to_double bo w0 w1) = [w0; w1].
Proof.
  intros H0 H1.
  assert (E : forall lo hi : Z, in_range 32 lo -> in_range 32 hi ->
            let D := ((hi mod 2 ^ 32) * 2 ^ 32 + lo mod 2 ^ 32)%Z in
            wrap 32 (D mod 2 ^ 32) = lo /\ wrap 32 (D / 2 ^ 32) = hi).
  { intros lo hi Hlo Hhi D. subst D.
    pose proof (Z.mod_pos_bound lo (2 ^ 32) ltac:(lia)) as Bl.
    pose proof (Z.mod_pos_bound hi (2 ^ 32) ltac:(lia)) as Bh.
    split.
    - rewrite Z.add_comm, Z.mod_add, Z.mod_mod by lia.
      rewrite wrap_of_mod by lia. apply wrap_small; [lia|exact Hlo].
    - rewrite Z.div_add_l by lia. rewrite (Z.div_small (lo mod 2 ^ 32)) by lia.
      rewrite Z.add_0_r, wrap_of_mod by lia. apply wrap_small; [lia|exact Hhi]. }
  destruct bo; cbn [double_to_ints ints_to_double].
  - destruct (E w0 w1 H0 H1) as [-> ->]. reflexivity.
  - destruct (E w1 w0 H1 H0) as [-> ->]. reflexivity.
Qed.

Lemma double_view_int_view (bo : byte_order) (buf : list Z) :
  Forall is_u64 buf -> double_view bo (int_view bo buf) = buf.
Proof.
  induction 1 as [|d buf Hd _ IH]; [reflexivity|].
  unfold int_view in *. cbn [flat_map].
  pose proof (ints_of_double bo d Hd) as E.
  destruct (double_to_ints bo d) as [|w0 [|w1 [|? ?]]]; try contradiction.
  cbn [app double_view]. rewrite E, IH. reflexivity.
Qed.

Lemma int_view_range (bo : byte_order) (buf : list Z) :
  Forall (in_range 32) (int_view bo buf).
Proof.
  induction buf as [|d buf IH]; [constructor|].
  unfold int_view in *. cbn [flat_map].
  apply Forall_app. split; [|exact IH].
  destruct bo; cbn [double_to_ints];
    repeat constructor; apply wrap_in_range; lia.
Qed.

Lemma int_view_length (bo : byte_order) (buf : list Z) :
  length (int_view bo buf) = 2 * length buf.
Proof.
  induction buf as [|d buf IH]; [reflexivity|].
  unfold int_view in *. cbn [flat_map]. rewrite length_app, IH.
  destruct bo; cbn [double_to_ints length]; lia.
Qed.

Lemma int_view_double_view (bo : byte_order) (n : nat) (ws : list Z) :
  length ws = 2 * n -> Forall (in_range 32) ws ->
  int_view bo (double_view bo ws) = ws.
Proof.
  revert ws. induction n as [|n IH]; intros ws Hlen HP.
  - destruct ws; [reflexivity|discriminate].
  - destruct ws as [|w0 [|w1 ws]]; try (cbn in Hlen; lia).
    inversion HP as [|? ? H0 HP']; subst. inversion HP' as [|? ? H1 HP'']; subst.
    cbn [double_view]. unfold int_view in *. cbn [flat_map].
    rewrite double_of_ints by assumption.
    rewrite IH; [reflexivity| cbn in Hlen; lia | exact HP''].
Qed.

(** Round trip of the integer predictors, for any width. *)
Lemma integer_round_trip (W : Z) (length0 length1 : nat) (B : list Z) :
  (0 < W)%Z -> Forall (in_range W) B ->
  loop_up (add_assign W) length0 length1
    (loop_down (sub_assign W) length0 length1 B) = B.
Proof.
  intros HW HB. apply (loop_up_down _ _ (in_range W)); [| |exact HB].
  - intros a b Ha. unfold add_assign, sub_assign. apply wrap_add_sub; assumption.
  - intros a b _ _. unfold sub_assign. apply wrap_in_range. exact HW.
Qed.

Lemma xor_round_trip (length0 length1 : nat) (B : list Z) :
  loop_up xor_assign length0 length1 (loop_down xor_assign length0 length1 B) = B.
Proof.
  apply (loop_up_down _ _ (fun _ => True)).
  - intros a b _. apply lxor_cancel.
  - trivial.
  - apply Forall_forall. trivial.
Qed.

(** C2. For each of the six element types of [delta2d.c] (8, 16, 32 and
    64-bit integers, [float] and [double] through their XOR variants), every
    [length0] and [length1] and every buffer [B] of [length0 * length1]
    elements of that type, the decoder applied to the encoder's result gives
    [B] back exactly; the integer arithmetic wraps modulo [2^W]. *)
Theorem delta2d_decode_encode (length0 length1 : nat) :
  (forall B, length B = length0 * length1 -> Forall (in_range 8) B ->
     delta2d_decode8 length0 length1 (delta2d_encode8 length0 length1 B) = B) /\
  (forall B, length B = length0 * length1 -> Forall (in_range 16) B ->
     delta2d_decode16 length0 length1 (delta2d_encode16 length0 length1 B) = B) /\
  (forall B, length B = length0 * length1 -> Forall (in_range 32) B ->
     delta2d_decode32 length0 length1 (delta2d_encode32 length0 length1 B) = B) /\
  (forall B, length B = length0 * length1 -> Forall (in_range 64) B ->
     delta2d_decode64 length0 length1 (delta2d_encode64 length0 length1 B) = B) /\
  (forall B, length B = length0 * length1 -> Forall (in_range 32) B ->
     delta2d_decode_xor length0 length1 (delta2d_encode_xor length0 length1 B) = B) /\
  (forall bo B, length B = length0 * length1 -> Forall is_u64 B ->
     delta2d_decode_xor_double bo length0 length1
       (delta2d_encode_xor_double bo length0 length1 B) = B).
Proof.
  repeat split.
  - intros B _ HB. apply integer_round_trip; [lia|exact HB].
  - intros B _ HB. apply integer_round_trip; [lia|exact HB].
  - intros B _ HB. apply integer_round_trip; [lia|exact HB].
  - intros B _ HB. apply integer_round_trip; [lia|exact HB].
  - intros B _ _. apply xor_round_trip.
  - intros bo B _ HB.
    unfold delta2d_decode_xor_double, delta2d_encode_xor_double.
    rewrite (int_view_double_view bo (length B)).
    + rewrite xor_round_trip. apply double_view_int_view. exact HB.
    + rewrite (loop_down_length xor_assign). apply int_view_length.
    + apply (loop_down_P xor_assign (in_range 32)).
      * intros a b Ha Hb. apply lxor_in_range; [lia | exact Ha | exact Hb].
      * apply int_view_range.
Qed.

(** Scenario A of the specification: the [int16_t] chunk [[1,2,3],[4,6,8]]
    is encoded to [[1,2,3],[3,4,5]] and decoded back. *)
Lemma delta2d_decode_encode_witness :
  delta2d_encode16 2 3 [1; 2; 3; 4; 6; 8]%Z = [1; 2; 3; 3; 4; 5]%Z /\
  delta2d_decode16 2 3 (delta2d_encode16 2 3 [1; 2; 3; 4; 6; 8]%Z)
    = [1; 2; 3; 4; 6; 8]%Z.
Proof.
  split; [reflexivity|].
  apply (proj1 (proj2 (delta2d_decode_encode 2 3))).
  - reflexivity.
  - repeat constructor; unfold in_range; lia.
Defined.

(** C4. On the [double] buffer [[0.1], [2.0]] ([length0 = 2],
    [length1 = 1]) the encoder leaves the second row as it is and changes
    the first one: through [int* chunkBufferInt] it combines the two 32-bit
    halves of the first element.  The 64-bit row-wise XOR the specification
    describes would keep [0.1] and replace [2.0]. *)
Theorem delta2d_encode_xor_double_halves :
  delta2d_encode_xor_double LittleEndian 2 1
      [0x3FB999999999999A; 0x4000000000000000]%Z
    = [0xA62000039999999A; 0x4000000000000000]%Z /\
  delta2d_encode_xor_double BigEndian 2 1
      [0x3FB999999999999A; 0x4000000000000000]%Z
    = [0x3FB99999A6200003; 0x4000000000000000]%Z /\
  spec_xor2d_double 2 1 [0x3FB999999999999A; 0x4000000000000000]%Z
    = [0x3FB999999999999A; 0x7FB999999999999A]%Z.
Proof. repeat split; vm_compute; reflexivity. Qed.

(** *** The loops in closed form *)

Section Rows.
Variable op : Z -> Z -> Z.

Lemma rows_down_lookup (length1 r n : nat) (buf : list Z) (k : nat) :
  1 <= r ->
  fold_left (fun b d0 => row_loop op length1 d0 b) (rev (seq r n)) buf !! k
  = if decide (r * length1 <= k < (r + n) * length1)
    then (fun x => op x (buf !!! (k - length1))) <$> buf !! k
    else buf !! k.
Proof.
  intros Hr. revert buf k. induction n as [|n IH]; intros buf k.
  - simpl. case_decide; [lia|reflexivity].
  - rewrite seq_S, rev_app_distr. simpl.
    rewrite IH.
    assert (Hrow : forall j, row_loop op length1 (r + n) buf !! j
              = if decide ((r + n) * length1 <= j < (r + n) * length1 + length1)
                then (fun x => op x (buf !!! (j - length1))) <$> buf !! j
                else buf !! j)
      by (intros j; apply row_loop_lookup; lia).
    case_decide as Hk.
    + rewrite decide_True by lia.
      rewrite (Hrow k), decide_False by lia.
      rewrite (lookup_total_ext _ buf (k - length1)); [reflexivity|].
      rewrite Hrow, decide_False by lia. reflexivity.
    + rewrite Hrow. repeat case_decide; try lia; reflexivity.
Qed.

Lemma loop_down_predicted (length0 length1 : nat) (buf : list Z) :
  loop_down op length0 length1 buf = predicted op length0 length1 buf.
Proof.
  apply list_eq. intros k. unfold predicted. rewrite list_lookup_imap.
  unfold loop_down. destruct (Nat.leb_spec length0 1) as [Hle|Hgt].
  - destruct (buf !! k) as [x|]; [|reflexivity]. simpl.
    rewrite decide_False by nia. reflexivity.
  - rewrite rows_down_lookup by lia.
    replace ((1 + (length0 - 1)) * length1) with (length0 * length1) by (f_equal; lia).
    replace (1 * length1) with length1 by lia.
    destruct (buf !! k) as [x|]; simpl; case_decide; reflexivity.
Qed.

Lemma rows_up_length (length1 : nat) (rows : list nat) (buf : list Z) :
  Forall (fun d0 => 1 <= d0) rows ->
  length (fold_left (fun b d0 => row_loop op length1 d0 b) rows buf) = length buf.
Proof.
  intros Hrows. revert buf.
  induction Hrows as [|d0 rows Hd0 _ IH]; intros buf; [reflexivity|].
  simpl. rewrite IH. apply row_loop_length. exact Hd0.
Qed.

(** After the rows [1 .. n] of the ascending loop, the rows [0 .. n] hold
    the running combination down their column and the rows below are as
    before. *)
Lemma rows_up_lookup (length1 n : nat) (buf : list Z) :
  (n + 1) * length1 <= length buf ->
  forall k,
  fold_left (fun b d0 => row_loop op length1 d0 b) (seq 1 n) buf !! k
  = if decide (k < (n + 1) * length1 /\ 0 < length1)
    then Some (column_fold op length1 buf (k / length1) (k mod length1))
    else buf !! k.
Proof.
  induction n as [|n IH]; intros Hlen k.
  - simpl. case_decide as Hk; [|reflexivity].
    destruct Hk as [Hk Hl]. rewrite Nat.div_small, Nat.mod_small by lia.
    simpl. apply list_lookup_lookup_total_lt. lia.
  - rewrite seq_S, fold_left_app. simpl.
    set (b := fold_left _ (seq 1 n) buf) in *.
    assert (Hb : forall j, b !! j
              = if decide (j < (n + 1) * length1 /\ 0 < length1)
                then Some (column_fold op length1 buf (j / length1) (j mod length1))
                else buf !! j) by (apply IH; lia).
    rewrite row_loop_lookup by lia. rewrite Hb.
    destruct (decide ((1 + n) * length1 <= k < (1 + n) * length1 + length1))
      as [Hrow|Hrow]; repeat case_decide; try lia; try reflexivity.
    rewrite (list_lookup_lookup_total_lt buf k) by lia. simpl. f_equal.
    assert (Hq : k / length1 = S n).
    { symmetry. apply Nat.div_unique with (k - (1 + n) * length1); lia. }
    assert (Hm : k mod length1 = k - (1 + n) * length1).
    { symmetry. apply Nat.mod_unique with (S n); lia. }
    rewrite Hq, Hm. cbn [column_fold].
    replace (S n * length1 + (k - (1 + n) * length1)) with k by lia.
    f_equal.
    apply list_lookup_total_correct. rewrite Hb, decide_True by lia. f_equal.
    assert (Hq' : (k - length1) / length1 = n).
    { symmetry. apply Nat.div_unique with (k - (1 + n) * length1); lia. }
    assert (Hm' : (k - length1) mod length1 = k - (1 + n) * length1).
    { symmetry. apply Nat.mod_unique with n; lia. }
    rewrite Hq', Hm'. reflexivity.
Qed.

Lemma loop_up_lookup (length0 length1 : nat) (buf : list Z) (d0 d1 : nat) :
  length0 * length1 <= length buf -> d0 < length0 -> d1 < length1 ->
  loop_up op length0 length1 buf !! (d0 * length1 + d1)
  = Some (column_fold op length1 buf d0 d1).
Proof.
  intros Hlen H0 H1. unfold loop_up.
  destruct (Nat.leb_spec length0 1) as [Hle|Hgt].
  - assert (d0 = 0) by lia. subst d0. simpl.
    apply list_lookup_lookup_total_lt. nia.
  - rewrite rows_up_lookup by (replace (length0 - 1 + 1) with length0 by lia; lia).
    rewrite decide_True by nia.
    rewrite Nat.div_add_l, Nat.div_small, Nat.add_0_r by lia.
    rewrite Nat.add_comm, Nat.Div0.mod_add, Nat.mod_small by lia.
    reflexivity.
Qed.

End Rows.

Section RowsInvariant.
Variables (op : Z -> Z -> Z) (P : Z -> Prop).
Hypothesis op_P : forall a b, P a -> P b -> P (op a b).

Lemma rows_P (length1 : nat) (rows : list nat) (buf : list Z) :
  Forall (fun d0 => 1 <= d0) rows -> Forall P buf ->
  Forall P (fold_left (fun b d0 => row_loop op length1 d0 b) rows buf).
Proof.
  intros Hrows. revert buf.
  induction Hrows as [|d0 rows Hd0 _ IH]; intros buf HP; [exact HP|].
  simpl. apply IH. apply (row_enc_P op P op_P); assumption.
Qed.

Lemma loop_up_P (length0 length1 : nat) (buf : list Z) :
  Forall P buf -> Forall P (loop_up op length0 length1 buf).
Proof.
  intros HP. unfold loop_up. destruct (length0 <=? 1); [exact HP|].
  apply rows_P; [|exact HP].
  apply Forall_forall. intros d0 Hin. apply elem_of_seq in Hin. lia.
Qed.

End RowsInvariant.

Lemma loop_up_length (op : Z -> Z -> Z) (length0 length1 : nat) (buf : list Z) :
  length (loop_up op length0 length1 buf) = length buf.
Proof.
  unfold loop_up. destruct (length0 <=? 1); [reflexivity|].
  apply rows_up_length.
  apply Forall_forall. intros d0 Hin. apply elem_of_seq in Hin. lia.
Qed.

(** The encoder undoes the decoder as well. *)
Lemma loop_down_up (enc dec : Z -> Z -> Z) (P : Z -> Prop)
    (length0 length1 : nat) (buf : list Z) :
  (forall a b, P a -> enc (dec a b) b = a) ->
  (forall a b, P a -> P b -> P (dec a b)) ->
  Forall P buf ->
  loop_down enc length0 length1 (loop_up dec length0 length1 buf) = buf.
Proof.
  intros Hinv HP Hbuf. unfold loop_up, loop_down.
  destruct (length0 <=? 1); [reflexivity|].
  rewrite <- (rev_involutive (seq 1 (length0 - 1))) at 2.
  apply (rows_dec_enc dec enc P Hinv HP); [|exact Hbuf].
  apply Forall_forall. intros d0 Hin.
  apply list_elem_of_In in Hin. apply in_rev, in_seq in Hin. lia.
Qed.

Lemma wrap_sub_add (W a b : Z) :
  (0 < W)%Z -> in_range W a -> wrap W (wrap W (a + b) - b) = a.
Proof.
  intros HW Ha. rewrite <- (wrap_small W a HW Ha) at 2.
  apply wrap_eqm; [exact HW|].
  pose proof (wrap_mod W (a + b) HW) as H.
  replace (wrap W (a + b) - b - a)%Z with (wrap W (a + b) - (a + b))%Z by ring.
  exact H.
Qed.

Lemma integer_round_trip_back (W : Z) (length0 length1 : nat) (B : list Z) :
  (0 < W)%Z -> Forall (in_range W) B ->
  loop_down (sub_assign W) length0 length1
    (loop_up (add_assign W) length0 length1 B) = B.
Proof.
  intros HW HB. apply (loop_down_up _ _ (in_range W)); [| |exact HB].
  - intros a b Ha. unfold add_assign, sub_assign. apply wrap_sub_add; assumption.
  - intros a b _ _. unfold add_assign. apply wrap_in_range. exact HW.
Qed.

Lemma xor_round_trip_back (length0 length1 : nat) (B : list Z) :
  loop_down xor_assign length0 length1 (loop_up xor_assign length0 length1 B) = B.
Proof.
  apply (loop_down_up _ _ (fun _ => True)).
  - intros a b _. apply lxor_cancel.
  - trivial.
  - apply Forall_forall. trivial.
Qed.

(** X5. For each of the six element types of [delta2d.c], every [length0]
    and [length1] and every buffer [B] of [length0 * length1] elements of
    that type, the encoder applied to the decoder's result gives [B] back
    exactly: the two filters are inverse to each other in both orders. *)
Theorem delta2d_encode_decode (length0 length1 : nat) :
  (forall B, length B = length0 * length1 -> Forall (in_range 8) B ->
     delta2d_encode8 length0 length1 (delta2d_decode8 length0 length1 B) = B) /\
  (forall B, length B = length0 * length1 -> Forall (in_range 16) B ->
     delta2d_encode16 length0 length1 (delta2d_decode16 length0 length1 B) = B) /\
  (forall B, length B = length0 * length1 -> Forall (in_range 32) B ->
     delta2d_encode32 length0 length1 (delta2d_decode32 length0 length1 B) = B) /\
  (forall B, length B = length0 * length1 -> Forall (in_range 64) B ->
     delta2d_encode64 length0 length1 (delta2d_decode64 length0 length1 B) = B) /\
  (forall B, length B = length0 * length1 -> Forall (in_range 32) B ->
     delta2d_encode_xor length0 length1 (delta2d_decode_xor length0 length1 B) = B) /\
  (forall bo B, length B = length0 * length1 -> Forall is_u64 B ->
     delta2d_encode_xor_double bo length0 length1
       (delta2d_decode_xor_double bo length0 length1 B) = B).
Proof.
  split; [|split; [|split; [|split; [|split]]]].
  - intros B _ HB. apply integer_round_trip_back; [lia|exact HB].
  - intros B _ HB. apply integer_round_trip_back; [lia|exact HB].
  - intros B _ HB. apply integer_round_trip_back; [lia|exact HB].
  - intros B _ HB. apply integer_round_trip_back; [lia|exact HB].
  - intros B _ _. apply xor_round_trip_back.
  - intros bo B _ HB.
    unfold delta2d_decode_xor_double, delta2d_encode_xor_double.
    rewrite (int_view_double_view bo (length B)).
    + rewrite xor_round_trip_back. apply double_view_int_view. exact HB.
    + rewrite loop_up_length. apply int_view_length.
    + apply (loop_up_P xor_assign (in_range 32)).
      * intros a b Ha Hb. apply lxor_in_range; [lia | exact Ha | exact Hb].
      * apply int_view_range.
Qed.

Lemma wrap_add_wrap (W x y : Z) :
  (0 < W)%Z -> wrap W (x + wrap W y) = wrap W (x + y).
Proof.
  intros HW. apply wrap_eqm; [exact HW|].
  replace (x + wrap W y - (x + y))%Z with (wrap W y - y)%Z by ring.
  apply wrap_mod. exact HW.
Qed.

Lemma column_fold_sum (W : Z) (length1 : nat) (buf : list Z) (d0 d1 : nat) :
  (0 < W)%Z -> in_range W (buf !!! d1) ->
  column_fold (add_assign W) length1 buf d0 d1
  = wrap W (column_sum length1 buf d0 d1).
Proof.
  intros HW H0. induction d0 as [|r IH].
  - simpl. symmetry. apply wrap_small; assumption.
  - cbn [column_fold column_sum]. rewrite IH. unfold add_assign.
    apply wrap_add_wrap. exact HW.
Qed.

Lemma decode_sums (W : Z) (length0 length1 : nat) (B : list Z) (d0 d1 : nat) :
  (0 < W)%Z -> length0 * length1 <= length B -> Forall (in_range W) B ->
  d0 < length0 -> d1 < length1 ->
  loop_up (add_assign W) length0 length1 B !! (d0 * length1 + d1)
  = Some (wrap W (column_sum length1 B d0 d1)).
Proof.
  intros HW Hlen HB H0 H1. rewrite loop_up_lookup by assumption.
  rewrite (column_fold_sum W); [reflexivity|exact HW|].
  rewrite Forall_lookup in HB. apply (HB d1).
  apply list_lookup_lookup_total_lt. nia.
Qed.

(** X4. On a buffer that holds the [length0 * length1] elements of the
    chunk, an integer decoder leaves at the row [d0] and the column [d1]
    the sum of the elements of that column from the row 0 to the row [d0],
    reduced to the element type; [delta2d_decode_xor] leaves the XOR of
    these elements. *)
Theorem delta2d_decode_column_sums (length0 length1 : nat) (B : list Z)
    (d0 d1 : nat) :
  length0 * length1 <= length B -> d0 < length0 -> d1 < length1 ->
  (Forall (in_range 8) B ->
   delta2d_decode8 length0 length1 B !! (d0 * length1 + d1)
   = Some (wrap 8 (column_sum length1 B d0 d1))) /\
  (Forall (in_range 16) B ->
   delta2d_decode16 length0 length1 B !! (d0 * length1 + d1)
   = Some (wrap 16 (column_sum length1 B d0 d1))) /\
  (Forall (in_range 32) B ->
   delta2d_decode32 length0 length1 B !! (d0 * length1 + d1)
   = Some (wrap 32 (column_sum length1 B d0 d1))) /\
  (Forall (in_range 64) B ->
   delta2d_decode64 length0 length1 B !! (d0 * length1 + d1)
   = Some (wrap 64 (column_sum length1 B d0 d1))) /\
  delta2d_decode_xor length0 length1 B !! (d0 * length1 + d1)
  = Some (column_fold Z.lxor length1 B d0 d1).
Proof.
  intros Hlen H0 H1.
  split; [|split; [|split; [|split]]].
  - intros HB. apply decode_sums; (lia || assumption).
  - intros HB. apply decode_sums; (lia || assumption).
  - intros HB. apply decode_sums; (lia || assumption).
  - intros HB. apply decode_sums; (lia || assumption).
  - apply (loop_up_lookup xor_assign); assumption.
Qed.

(** Three rows of three [int8_t]: the column 1 adds up to 106, the
    column 2 to 108. *)
Lemma delta2d_decode_column_sums_witness :
  column_sum 3 [1; 2; 3; 3; 4; 5; 100; 100; 100]%Z 2 1 = 106%Z /\
  delta2d_decode8 3 3 [1; 2; 3; 3; 4; 5; 100; 100; 100]%Z !! 7 = Some 106%Z /\
  column_sum 3 [1; 2; 3; 3; 4; 5; 100; 100; 100]%Z 2 2 = 108%Z /\
  delta2d_decode8 3 3 [1; 2; 3; 3; 4; 5; 100; 100; 100]%Z !! 8 = Some (wrap 8 108).
Proof.
  assert (HB : Forall (in_range 8) [1; 2; 3; 3; 4; 5; 100; 100; 100]%Z)
    by (repeat constructor; unfold in_range; lia).
  split; [reflexivity|]. split.
  - apply (proj1 (delta2d_decode_column_sums 3 3
                    [1; 2; 3; 3; 4; 5; 100; 100; 100]%Z 2 1
                    ltac:(simpl; lia) ltac:(lia) ltac:(lia)) HB).
  - split; [reflexivity|].
    apply (proj1 (delta2d_decode_column_sums 3 3
                    [1; 2; 3; 3; 4; 5; 100; 100; 100]%Z 2 2
                    ltac:(simpl; lia) ltac:(lia) ltac:(lia)) HB).
Defined.

(** X3. On a buffer that holds the [length0 * length1] elements of the
    chunk, an encoder replaces every element of the rows [1 .. length0-1]
    by its difference (its XOR, for [delta2d_encode_xor]) with the element
    one row above as it was before the call, reduced to the element type;
    the first row and the elements past the chunk are not changed.  This
    covers [length0 <= 1], where nothing is changed. *)
Theorem delta2d_encode_differences (length0 length1 : nat) (B : list Z) :
  length0 * length1 <= length B ->
  delta2d_encode8 length0 length1 B
    = predicted (fun x above => wrap 8 (x - above)) length0 length1 B /\
  delta2d_encode16 length0 length1 B
    = predicted (fun x above => wrap 16 (x - above)) length0 length1 B /\
  delta2d_encode32 length0 length1 B
    = predicted (fun x above => wrap 32 (x - above)) length0 length1 B /\
  delta2d_encode64 length0 length1 B
    = predicted (fun x above => wrap 64 (x - above)) length0 length1 B /\
  delta2d_encode_xor length0 length1 B
    = predicted Z.lxor length0 length1 B.
Proof.
  intros _. repeat split; apply loop_down_predicted.
Qed.

(** Three rows of two [int8_t] and one element past the chunk:
    [-100 - 100] wraps to 56, [100 - (-100)] to -56. *)
Lemma delta2d_encode_differences_witness :
  delta2d_encode8 3 2 [100; -100; -100; 100; 7; 7; 9]%Z
  = [100; -100; 56; -56; 107; -93; 9]%Z.
Proof.
  rewrite (proj1 (delta2d_encode_differences 3 2
                    [100; -100; -100; 100; 7; 7; 9]%Z ltac:(simpl; lia))).
  vm_compute. reflexivity.
Defined.

(** An [int16_t] chunk of two rows, decoded and encoded again. *)
Lemma delta2d_encode_decode_witness :
  delta2d_decode16 2 3 [1; 2; 3; 3; 4; 5]%Z = [1; 2; 3; 4; 6; 8]%Z /\
  delta2d_encode16 2 3 (delta2d_decode16 2 3 [1; 2; 3; 3; 4; 5]%Z)
    = [1; 2; 3; 3; 4; 5]%Z.
Proof.
  split; [reflexivity|].
  apply (proj1 (proj2 (delta2d_encode_decode 2 3))).
  - reflexivity.
  - repeat constructor; unfold in_range; lia.
Defined.

Lemma double_view_lookup (bo : byte_order) (ws : list Z) (k : nat) :
  double_view bo ws !! k
  = match ws !! (2 * k), ws !! (2 * k + 1) with
    | Some w0, Some w1 => Some (ints_to_double bo w0 w1)
    | _, _ => None
    end.
Proof.
  revert ws. induction k as [|k IH]; intros ws.
  - destruct ws as [|w0 [|w1 ws]]; reflexivity.
  - destruct ws as [|w0 [|w1 ws]]; try reflexivity.
    cbn [double_view]. rewrite lookup_cons_ne_0 by lia. cbn [Nat.pred].
    rewrite IH.
    replace (2 * S k) with (S (S (2 * k))) by lia.
    replace (S (S (2 * k)) + 1) with (S (S (2 * k + 1))) by lia.
    reflexivity.
Qed.

Lemma double_view_ext (bo : byte_order) (ws ws' : list Z) (k : nat) :
  ws !! (2 * k) = ws' !! (2 * k) -> ws !! (2 * k + 1) = ws' !! (2 * k + 1) ->
  double_view bo ws !! k = double_view bo ws' !! k.
Proof. intros E0 E1. rewrite !double_view_lookup, E0, E1. reflexivity. Qed.

Lemma loop_up_outside (op : Z -> Z -> Z) (length0 length1 : nat)
    (buf : list Z) (k : nat) :
  length0 * length1 <= length buf -> length0 * length1 <= k ->
  loop_up op length0 length1 buf !! k = buf !! k.
Proof.
  intros Hlen Hk. unfold loop_up.
  destruct (Nat.leb_spec length0 1) as [Hle|Hgt]; [reflexivity|].
  rewrite rows_up_lookup by (replace (length0 - 1 + 1) with length0 by lia; lia).
  rewrite decide_False; [reflexivity|].
  replace (length0 - 1 + 1) with length0 by lia. lia.
Qed.

Lemma loop_down_outside (op : Z -> Z -> Z) (length0 length1 : nat)
    (buf : list Z) (k : nat) :
  length0 * length1 <= k ->
  loop_down op length0 length1 buf !! k = buf !! k.
Proof.
  intros Hk. rewrite loop_down_predicted. unfold predicted.
  rewrite list_lookup_imap. destruct (buf !! k) as [x|]; [|reflexivity].
  simpl. rewrite decide_False by lia. reflexivity.
Qed.

(** X6. [delta2d_encode_xor_double] and [delta2d_decode_xor_double] walk
    over [length0 * length1] elements of the [int] view of their [double]
    buffer, which is the first half of the buffer: the element [k] of a
    buffer of [length0 * length1] doubles is not changed when
    [2 * k >= length0 * length1]. *)
Theorem delta2d_xor_double_upper_half (bo : byte_order)
    (length0 length1 : nat) (B : list Z) (k : nat) :
  length B = length0 * length1 -> Forall is_u64 B ->
  length0 * length1 <= 2 * k ->
  delta2d_encode_xor_double bo length0 length1 B !! k = B !! k /\
  delta2d_decode_xor_double bo length0 length1 B !! k = B !! k.
Proof.
  intros Hlen HB Hk.
  pose proof (int_view_length bo B) as Hl.
  unfold delta2d_encode_xor_double, delta2d_decode_xor_double. split.
  - rewrite <- (double_view_int_view bo B HB) at 2.
    apply double_view_ext; apply loop_down_outside; lia.
  - rewrite <- (double_view_int_view bo B HB) at 2.
    apply double_view_ext; apply loop_up_outside; lia.
Qed.

(** Two rows of two doubles: the second row is not changed. *)
Lemma delta2d_xor_double_upper_half_witness :
  delta2d_encode_xor_double LittleEndian 2 2 [1; 2; 3; 4]%Z !! 2 = Some 3%Z /\
  delta2d_encode_xor_double LittleEndian 2 2 [1; 2; 3; 4]%Z !! 3 = Some 4%Z.
Proof.
  assert (HB : Forall is_u64 [1; 2; 3; 4]%Z)
    by (repeat constructor; unfold is_u64; lia).
  split.
  - apply (proj1 (delta2d_xor_double_upper_half LittleEndian 2 2
                    [1; 2; 3; 4]%Z 2 eq_refl HB ltac:(lia))).
  - apply (proj1 (delta2d_xor_double_upper_half LittleEndian 2 2
                    [1; 2; 3; 4]%Z 3 eq_refl HB ltac:(lia))).
Defined.

End Delta2dFacts.

(** ** Facts about om_common.c *)

Module OmCommonFacts.
Import MachInt IEEE OmCommon.

(** *** The element loop *)
Section ElementLoop.
Context {A B : Type} (body : A -> option B).
Local Open Scope nat_scope.

(** A call with a result has written [body (src[k])] to [dst[k]] for the
    [n] indices from [i] on, and nothing else. *)
Lemma element_loop_result (n i : nat) (src : list A) (dst out : list B) :
  element_loop body n i src dst = Some out ->
  length out = length dst /\
  (forall k, i <= k < i + n ->
     exists v r, src !! k = Some v /\ body v = Some r /\ out !! k = Some r) /\
  (forall k, ~ (i <= k < i + n) -> out !! k = dst !! k).
Proof.
  revert i dst. induction n as [|n IH]; intros i dst H; simpl in H.
  - injection H as <-. split; [reflexivity|]. split; [intros k Hk; lia|reflexivity].
  - destruct (src !! i) as [val|] eqn:Hsrc; [|discriminate].
    destruct (body val) as [r|] eqn:Hbody; [|discriminate].
    case_decide as Hi; [|discriminate].
    destruct (IH _ _ H) as (Hlen & Hin & Hout).
    rewrite length_insert in Hlen.
    split; [exact Hlen|]. split.
    + intros k Hk. destruct (decide (k = i)) as [->|Hne].
      * exists val, r. repeat split; [assumption..|].
        rewrite Hout by lia. apply list_lookup_insert_eq. exact Hi.
      * apply Hin. lia.
    + intros k Hk. rewrite Hout by lia. apply list_lookup_insert_ne. lia.
Qed.

(** A call has a result as soon as both buffers hold the elements it
    touches and the body has a result on each element read. *)
Lemma element_loop_total (n i : nat) (src : list A) (dst : list B) :
  i + n <= length src -> i + n <= length dst ->
  (forall k v, i <= k < i + n -> src !! k = Some v -> is_Some (body v)) ->
  is_Some (element_loop body n i src dst).
Proof.
  revert i dst. induction n as [|n IH]; intros i dst Hs Hd Hb; simpl.
  - eexists. reflexivity.
  - destruct (lookup_lt_is_Some_2 src i) as [val Hval]; [lia|].
    rewrite Hval. destruct (Hb i val ltac:(lia) Hval) as [r Hr]. rewrite Hr.
    rewrite decide_True by lia.
    apply IH; [lia | rewrite length_insert; lia |].
    intros k v Hk. apply Hb. lia.
Qed.

End ElementLoop.

(** *** Comparison of floating-point values *)

Lemma SFcompare_antisym (x y : spec_float) :
  SFcompare y x = option_map CompOpp (SFcompare x y).
Proof.
  destruct x as [sx|sx| |sx mx ex], y as [sy|sy| |sy my ey]; simpl;
    try reflexivity;
    try (destruct sx; reflexivity); try (destruct sy; reflexivity);
    try (destruct sx, sy; reflexivity).
  destruct sx, sy; simpl; try reflexivity; f_equal;
    rewrite (Z.compare_antisym ex ey);
    destruct (ex ?= ey)%Z; simpl; try reflexivity;
    rewrite (Pos.compare_cont_antisym mx my Eq); simpl;
    try rewrite CompOpp_involutive; reflexivity.
Qed.

(** [fminf(c, r)] is [c] when [c <= r]. *)
Lemma fmin_le (c r : spec_float) : SFleb c r = true -> fmin c r = c.
Proof.
  unfold SFleb. intros H.
  destruct (SFcompare c r) as [cmp|] eqn:E; [|discriminate].
  assert (Hr : SFltb r c = false).
  { unfold SFltb. rewrite (SFcompare_antisym c r), E.
    destruct cmp; [reflexivity | reflexivity | discriminate H]. }
  destruct c, r; cbn in E; try discriminate E;
    unfold fmin; rewrite ?Hr; reflexivity.
Qed.

(** *** NaN and the sentinel *)

Section Sentinel.
Local Open Scope nat_scope.

(** A quantiser whose body sends NaN to [M]: a call on buffers that hold
    [n] elements, all of which convert, has a result, and the result holds
    [M] wherever the source holds NaN. *)
Lemma quantiser_nan (body : spec_float -> option Z) (M : Z) (n : nat)
    (src : list spec_float) (dst : list Z) :
  (forall v, isnan v = true -> body v = Some M) ->
  n <= length src -> n <= length dst -> converts body n src ->
  exists out, element_loop body n 0 src dst = Some out /\
    forall k v, k < n -> src !! k = Some v -> isnan v = true ->
                out !! k = Some M.
Proof.
  intros HM Hs Hd Hc.
  destruct (element_loop_total body n 0 src dst) as [out Hout]; [lia|lia| |].
  { intros k v Hk. apply Hc. lia. }
  exists out. split; [exact Hout|].
  intros k v Hk Hv Hnan.
  destruct (element_loop_result body n 0 src dst out Hout) as (_ & Hin & _).
  destruct (Hin k ltac:(lia)) as (v' & r & Hv' & Hr & Hk').
  rewrite Hv in Hv'. injection Hv' as <-.
  rewrite (HM v Hnan) in Hr. injection Hr as <-. exact Hk'.
Qed.

(** A dequantiser whose body sends [M] to NaN. *)
Lemma dequantiser_sentinel (body : Z -> spec_float) (M : Z) (n : nat)
    (src : list Z) (dst : list spec_float) :
  body M = NAN ->
  n <= length src -> n <= length dst ->
  exists out, element_loop (fun v => Some (body v)) n 0 src dst = Some out /\
    forall k, k < n -> src !! k = Some M -> out !! k = Some NAN.
Proof.
  intros HM Hs Hd.
  destruct (element_loop_total (fun v => Some (body v)) n 0 src dst)
    as [out Hout]; [lia|lia| |].
  { intros k v _ _. eexists. reflexivity. }
  exists out. split; [exact Hout|].
  intros k Hk Hv.
  destruct (element_loop_result _ n 0 src dst out Hout) as (_ & Hin & _).
  destruct (Hin k ltac:(lia)) as (v' & r & Hv' & Hr & Hk').
  rewrite Hv in Hv'. injection Hv' as <-.
  injection Hr as <-. rewrite Hk', HM. reflexivity.
Qed.

End Sentinel.

Lemma isnan_true (v : spec_float) : isnan v = true -> v = NAN.
Proof. destruct v; simpl; intros H; try discriminate; reflexivity. Qed.

(** C6. Every quantiser sends a NaN element to the sentinel of its integer
    type and every dequantiser sends that sentinel to NaN, for every
    [length], [scale_factor] and [add_offset]: in the body of each loop, and
    so in the buffers that a call leaves whenever the buffers hold [length]
    elements and the elements converted have a defined conversion. *)
Theorem nan_sentinel (log10f : spec_float -> spec_float)
    (powf : spec_float -> spec_float -> spec_float)
    (length : Z) (scale_factor add_offset : spec_float) :
  let n := Z.to_nat length in
  (* the bodies *)
  (float_to_int16 scale_factor add_offset NAN = Some INT16_MAX /\
   float_to_int32 scale_factor add_offset NAN = Some INT32_MAX /\
   double_to_int64 scale_factor add_offset NAN = Some INT64_MAX /\
   float_to_int16_log10 log10f scale_factor add_offset NAN = Some INT16_MAX /\
   int16_to_float scale_factor add_offset INT16_MAX = NAN /\
   int32_to_float scale_factor add_offset INT32_MAX = NAN /\
   int64_to_double scale_factor add_offset INT64_MAX = NAN /\
   int16_to_float_log10 powf scale_factor add_offset INT16_MAX = NAN) /\
  (* the quantisers on buffers *)
  (forall src dst,
     (n <= List.length src)%nat -> (n <= List.length dst)%nat ->
     converts (float_to_int16 scale_factor add_offset) n src ->
     exists out,
       om_common_copy_float_to_int16 length scale_factor add_offset src dst
         = Some out /\
       forall k v, (k < n)%nat -> src !! k = Some v -> isnan v = true ->
                   out !! k = Some INT16_MAX) /\
  (forall src dst,
     (n <= List.length src)%nat -> (n <= List.length dst)%nat ->
     converts (float_to_int32 scale_factor add_offset) n src ->
     exists out,
       om_common_copy_float_to_int32 length scale_factor add_offset src dst
         = Some out /\
       forall k v, (k < n)%nat -> src !! k = Some v -> isnan v = true ->
                   out !! k = Some INT32_MAX) /\
  (forall src dst,
     (n <= List.length src)%nat -> (n <= List.length dst)%nat ->
     converts (double_to_int64 scale_factor add_offset) n src ->
     exists out,
       om_common_copy_double_to_int64 length scale_factor add_offset src dst
         = Some out /\
       forall k v, (k < n)%nat -> src !! k = Some v -> isnan v = true ->
                   out !! k = Some INT64_MAX) /\
  (forall src dst,
     (n <= List.length src)%nat -> (n <= List.length dst)%nat ->
     converts (float_to_int16_log10 log10f scale_factor add_offset) n src ->
     exists out,
       om_common_copy_float_to_int16_log10 log10f length scale_factor
         add_offset src dst = Some out /\
       forall k v, (k < n)%nat -> src !! k = Some v -> isnan v = true ->
                   out !! k = Some INT16_MAX) /\
  (* the dequantisers on buffers *)
  (forall src dst,
     (n <= List.length src)%nat -> (n <= List.length dst)%nat ->
     exists out,
       om_common_copy_int16_to_float length scale_factor add_offset src dst
         = Some out /\
       forall k, (k < n)%nat -> src !! k = Some INT16_MAX ->
                 out !! k = Some NAN) /\
  (forall src dst,
     (n <= List.length src)%nat -> (n <= List.length dst)%nat ->
     exists out,
       om_common_copy_int32_to_float length scale_factor add_offset src dst
         = Some out /\
       forall k, (k < n)%nat -> src !! k = Some INT32_MAX ->
                 out !! k = Some NAN) /\
  (forall src dst,
     (n <= List.length src)%nat -> (n <= List.length dst)%nat ->
     exists out,
       om_common_copy_int64_to_double length scale_factor add_offset src dst
         = Some out /\
       forall k, (k < n)%nat -> src !! k = Some INT64_MAX ->
                 out !! k = Some NAN) /\
  (forall src dst,
     (n <= List.length src)%nat -> (n <= List.length dst)%nat ->
     exists out,
       om_common_copy_int16_to_float_log10 powf length scale_factor add_offset
         src dst = Some out /\
       forall k, (k < n)%nat -> src !! k = Some INT16_MAX ->
                 out !! k = Some NAN).
Proof.
  intros n.
  assert (Q16 : forall v, isnan v = true ->
                  float_to_int16 scale_factor add_offset v = Some INT16_MAX).
  { intros v Hv. unfold float_to_int16. rewrite Hv. reflexivity. }
  assert (Q32 : forall v, isnan v = true ->
                  float_to_int32 scale_factor add_offset v = Some INT32_MAX).
  { intros v Hv. unfold float_to_int32. rewrite Hv. reflexivity. }
  assert (Q64 : forall v, isnan v = true ->
                  double_to_int64 scale_factor add_offset v = Some INT64_MAX).
  { intros v Hv. unfold double_to_int64. rewrite Hv. reflexivity. }
  assert (QL : forall v, isnan v = true ->
                 float_to_int16_log10 log10f scale_factor add_offset v
                   = Some INT16_MAX).
  { intros v Hv. unfold float_to_int16_log10. rewrite Hv. reflexivity. }
  split; [repeat split; reflexivity|].
  split; [intros src dst; apply quantiser_nan; exact Q16|].
  split; [intros src dst; apply quantiser_nan; exact Q32|].
  split; [intros src dst; apply quantiser_nan; exact Q64|].
  split; [intros src dst; apply quantiser_nan; exact QL|].
  split; [intros src dst; apply (dequantiser_sentinel _ INT16_MAX); reflexivity|].
  split; [intros src dst; apply (dequantiser_sentinel _ INT32_MAX); reflexivity|].
  split; [intros src dst; apply (dequantiser_sentinel _ INT64_MAX); reflexivity|].
  intros src dst. apply (dequantiser_sentinel _ INT16_MAX). reflexivity.
Qed.

(** Scenario B of the specification, first row: with [scale_factor = 10]
    and [add_offset = 0] the [float]s [NaN, 0.0, 0.1, 0.2] are quantised to
    [32767, 0, 1, 2], and the call that C6 speaks of has a result. *)
Lemma nan_sentinel_witness :
  om_common_copy_float_to_int16 4 (of_int binary32 10) (S754_zero false)
    [NAN; S754_zero false; S754_finite false 13421773 (-27);
     S754_finite false 13421773 (-26)] [0; 0; 0; 0]
    = Some [32767; 0; 1; 2] /\
  exists out,
    om_common_copy_float_to_int16 4 (of_int binary32 10) (S754_zero false)
      [NAN; S754_zero false; S754_finite false 13421773 (-27);
       S754_finite false 13421773 (-26)] [0; 0; 0; 0] = Some out /\
    forall k v, (k < 4)%nat ->
      [NAN; S754_zero false; S754_finite false 13421773 (-27);
       S754_finite false 13421773 (-26)] !! k = Some v ->
      isnan v = true -> out !! k = Some INT16_MAX.
Proof.
  split; [vm_compute; reflexivity|].
  apply (proj1 (proj2 (nan_sentinel (fun x => x) (fun x _ => x) 4
                         (of_int binary32 10) (S754_zero false)))).
  - simpl. lia.
  - simpl. lia.
  - intros k v Hk Hv.
    destruct k as [|[|[|[|k]]]]; try (exfalso; simpl in Hk; lia);
      injection Hv as <-; vm_compute; eexists; reflexivity.
Defined.

(** C7. Neither function of the logarithmic pair looks at [add_offset]: with
    any two values of it a call gives the same result.  A call of the
    quantiser on buffers that hold [length] elements leaves, for every [x]
    among the first [length] elements of [src] that is not NaN,
    [round(log10(1 + x) * scale_factor)] clamped to the range of [int16_t]
    at the place of [x] in [dst] (the conversion of the clamped value to
    [int16_t] being defined), and [INT16_MAX] at the place of a NaN; a call
    of the dequantiser leaves [10^(q / scale_factor) - 1] at the place of
    every [q] other than the sentinel, and NaN at the place of the sentinel.
    Both leave the elements of [dst] from [length] on as they were. *)
Theorem log10_ignores_add_offset (log10f : spec_float -> spec_float)
    (powf : spec_float -> spec_float -> spec_float)
    (length : Z) (scale_factor add_offset add_offset' : spec_float) :
  let n := Z.to_nat length in
  let quantised (x : spec_float) :=
    to_int 16
      (fmax (of_int binary32 INT16_MIN)
         (fmin (of_int binary32 INT16_MAX)
            (round binary32
               (mul binary32 (log10f (add binary32 (of_int binary32 1) x))
                  scale_factor)))) in
  let dequantised (q : Z) :=
    sub binary32
      (powf (of_int binary32 10)
         (div binary32 (of_int binary32 q) scale_factor))
      (of_int binary32 1) in
  (* any two values of [add_offset] *)
  (forall src dst,
     om_common_copy_float_to_int16_log10 log10f length scale_factor add_offset
       src dst
     = om_common_copy_float_to_int16_log10 log10f length scale_factor
         add_offset' src dst) /\
  (forall src dst,
     om_common_copy_int16_to_float_log10 powf length scale_factor add_offset
       src dst
     = om_common_copy_int16_to_float_log10 powf length scale_factor
         add_offset' src dst) /\
  (* the quantiser on buffers *)
  (forall src dst,
     (n <= List.length src)%nat -> (n <= List.length dst)%nat ->
     (forall k x, (k < n)%nat -> src !! k = Some x -> isnan x = false ->
                  is_Some (quantised x)) ->
     exists out,
       om_common_copy_float_to_int16_log10 log10f length scale_factor
         add_offset src dst = Some out /\
       List.length out = List.length dst /\
       (forall k x, (k < n)%nat -> src !! k = Some x -> isnan x = false ->
                    out !! k = quantised x) /\
       (forall k x, (k < n)%nat -> src !! k = Some x -> isnan x = true ->
                    out !! k = Some INT16_MAX) /\
       (forall k, (n <= k)%nat -> out !! k = dst !! k)) /\
  (* the dequantiser on buffers *)
  (forall src dst,
     (n <= List.length src)%nat -> (n <= List.length dst)%nat ->
     exists out,
       om_common_copy_int16_to_float_log10 powf length scale_factor add_offset
         src dst = Some out /\
       List.length out = List.length dst /\
       (forall k q, (k < n)%nat -> src !! k = Some q -> q <> INT16_MAX ->
                    out !! k = Some (dequantised q)) /\
       (forall k, (k < n)%nat -> src !! k = Some INT16_MAX ->
                  out !! k = Some NAN) /\
       (forall k, (n <= k)%nat -> out !! k = dst !! k)).
Proof.
  intros n quantised dequantised.
  split; [reflexivity|]. split; [reflexivity|]. split.
  - intros src dst Hs Hd Hdef.
    unfold om_common_copy_float_to_int16_log10. fold n.
    set (body := float_to_int16_log10 log10f scale_factor add_offset).
    assert (Hnan : forall x, isnan x = true -> body x = Some INT16_MAX).
    { intros x Hx. unfold body, float_to_int16_log10. rewrite Hx. reflexivity. }
    assert (Hnum : forall x, isnan x = false -> body x = quantised x).
    { intros x Hx. unfold body, float_to_int16_log10. rewrite Hx. reflexivity. }
    destruct (element_loop_total body n 0 src dst) as [out Hout]; [lia|lia| |].
    { intros k x Hk Hx. destruct (isnan x) eqn:E.
      - rewrite (Hnan x E). eexists. reflexivity.
      - rewrite (Hnum x E). apply (Hdef k x); [lia|exact Hx|exact E]. }
    exists out. split; [exact Hout|].
    destruct (element_loop_result body n 0 src dst out Hout) as (Hlen & Hin & Hrest).
    split; [exact Hlen|]. split; [|split].
    + intros k x Hk Hx E. destruct (Hin k ltac:(lia)) as (v & r & Hv & Hr & Hk').
      rewrite Hx in Hv. injection Hv as <-. rewrite <- (Hnum x E), Hr. exact Hk'.
    + intros k x Hk Hx E. destruct (Hin k ltac:(lia)) as (v & r & Hv & Hr & Hk').
      rewrite Hx in Hv. injection Hv as <-. rewrite <- (Hnan x E), Hr. exact Hk'.
    + intros k Hk. apply Hrest. lia.
  - intros src dst Hs Hd.
    unfold om_common_copy_int16_to_float_log10. fold n.
    set (body := fun val => Some (int16_to_float_log10 powf scale_factor add_offset val)).
    destruct (element_loop_total body n 0 src dst) as [out Hout]; [lia|lia| |].
    { intros k x _ _. eexists. reflexivity. }
    exists out. split; [exact Hout|].
    destruct (element_loop_result body n 0 src dst out Hout) as (Hlen & Hin & Hrest).
    split; [exact Hlen|]. split; [|split].
    + intros k q Hk Hq Hne. destruct (Hin k ltac:(lia)) as (v & r & Hv & Hr & Hk').
      rewrite Hq in Hv. injection Hv as <-. rewrite Hk'. rewrite <- Hr.
      unfold body, int16_to_float_log10.
      destruct (Z.eqb_spec q INT16_MAX) as [->|_]; [contradiction|reflexivity].
    + intros k Hk Hq. destruct (Hin k ltac:(lia)) as (v & r & Hv & Hr & Hk').
      rewrite Hq in Hv. injection Hv as <-. rewrite Hk', <- Hr. reflexivity.
    + intros k Hk. apply Hrest. lia.
Qed.

(** Three elements through the pair, with stand-ins for the two library
    functions ([log10f x = x], [powf x y = y]): the buffers hold
    [round((1 + x) * scale_factor)] and [q / scale_factor - 1], NaN and the
    sentinel apart, and the element past [length] stays; another
    [add_offset] gives the same buffers. *)
Lemma log10_ignores_add_offset_witness :
  let src := [of_int binary32 9; NAN; of_int binary32 1] in
  let codes := [200; 32767; 3] in
  (* the quantiser, with two values of [add_offset] *)
  om_common_copy_float_to_int16_log10 (fun x => x) 2 (of_int binary32 100)
    (of_int binary32 7) src [0; 0; 5] = Some [1000; 32767; 5] /\
  om_common_copy_float_to_int16_log10 (fun x => x) 2 (of_int binary32 100)
    (S754_zero false) src [0; 0; 5] = Some [1000; 32767; 5] /\
  (exists out,
     om_common_copy_float_to_int16_log10 (fun x => x) 2 (of_int binary32 100)
       (of_int binary32 7) src [0; 0; 5] = Some out /\
     out !! 0%nat
     = to_int 16
         (fmax (of_int binary32 INT16_MIN)
            (fmin (of_int binary32 INT16_MAX)
               (round binary32
                  (mul binary32
                     (add binary32 (of_int binary32 1) (of_int binary32 9))
                     (of_int binary32 100))))) /\
     out !! 1%nat = Some INT16_MAX /\ out !! 2%nat = Some 5) /\
  (* the dequantiser, with two values of [add_offset] *)
  om_common_copy_int16_to_float_log10 (fun x y => y) 2 (of_int binary32 100)
    (of_int binary32 7) codes [NAN; NAN; S754_zero false]
    = Some [of_int binary32 1; NAN; S754_zero false] /\
  om_common_copy_int16_to_float_log10 (fun x y => y) 2 (of_int binary32 100)
    (S754_zero false) codes [NAN; NAN; S754_zero false]
    = Some [of_int binary32 1; NAN; S754_zero false] /\
  (exists out,
     om_common_copy_int16_to_float_log10 (fun x y => y) 2 (of_int binary32 100)
       (of_int binary32 7) codes [NAN; NAN; S754_zero false] = Some out /\
     out !! 0%nat
     = Some (sub binary32
               (div binary32 (of_int binary32 200) (of_int binary32 100))
               (of_int binary32 1)) /\
     out !! 1%nat = Some NAN /\ out !! 2%nat = Some (S754_zero false)).
Proof.
  intros src codes.
  pose proof (log10_ignores_add_offset (fun x => x) (fun x y => y) 2
                (of_int binary32 100) (of_int binary32 7) (S754_zero false))
    as (Hq & Hd & Hqb & Hdb).
  split; [vm_compute; reflexivity|].
  split; [rewrite <- Hq; vm_compute; reflexivity|].
  split.
  { destruct (Hqb src [0; 0; 5]) as (out & Hout & _ & Hnum & Hnan & Hrest).
    - simpl. lia.
    - simpl. lia.
    - intros k x Hk Hx _.
      destruct k as [|[|k]]; try (exfalso; simpl in Hk; lia);
        injection Hx as <-; vm_compute; eexists; reflexivity.
    - exists out. split; [exact Hout|]. split; [|split].
      + apply (Hnum 0%nat); [simpl; lia|reflexivity|reflexivity].
      + apply (Hnan 1%nat NAN); [simpl; lia|reflexivity|reflexivity].
      + rewrite (Hrest 2%nat) by (simpl; lia). reflexivity. }
  split; [vm_compute; reflexivity|].
  split; [rewrite <- Hd; vm_compute; reflexivity|].
  destruct (Hdb codes [NAN; NAN; S754_zero false])
    as (out & Hout & _ & Hnum & Hsent & Hrest).
  - simpl. lia.
  - simpl. lia.
  - exists out. split; [exact Hout|]. split; [|split].
    + apply (Hnum 0%nat 200); [simpl; lia|reflexivity|unfold INT16_MAX; lia].
    + apply (Hsent 1%nat); [simpl; lia|reflexivity].
    + rewrite (Hrest 2%nat) by (simpl; lia). reflexivity.
Defined.

(** C9. A value [x] that is not NaN and whose scaled and rounded value is at
    least [(float)INT16_MAX] is quantised to [INT16_MAX], the sentinel, which
    the dequantiser reads as NaN.  On the 32-bit and the 64-bit path the
    bound of the clamp is [(float)INT32_MAX = 2^31] and
    [(double)INT64_MAX = 2^63]: a value that reaches it is clamped to a
    number that [int32_t] (or [int64_t]) does not hold, and the conversion
    has no defined result. *)
Theorem saturation_and_sentinel (scale_factor add_offset x : spec_float) :
  isnan x = false ->
  (SFleb (of_int binary32 INT16_MAX)
     (round binary32 (add binary32 (mul binary32 x scale_factor) add_offset))
   = true ->
   float_to_int16 scale_factor add_offset x = Some INT16_MAX /\
   int16_to_float scale_factor add_offset INT16_MAX = NAN) /\
  (SFleb (of_int binary32 INT32_MAX)
     (round binary32 (add binary32 (mul binary32 x scale_factor) add_offset))
   = true ->
   float_to_int32 scale_factor add_offset x = None) /\
  (SFleb (of_int binary64 INT64_MAX)
     (round binary64
        (add binary64 (mul binary64 x (to_double scale_factor))
           (to_double add_offset)))
   = true ->
   double_to_int64 scale_factor add_offset x = None).
Proof.
  intros Hx. repeat split.
  - unfold float_to_int16. rewrite Hx, fmin_le by assumption.
    vm_compute. reflexivity.
  - intros H. unfold float_to_int32. rewrite Hx, fmin_le by assumption.
    vm_compute. reflexivity.
  - intros H. unfold double_to_int64. rewrite Hx, fmin_le by assumption.
    vm_compute. reflexivity.
Qed.

(** [x = 3e9], [scale_factor = 1], [add_offset = 0]: [INT16_MAX] on the
    16-bit path, no defined result on the 32-bit path. *)
Lemma saturation_and_sentinel_witness :
  float_to_int16 (of_int binary32 1) (S754_zero false)
    (of_int binary32 3000000000) = Some INT16_MAX /\
  float_to_int32 (of_int binary32 1) (S754_zero false)
    (of_int binary32 3000000000) = None /\
  double_to_int64 (of_int binary32 1) (S754_zero false)
    (of_int binary64 (10 ^ 19)) = None.
Proof.
  pose proof (saturation_and_sentinel (of_int binary32 1) (S754_zero false)
                (of_int binary32 3000000000) eq_refl) as (H16 & H32 & _).
  pose proof (saturation_and_sentinel (of_int binary32 1) (S754_zero false)
                (of_int binary64 (10 ^ 19)) eq_refl) as (_ & _ & H64).
  split; [apply H16; vm_compute; reflexivity|].
  split; [apply H32; vm_compute; reflexivity|].
  apply H64. vm_compute. reflexivity.
Defined.

(** *** The error messages *)

(** X21. [om_error_string] gives every member of [OmError_t] a message of
    its own, none of them empty: the message tells which error it was. *)
Theorem om_error_string_injective (error error' : OmError_t) :
  (om_error_string error = om_error_string error' <-> error = error') /\
  om_error_string error <> String.EmptyString.
Proof.
  split; [split|].
  - destruct error, error'; intros H; try reflexivity; discriminate H.
  - intros ->. reflexivity.
  - destruct error; discriminate.
Qed.

End OmCommonFacts.

(** ** Facts about om_encoder.c *)

Module OmEncoderFacts.
Import MachInt IEEE OmCommon OmEncoder.

(** *** [om_encoder_init] *)

Lemma payload_array_type_cases (data_type : OmDataType_t) :
  payload_array_type data_type <-> 13 <= data_type <= 22.
Proof. unfold payload_array_type. simpl. lia. Qed.

Lemma known_compression_cases (compression : OmCompression_t) :
  known_compression compression <-> 0 <= compression <= 3.
Proof. unfold known_compression. simpl. lia. Qed.

(** The [default] of the first [switch]. *)
Lemma init_data_type_default (encoder : OmEncoder_t) (data_type : OmDataType_t) :
  ~ payload_array_type data_type -> init_data_type encoder data_type = None.
Proof.
  rewrite payload_array_type_cases. intros H. unfold init_data_type.
  destruct data_type as [|p|p]; try reflexivity.
  repeat (destruct p as [p|p|]; try reflexivity); lia.
Qed.

(** The [default] of the second [switch]. *)
Lemma init_compression_default (encoder : OmEncoder_t)
    (compression : OmCompression_t) (data_type : OmDataType_t) :
  ~ known_compression compression ->
  init_compression encoder compression data_type
  = (ERROR_INVALID_COMPRESSION_TYPE, encoder).
Proof.
  rewrite known_compression_cases. intros H. unfold init_compression.
  destruct compression as [|p|p]; try reflexivity; try lia.
  repeat (destruct p as [p|p|]; try reflexivity); lia.
Qed.

Lemma classic_payload (data_type : OmDataType_t) :
  payload_array_type data_type \/ ~ payload_array_type data_type.
Proof. rewrite payload_array_type_cases. lia. Qed.

Lemma classic_known (compression : OmCompression_t) :
  known_compression compression \/ ~ known_compression compression.
Proof. rewrite known_compression_cases. lia. Qed.

Ltac each_data_type H :=
  apply payload_array_type_cases in H;
  match type of H with
  | 13 <= ?dt <= 22 =>
      let C := fresh "C" in
      assert (dt = 13 \/ dt = 14 \/ dt = 15 \/ dt = 16 \/ dt = 17 \/ dt = 18
              \/ dt = 19 \/ dt = 20 \/ dt = 21 \/ dt = 22) as C by lia;
      clear H;
      destruct C as [->|[->|[->|[->|[->|[->|[->|[->|[->| ->]]]]]]]]]
  end.

Ltac each_compression H :=
  apply known_compression_cases in H;
  match type of H with
  | 0 <= ?c <= 3 =>
      let C := fresh "C" in
      assert (c = 0 \/ c = 1 \/ c = 2 \/ c = 3) as C by lia;
      clear H;
      destruct C as [->|[->|[->| ->]]]
  end.

(** C8 (as amended). [om_encoder_init] returns [ERROR_INVALID_DATA_TYPE]
    exactly when the data type is not a payload array type or does not go
    with the compression ([PforDelta2D_Int16] and [PforDelta2D_Int16_Log]
    with anything but [FloatArray], [FpxXor2D] with anything but
    [FloatArray] and [DoubleArray]); it returns
    [ERROR_INVALID_COMPRESSION_TYPE] when the compression is none of the
    four and the data type is a payload array type; and it returns
    [ERROR_OK] for every pair that goes together. *)
Theorem om_encoder_init_errors (encoder : OmEncoder_t)
    (scale_factor add_offset : spec_float)
    (compression : OmCompression_t) (data_type : OmDataType_t)
    (dimensions chunks : list Z) (dimension_count : Z) :
  let error :=
    fst (om_encoder_init encoder scale_factor add_offset compression data_type
           dimensions chunks dimension_count) in
  (error = ERROR_INVALID_DATA_TYPE <->
   ~ payload_array_type data_type \/ incompatible data_type compression) /\
  (payload_array_type data_type -> ~ known_compression compression ->
   error = ERROR_INVALID_COMPRESSION_TYPE) /\
  (payload_array_type data_type -> known_compression compression ->
   ~ incompatible data_type compression -> error = ERROR_OK).
Proof.
  intros error. subst error. unfold om_encoder_init.
  set (enc := set_parameters _ _ _ _ _ _).
  destruct (classic_payload data_type) as [Hp|Hp].
  2:{ rewrite (init_data_type_default _ _ Hp). simpl.
      split; [split; [intros _; left; exact Hp|reflexivity]|].
      split; intros Hp'; contradiction. }
  destruct (classic_known compression) as [Hk|Hk].
  2:{ assert (E : exists enc', init_data_type enc data_type = Some enc').
      { each_data_type Hp; eexists; reflexivity. }
      destruct E as [enc' ->]. rewrite (init_compression_default _ _ _ Hk). simpl.
      split; [split; [discriminate|]|].
      - intros [Hn|Hi]; [contradiction|]. exfalso. apply Hk.
        apply known_compression_cases. unfold incompatible in Hi. lia.
      - split; [reflexivity|]. intros _ Hk'. contradiction. }
  pose proof Hp as Hp0. pose proof Hk as Hk0.
  each_data_type Hp; each_compression Hk; simpl; (split; [split|split]).
  all: try (intros HE; first [discriminate HE | right; unfold incompatible; lia]).
  all: try (intros [Hn|Hi];
            [contradiction
            | first [reflexivity | exfalso; unfold incompatible in Hi; lia]]).
  all: try (intros _ Hk'; contradiction).
  all: intros _ _ Hi;
       first [reflexivity | exfalso; apply Hi; unfold incompatible; lia].
Qed.

(** The three parts of C8 at one input each: [Int16Array] with
    [PforDelta2D_Int16] is refused for its data type, [Int16Array] with the
    unknown compression 4 for its compression, and [Int16Array] with
    [PforDelta2D] is accepted. *)
Lemma om_encoder_init_errors_witness :
  fst (om_encoder_init zeroed (S754_zero false) (S754_zero false)
         COMPRESSION_PFOR_DELTA2D_INT16 DATA_TYPE_INT16_ARRAY [4] [2] 1)
    = ERROR_INVALID_DATA_TYPE /\
  fst (om_encoder_init zeroed (S754_zero false) (S754_zero false)
         4 DATA_TYPE_INT16_ARRAY [4] [2] 1)
    = ERROR_INVALID_COMPRESSION_TYPE /\
  fst (om_encoder_init zeroed (S754_zero false) (S754_zero false)
         COMPRESSION_PFOR_DELTA2D DATA_TYPE_INT16_ARRAY [4] [2] 1)
    = ERROR_OK.
Proof.
  split; [|split].
  - apply (proj1 (om_encoder_init_errors zeroed (S754_zero false)
                    (S754_zero false) COMPRESSION_PFOR_DELTA2D_INT16
                    DATA_TYPE_INT16_ARRAY [4] [2] 1)).
    right. unfold incompatible. lia.
  - apply (proj1 (proj2 (om_encoder_init_errors zeroed (S754_zero false)
                           (S754_zero false) 4 DATA_TYPE_INT16_ARRAY [4] [2] 1))).
    + apply payload_array_type_cases. lia.
    + rewrite known_compression_cases. lia.
  - apply (proj2 (proj2 (om_encoder_init_errors zeroed (S754_zero false)
                           (S754_zero false) COMPRESSION_PFOR_DELTA2D
                           DATA_TYPE_INT16_ARRAY [4] [2] 1))).
    + apply payload_array_type_cases. lia.
    + apply known_compression_cases. lia.
    + unfold incompatible. lia.
Defined.

(** C8 as stated fails where both arguments are bad: with the data type
    [DATA_TYPE_NONE] and the unknown compression 4 the first [switch]
    returns [ERROR_INVALID_DATA_TYPE] before the compression is looked at. *)
Lemma om_encoder_init_unknown_compression_counterexample :
  (known_compression 4 -> False) /\
  fst (om_encoder_init zeroed (S754_zero false) (S754_zero false)
         4 DATA_TYPE_NONE [4] [2] 1)
    = ERROR_INVALID_DATA_TYPE /\
  ERROR_INVALID_DATA_TYPE <> ERROR_INVALID_COMPRESSION_TYPE.
Proof.
  split; [rewrite known_compression_cases; lia|].
  split; [reflexivity|discriminate].
Qed.

(** C10. Whatever [om_encoder_init] returns, and so also when it returns
    an error, the record holds the [scale_factor], [add_offset],
    [dimensions], [chunks] and [dimension_count] of the call; when it
    returns [ERROR_INVALID_COMPRESSION_TYPE] the record also holds the
    element sizes and the copy function of the data type. *)
Theorem om_encoder_init_not_atomic (encoder : OmEncoder_t)
    (sf ao : spec_float)
    (compression : OmCompression_t) (data_type : OmDataType_t)
    (dims chks : list Z) (count : Z) :
  let r := om_encoder_init encoder sf ao compression data_type dims chks count in
  (scale_factor (snd r) = sf /\ add_offset (snd r) = ao /\
   dimensions (snd r) = dims /\ chunks (snd r) = chks /\
   dimension_count (snd r) = count) /\
  (fst r = ERROR_INVALID_COMPRESSION_TYPE ->
   exists width callback,
     In (data_type, (width, callback)) first_switch_writes /\
     bytes_per_element (snd r) = width /\
     bytes_per_element_compressed (snd r) = width /\
     compress_copy_callback (snd r) = callback).
Proof.
  intros r. subst r. unfold om_encoder_init.
  set (enc := set_parameters _ _ _ _ _ _).
  destruct (classic_payload data_type) as [Hp|Hp].
  2:{ rewrite (init_data_type_default _ _ Hp). simpl.
      split; [repeat split|discriminate]. }
  destruct (classic_known compression) as [Hk|Hk].
  - each_data_type Hp; each_compression Hk; simpl;
      (split; [repeat split|discriminate]).
  - each_data_type Hp; simpl; rewrite (init_compression_default _ _ _ Hk); simpl;
      (split; [repeat split|]); intros _; do 2 eexists;
      (split; [|repeat split]); simpl; tauto.
Qed.

(** An error, and a record that is no longer the one passed in. *)
Lemma om_encoder_init_not_atomic_witness :
  let r := om_encoder_init zeroed (of_int binary32 10) (S754_zero false)
             4 DATA_TYPE_FLOAT_ARRAY [4; 4] [2; 2] 2 in
  fst r = ERROR_INVALID_COMPRESSION_TYPE /\
  dimension_count (snd r) = 2 /\ dimension_count zeroed = 0 /\
  exists width callback,
    In (DATA_TYPE_FLOAT_ARRAY, (width, callback)) first_switch_writes /\
    bytes_per_element (snd r) = width /\
    bytes_per_element_compressed (snd r) = width /\
    compress_copy_callback (snd r) = callback.
Proof.
  split; [reflexivity|]. split; [reflexivity|]. split; [reflexivity|].
  apply (proj2 (om_encoder_init_not_atomic zeroed (of_int binary32 10)
                  (S754_zero false) 4 DATA_TYPE_FLOAT_ARRAY [4; 4] [2; 2] 2)).
  reflexivity.
Defined.

(** *** The copy stage of the 64-bit integer types *)

(** C3. For [Int64Array] and [UInt64Array] with [PforDelta2D],
    [om_encoder_init] succeeds and sets both element sizes to 8, but the
    copy function it installs is [om_common_copy32]: called for one element
    it moves the first 4 of the element's 8 bytes and leaves the other 4
    bytes of the chunk buffer as they were, where [om_common_copy64] moves
    all 8.  In a chunk of two elements the gather loop so copies the first
    element only. *)
Theorem int64_copy_stage_is_copy32 (encoder : OmEncoder_t)
    (sf ao : spec_float) (dims chks : list Z) (count : Z) :
  let signed := om_encoder_init encoder sf ao COMPRESSION_PFOR_DELTA2D
                  DATA_TYPE_INT64_ARRAY dims chks count in
  let unsigned := om_encoder_init encoder sf ao COMPRESSION_PFOR_DELTA2D
                    DATA_TYPE_UINT64_ARRAY dims chks count in
  (fst signed = ERROR_OK /\
   bytes_per_element (snd signed) = 8 /\
   bytes_per_element_compressed (snd signed) = 8 /\
   compress_copy_callback (snd signed) = ptr_om_common_copy32) /\
  (fst unsigned = ERROR_OK /\
   bytes_per_element (snd unsigned) = 8 /\
   bytes_per_element_compressed (snd unsigned) = 8 /\
   compress_copy_callback (snd unsigned) = ptr_om_common_copy32) /\
  om_common_copy32 1 sf ao [1; 2; 3; 4; 5; 6; 7; 8] [0; 0; 0; 0; 0; 0; 0; 0]
    = Some [1; 2; 3; 4; 0; 0; 0; 0] /\
  om_common_copy64 1 sf ao [1; 2; 3; 4; 5; 6; 7; 8] [0; 0; 0; 0; 0; 0; 0; 0]
    = Some [1; 2; 3; 4; 5; 6; 7; 8] /\
  gathered
    (snd (om_encoder_init encoder sf ao COMPRESSION_PFOR_DELTA2D
            DATA_TYPE_INT64_ARRAY [2] [2] 1))
    [1; 2; 3; 4; 5; 6; 7; 8; 9; 10; 11; 12; 13; 14; 15; 16] [2] [0] [2] 0 0
    [0; 0; 0; 0; 0; 0; 0; 0; 0; 0; 0; 0; 0; 0; 0; 0] 1
    = Returned [1; 2; 3; 4; 5; 6; 7; 8; 0; 0; 0; 0; 0; 0; 0; 0].
Proof.
  intros signed unsigned. subst signed unsigned.
  repeat split; vm_compute; reflexivity.
Qed.

(** *** The gather loop at the upper edge of the source array *)

(** C5. A file array of 4 elements in one chunk, written from the elements
    6..9 of a source array of 10 elements ([arrayOffset = 6],
    [arrayCount = 4], [arrayDimensions = 10], so the sub-region ends where
    the source array ends).  After the first copy the cursor stands at
    [10 % 10 = 0]; [0 - arrayOffset] wraps around, [q0] is
    [(2^64 - 6) % 4 = 2], the loop does not see the end of the chunk, and
    the [assert] of line 282 fails in the second iteration. *)
Theorem compress_chunk_assertion_fires (fuel : nat) :
  om_encoder_compress_chunk
    (snd (om_encoder_init zeroed (S754_zero false) (S754_zero false)
            COMPRESSION_PFOR_DELTA2D DATA_TYPE_UINT8_ARRAY [4] [4] 1))
    [10] [6] [4] 0 0 (S (S fuel))
  = AssertionFailed 282.
Proof. vm_compute. reflexivity. Qed.

(** C1. A file array of 2 x 3 [uint8_t] in one chunk, written from the
    columns 3..5 of a 2 x 6 source array whose element [k] holds [k].  The
    call returns, no [assert] fails, and the chunk buffer holds
    [3 4 5 6 7 8]: the second row was read from the columns 0..2.  The same
    chunk from the stand-alone 2 x 3 array of the same elements is
    [3 4 5 9 10 11]. *)
Theorem gather_wrong_at_upper_edge :
  let encoder :=
    snd (om_encoder_init zeroed (S754_zero false) (S754_zero false)
           COMPRESSION_PFOR_DELTA2D DATA_TYPE_UINT8_ARRAY [2; 3] [2; 3] 2) in
  gathered encoder [0; 1; 2; 3; 4; 5; 6; 7; 8; 9; 10; 11]
    [2; 6] [0; 3] [2; 3] 0 0 [0; 0; 0; 0; 0; 0] 2
    = Returned [3; 4; 5; 6; 7; 8] /\
  gathered encoder [3; 4; 5; 9; 10; 11]
    [2; 3] [0; 0] [2; 3] 0 0 [0; 0; 0; 0; 0; 0] 1
    = Returned [3; 4; 5; 9; 10; 11].
Proof. split; vm_compute; reflexivity. Qed.

(** *** [om_get_element_size] *)

Lemma om_get_element_size_data_type (data_type : OmDataType_t)
    (compression : OmCompression_t) (size : OmElementSize_t) :
  ~ payload_array_type data_type ->
  om_get_element_size data_type compression size
  = (ERROR_INVALID_DATA_TYPE, size).
Proof.
  rewrite payload_array_type_cases. intros H. unfold om_get_element_size.
  destruct data_type as [|p|p]; try reflexivity.
  repeat (destruct p as [p|p|]; try reflexivity); lia.
Qed.

Lemma om_get_element_size_compression (data_type : OmDataType_t)
    (compression : OmCompression_t) (size : OmElementSize_t) :
  payload_array_type data_type -> ~ known_compression compression ->
  fst (om_get_element_size data_type compression size)
  = ERROR_INVALID_COMPRESSION_TYPE.
Proof.
  intros Hp. rewrite known_compression_cases. intros H.
  unfold om_get_element_size.
  each_data_type Hp; cbv iota beta zeta;
    (destruct compression as [|p|p]; try reflexivity; try lia;
     repeat (destruct p as [p|p|]; try reflexivity); lia).
Qed.

(** X9. [om_get_element_size] and [om_encoder_init] return the same
    error code for every data type and compression but one kind of pair:
    [FpxXor2D] with an integer array type, which [om_get_element_size]
    accepts and [om_encoder_init] refuses with [ERROR_INVALID_DATA_TYPE].
    Where [om_encoder_init] succeeds, the two element sizes that
    [om_get_element_size] reports are those of the encoder. *)
Theorem om_get_element_size_and_init (encoder : OmEncoder_t)
    (scale_factor add_offset : spec_float)
    (compression : OmCompression_t) (data_type : OmDataType_t)
    (dimensions chunks : list Z) (dimension_count : Z)
    (size : OmElementSize_t) :
  let r := om_encoder_init encoder scale_factor add_offset compression
             data_type dimensions chunks dimension_count in
  let s := om_get_element_size data_type compression size in
  let xor_of_integers :=
    compression = COMPRESSION_FPX_XOR2D /\ payload_array_type data_type /\
    data_type <> DATA_TYPE_FLOAT_ARRAY /\ data_type <> DATA_TYPE_DOUBLE_ARRAY in
  (xor_of_integers -> fst s = ERROR_OK /\ fst r = ERROR_INVALID_DATA_TYPE) /\
  (~ xor_of_integers -> fst s = fst r) /\
  (fst r = ERROR_OK ->
   size_bytes_per_element (snd s) = bytes_per_element (snd r) /\
   size_bytes_per_element_compressed (snd s)
     = bytes_per_element_compressed (snd r)).
Proof.
  intros r s xor_of_integers. subst r s xor_of_integers.
  unfold om_encoder_init.
  set (enc := set_parameters _ _ _ _ _ _).
  destruct (classic_payload data_type) as [Hp|Hp].
  2:{ rewrite (init_data_type_default _ _ Hp).
      rewrite (om_get_element_size_data_type _ _ _ Hp). simpl.
      split; [intros (_ & Hp' & _); contradiction|].
      split; [reflexivity|discriminate]. }
  destruct (classic_known compression) as [Hk|Hk].
  2:{ rewrite (om_get_element_size_compression _ _ _ Hp Hk).
      assert (E : exists enc', init_data_type enc data_type = Some enc').
      { each_data_type Hp; eexists; reflexivity. }
      destruct E as [enc' ->]. rewrite (init_compression_default _ _ _ Hk). simpl.
      split; [intros (-> & _); exfalso; apply Hk, known_compression_cases; lia|].
      split; [reflexivity|discriminate]. }
  pose proof Hp as Hp0.
  each_data_type Hp; each_compression Hk; simpl;
    (split; [|split]);
    try (intros (Hc & _ & Hf & Hd); first [discriminate Hc | contradiction | split; reflexivity]);
    try (intros Hn; first [reflexivity | exfalso; apply Hn; repeat split; (exact Hp0 || discriminate)]);
    try (intros HE; first [discriminate HE | split; reflexivity]).
Qed.

(** *** The pipeline that [om_encoder_init] installs *)

(** X10. After a successful [om_encoder_init] the loop of the installed
    filter works on elements of [bytes_per_element_compressed] bytes, and
    the copy function reads elements of [bytes_per_element] bytes and writes
    elements of [bytes_per_element_compressed] bytes, with these
    exceptions: for [DoubleArray] with [FpxXor2D] the filter is
    [delta2d_encode_xor_double], whose loop works on 4-byte [int]s, and the
    element sizes are 8; for [Int64Array] and [UInt64Array] with
    [PforDelta2D] and for [DoubleArray] with [FpxXor2D] the copy function is
    [om_common_copy32] and the element sizes are 8. *)
Theorem om_encoder_init_pipeline (encoder : OmEncoder_t)
    (scale_factor add_offset : spec_float)
    (compression : OmCompression_t) (data_type : OmDataType_t)
    (dimensions chunks : list Z) (dimension_count : Z) :
  let r := om_encoder_init encoder scale_factor add_offset compression
             data_type dimensions chunks dimension_count in
  let xor_of_doubles :=
    compression = COMPRESSION_FPX_XOR2D /\ data_type = DATA_TYPE_DOUBLE_ARRAY in
  let half_copied :=
    (compression = COMPRESSION_PFOR_DELTA2D /\
     (data_type = DATA_TYPE_INT64_ARRAY \/ data_type = DATA_TYPE_UINT64_ARRAY))
    \/ xor_of_doubles in
  fst r = ERROR_OK ->
  (~ xor_of_doubles ->
   filter_element_size (compress_filter_callback (snd r))
   = bytes_per_element_compressed (snd r)) /\
  (xor_of_doubles ->
   compress_filter_callback (snd r) = ptr_delta2d_encode_xor_double /\
   filter_element_size (compress_filter_callback (snd r)) = 4 /\
   bytes_per_element_compressed (snd r) = 8) /\
  (~ half_copied ->
   copy_element_sizes (compress_copy_callback (snd r))
   = (bytes_per_element (snd r), bytes_per_element_compressed (snd r))) /\
  (half_copied ->
   compress_copy_callback (snd r) = ptr_om_common_copy32 /\
   bytes_per_element (snd r) = 8 /\ bytes_per_element_compressed (snd r) = 8).
Proof.
  intros r xor_of_doubles half_copied. subst r xor_of_doubles half_copied.
  unfold om_encoder_init.
  set (enc := set_parameters _ _ _ _ _ _).
  destruct (classic_payload data_type) as [Hp|Hp].
  2:{ rewrite (init_data_type_default _ _ Hp). simpl. discriminate. }
  destruct (classic_known compression) as [Hk|Hk].
  2:{ assert (E : exists enc', init_data_type enc data_type = Some enc').
      { each_data_type Hp; eexists; reflexivity. }
      destruct E as [enc' ->]. rewrite (init_compression_default _ _ _ Hk). simpl.
      discriminate. }
  each_data_type Hp; each_compression Hk; simpl; intros HE;
    try discriminate HE;
    (split; [|split; [|split]]);
    try (intros _; reflexivity);
    try (intros Hh; first [reflexivity | exfalso; apply Hh; lia]);
    try (intros Hh; first [repeat split; reflexivity | exfalso; lia]).
Qed.

(** [FloatArray] with [PforDelta2D_Int16]: a filter on 2-byte elements, a
    copy function from 4-byte to 2-byte elements; [DoubleArray] with
    [FpxXor2D]: a filter on 4-byte elements for elements of 8 bytes. *)
Lemma om_encoder_init_pipeline_witness :
  let r := om_encoder_init zeroed (of_int binary32 20) (S754_zero false)
             COMPRESSION_PFOR_DELTA2D_INT16 DATA_TYPE_FLOAT_ARRAY [4; 4] [2; 2] 2 in
  let r' := om_encoder_init zeroed (of_int binary32 1) (S754_zero false)
              COMPRESSION_FPX_XOR2D DATA_TYPE_DOUBLE_ARRAY [4; 4] [2; 2] 2 in
  (compress_filter_callback (snd r) = ptr_delta2d_encode16 /\
   filter_element_size (compress_filter_callback (snd r))
     = bytes_per_element_compressed (snd r) /\
   copy_element_sizes (compress_copy_callback (snd r)) = (4, 2)) /\
  (compress_filter_callback (snd r') = ptr_delta2d_encode_xor_double /\
   filter_element_size (compress_filter_callback (snd r')) = 4 /\
   bytes_per_element_compressed (snd r') = 8).
Proof.
  split.
  - split; [reflexivity|].
    pose proof (om_encoder_init_pipeline zeroed (of_int binary32 20)
                  (S754_zero false) COMPRESSION_PFOR_DELTA2D_INT16
                  DATA_TYPE_FLOAT_ARRAY [4; 4] [2; 2] 2 eq_refl)
      as (Hf & _ & Hc & _).
    split; [apply Hf; intros [H _]; discriminate H|].
    apply Hc. intros [[H _]|[H _]]; discriminate H.
  - pose proof (om_encoder_init_pipeline zeroed (of_int binary32 1)
                  (S754_zero false) COMPRESSION_FPX_XOR2D
                  DATA_TYPE_DOUBLE_ARRAY [4; 4] [2; 2] 2 eq_refl)
      as (_ & Hx & _).
    apply Hx. split; reflexivity.
Defined.

(** X11. The error code of [om_encoder_init] does not depend on the record
    passed in, and a successful call leaves no field of it as it was: two
    successful calls with the same arguments on any two records leave the
    same record. *)
Theorem om_encoder_init_overwrites (encoder encoder' : OmEncoder_t)
    (scale_factor add_offset : spec_float)
    (compression : OmCompression_t) (data_type : OmDataType_t)
    (dimensions chunks : list Z) (dimension_count : Z) :
  let r := om_encoder_init encoder scale_factor add_offset compression
             data_type dimensions chunks dimension_count in
  let r' := om_encoder_init encoder' scale_factor add_offset compression
              data_type dimensions chunks dimension_count in
  fst r = fst r' /\ (fst r = ERROR_OK -> snd r = snd r').
Proof.
  intros r r'. subst r r'. unfold om_encoder_init.
  set (enc := set_parameters encoder _ _ _ _ _).
  set (enc' := set_parameters encoder' _ _ _ _ _).
  destruct (classic_payload data_type) as [Hp|Hp].
  2:{ rewrite !(init_data_type_default _ _ Hp). simpl.
      split; [reflexivity|discriminate]. }
  destruct (classic_known compression) as [Hk|Hk].
  2:{ assert (E : exists e1 e2, init_data_type enc data_type = Some e1
                  /\ init_data_type enc' data_type = Some e2).
      { each_data_type Hp; do 2 eexists; split; reflexivity. }
      destruct E as (e1 & e2 & -> & ->).
      rewrite !(init_compression_default _ _ _ Hk). simpl.
      split; [reflexivity|discriminate]. }
  each_data_type Hp; each_compression Hk; simpl;
    (split; [reflexivity|]); intros HE; first [discriminate HE | reflexivity].
Qed.

End OmEncoderFacts.

(** ** The gather loop away from the upper edge of the source array *)

Module ChunkGatherFacts.
Import MachInt IEEE OmCommon OmEncoder ChunkGather.

(** *** [uint64_t] arithmetic without wrap-around *)

Lemma u64_small (x : Z) : 0 <= x < 2 ^ 64 -> u64 x = x.
Proof. intros H. unfold u64. apply Z.mod_small. exact H. Qed.

Lemma add64_small (a b : Z) : 0 <= a + b < 2 ^ 64 -> add64 a b = a + b.
Proof. apply u64_small. Qed.

Lemma sub64_small (a b : Z) : 0 <= a - b < 2 ^ 64 -> sub64 a b = a - b.
Proof. apply u64_small. Qed.

Lemma mul64_small (a b : Z) : 0 <= a * b < 2 ^ 64 -> mul64 a b = a * b.
Proof. apply u64_small. Qed.

Lemma div64_nonzero (a b : Z) : b <> 0 -> div64 a b = Returned (a / b).
Proof.
  intros H. unfold div64. destruct (Z.eqb_spec b 0); [contradiction|reflexivity].
Qed.

Lemma mod64_nonzero (a b : Z) : b <> 0 -> mod64 a b = Returned (a mod b).
Proof.
  intros H. unfold mod64. destruct (Z.eqb_spec b 0); [contradiction|reflexivity].
Qed.

Lemma assert_true (line : nat) (b : bool) : b = true -> assert line b = Returned tt.
Proof. intros ->. reflexivity. Qed.

(** *** From array indices to axes *)

Section Refinement.
Variable encoder : OmEncoder_t.
Variables arrayDimensions arrayOffset arrayCount : list Z.
Variables chunkIndex chunkIndexOffsetInThisArray : Z.
Variable R : nat.
Hypothesis count_R : dimension_count encoder = Z.of_nat R.
Hypothesis len_dimensions : length (dimensions encoder) = R.
Hypothesis len_chunks : length (chunks encoder) = R.
Hypothesis len_arrayDimensions : length arrayDimensions = R.
Hypothesis len_arrayOffset : length arrayOffset = R.
Hypothesis len_arrayCount : length arrayCount = R.

Lemma read_in_range (arr : list Z) (i : nat) :
  (i < length arr)%nat -> read arr i = Returned (arr !!! i).
Proof.
  intros H. unfold read.
  destruct (lookup_lt_is_Some_2 arr i H) as [v Hv].
  rewrite Hv, (list_lookup_total_correct _ _ _ Hv). reflexivity.
Qed.

Lemma start_dimension_axis (i : nat) (st : cursor) :
  (i < R)%nat ->
  start_dimension encoder arrayDimensions arrayOffset arrayCount
    chunkIndex chunkIndexOffsetInThisArray i st
  = start_axis chunkIndex chunkIndexOffsetInThisArray
      (Z.of_nat i =? dimension_count encoder - 1)
      (axis_at encoder arrayDimensions arrayOffset arrayCount i) st.
Proof.
  intros Hi. unfold start_dimension, start_axis, axis_at.
  rewrite !read_in_range by lia. reflexivity.
Qed.

Lemma step_dimension_axis (i : nat) (st : cursor) :
  (i < R)%nat ->
  step_dimension encoder arrayDimensions arrayOffset arrayCount i st
  = step_axis (Z.of_nat i =? dimension_count encoder - 1) (i =? 0)%nat
      (axis_at encoder arrayDimensions arrayOffset arrayCount i) st.
Proof.
  intros Hi. unfold step_dimension, step_axis, axis_at.
  rewrite !read_in_range by lia. reflexivity.
Qed.

Lemma rev_seq_S (n : nat) : rev (seq 0 (S n)) = n :: rev (seq 0 n).
Proof. rewrite seq_S, rev_app_distr. reflexivity. Qed.

Lemma start_loop_axes (n : nat) (st : cursor) :
  (n <= R)%nat ->
  start_loop encoder arrayDimensions arrayOffset arrayCount
    chunkIndex chunkIndexOffsetInThisArray (rev (seq 0 n)) st
  = start_axes chunkIndex chunkIndexOffsetInThisArray (n =? R)%nat
      (map (axis_at encoder arrayDimensions arrayOffset arrayCount)
         (rev (seq 0 n))) st.
Proof.
  revert st. induction n as [|n IH]; intros st Hn; [reflexivity|].
  rewrite rev_seq_S. cbn [start_loop map start_axes].
  rewrite start_dimension_axis by lia.
  replace (Z.of_nat n =? dimension_count encoder - 1) with (S n =? R)%nat.
  2:{ rewrite count_R. destruct (Nat.eqb_spec (S n) R), (Z.eqb_spec (Z.of_nat n) (Z.of_nat R - 1));
        try reflexivity; lia. }
  destruct (start_axis _ _ _ _ st) as [st'| | |]; try reflexivity.
  cbn. rewrite IH by lia.
  replace (n =? R)%nat with false; [reflexivity|].
  symmetry. apply Nat.eqb_neq. lia.
Qed.

Lemma step_loop_axes (n : nat) (st : cursor) :
  (n <= R)%nat ->
  step_loop encoder arrayDimensions arrayOffset arrayCount (rev (seq 0 n)) st
  = step_axes (n =? R)%nat
      (map (axis_at encoder arrayDimensions arrayOffset arrayCount)
         (rev (seq 0 n))) st.
Proof.
  revert st. induction n as [|n IH]; intros st Hn; [reflexivity|].
  rewrite rev_seq_S. cbn [step_loop map step_axes].
  rewrite step_dimension_axis by lia.
  replace (Z.of_nat n =? dimension_count encoder - 1) with (S n =? R)%nat.
  2:{ rewrite count_R. destruct (Nat.eqb_spec (S n) R), (Z.eqb_spec (Z.of_nat n) (Z.of_nat R - 1));
        try reflexivity; lia. }
  replace (match map _ (rev (seq 0 n)) with [] => true | _ => false end)
    with (n =? 0)%nat.
  2:{ destruct n; [reflexivity|]. rewrite rev_seq_S. reflexivity. }
  destruct (step_axis _ _ _ st) as [[[| |] st']| | |]; try reflexivity.
  cbn. rewrite IH by lia.
  replace (n =? R)%nat with false; [reflexivity|].
  symmetry. apply Nat.eqb_neq. lia.
Qed.

End Refinement.

(** *** The geometry of one axis *)

Lemma extent_bounds (p : placed) :
  1 <= ax_chunk p -> 1 <= ax_dimension p -> 0 <= pl_c0 p < chunks_along p ->
  1 <= extent p <= ax_chunk p /\ pl_c0 p * ax_chunk p + extent p <= ax_dimension p.
Proof.
  unfold extent, chunks_along. intros Hc Hd Hc0.
  pose proof (Z.div_mod (ax_dimension p + ax_chunk p - 1) (ax_chunk p) ltac:(lia)) as E.
  pose proof (Z.mod_pos_bound (ax_dimension p + ax_chunk p - 1) (ax_chunk p) ltac:(lia)) as B.
  set (n := (ax_dimension p + ax_chunk p - 1) / ax_chunk p) in *.
  assert (pl_c0 p * ax_chunk p <= (n - 1) * ax_chunk p) by nia.
  lia.
Qed.

Lemma chunks_along_pos (p : placed) :
  1 <= ax_chunk p -> 1 <= ax_dimension p -> 1 <= chunks_along p.
Proof. intros. unfold chunks_along. apply Z.div_le_lower_bound; lia. Qed.

Lemma axis_geometry (p : placed) :
  axis_ok p -> in_grid p ->
  1 <= chunks_along p /\ 1 <= extent p <= ax_chunk p /\
  0 <= origin p /\ origin p + extent p <= ax_arrayDimension p /\
  1 <= ax_arrayDimension p.
Proof.
  intros (Hchunk & Hdim & Hoff & Hbox & Hin & Hcut & Hedge & Hb1 & Hb2) (Hc0 & Hco).
  destruct (extent_bounds p Hchunk Hdim Hc0) as (He & He').
  pose proof (chunks_along_pos p Hchunk Hdim).
  unfold origin. repeat split; try lia; nia.
Qed.

Lemma volumes_pos (ps : list placed) :
  Forall axis_ok ps -> Forall in_grid ps ->
  1 <= grid_volume ps /\ 1 <= volume ps /\ 1 <= source_volume ps.
Proof.
  intros Hok Hg. induction Hok as [|p ps Hp Hok IH]; [cbn; lia|].
  inversion Hg as [|? ? Hgp Hg']; subst.
  destruct (IH Hg') as (I1 & I2 & I3).
  destruct (axis_geometry p Hp Hgp) as (G1 & G2 & G3 & G4 & G5).
  cbn [grid_volume volume source_volume fold_right]. 
  fold (grid_volume ps). fold (volume ps). fold (source_volume ps).
  repeat split; nia.
Qed.

Section StartAxis.
Variables ci co : Z.
Hypothesis ci_range : 0 <= ci < 2 ^ 64.
Hypothesis co_range : 0 <= co < 2 ^ 64.

Lemma start_axis_ok (first : bool) (p : placed) (st : cursor) :
  pl_c0 p = (ci / rollingMultiply st) mod chunks_along p ->
  pl_c0Offset p = (co / rollingMultiply st) mod chunks_along p ->
  axis_ok p ->
  0 < rollingMultiply st ->
  rollingMultiply st * chunks_along p < 2 ^ 64 ->
  0 <= rollingMultiplyChunkLength st ->
  rollingMultiplyChunkLength st * extent p < 2 ^ 64 ->
  0 <= rollingMultiplyTargetCube st ->
  rollingMultiplyTargetCube st * ax_arrayDimension p < 2 ^ 64 ->
  0 <= readCoordinate st < rollingMultiplyTargetCube st ->
  start_axis ci co first p st
  = Returned {|
      rollingMultiply := rollingMultiply st * chunks_along p;
      rollingMultiplyChunkLength := rollingMultiplyChunkLength st * extent p;
      rollingMultiplyTargetCube := rollingMultiplyTargetCube st * ax_arrayDimension p;
      readCoordinate := readCoordinate st + rollingMultiplyTargetCube st * origin p;
      writeCoordinate := writeCoordinate st;
      linearReadCount :=
        fst (linear_run first (ax_arrayCount p) (ax_arrayDimension p) (extent p)
               (linearReadCount st) (linearRead st));
      linearRead :=
        snd (linear_run first (ax_arrayCount p) (ax_arrayDimension p) (extent p)
               (linearReadCount st) (linearRead st));
      lengthLast := if first then extent p else lengthLast st |}.
Proof.
  intros Ec0 Eco Hok Hrm Hrm' Hcl Hcl' Htc Htc' Hrc.
  destruct Hok as (Hchunk & Hdim & Hoff & Hbox & Hin & Hcut & Hedge & Hb1 & Hb2).
  assert (HnC : 1 <= chunks_along p).
  { unfold chunks_along. apply Z.div_le_lower_bound; lia. }
  assert (Hc0 : 0 <= pl_c0 p < chunks_along p).
  { rewrite Ec0. apply Z.mod_pos_bound. lia. }
  assert (Hco : 0 <= pl_c0Offset p < chunks_along p).
  { rewrite Eco. apply Z.mod_pos_bound. lia. }
  destruct (extent_bounds p Hchunk Hdim Hc0) as (He & He').
  assert (Hlen : sub64 (min (mul64 (add64 (pl_c0 p) 1) (ax_chunk p)) (ax_dimension p))
                   (mul64 (pl_c0 p) (ax_chunk p)) = extent p).
  { assert (B : (pl_c0 p + 1) * ax_chunk p <= ax_dimension p + ax_chunk p - 1).
    { unfold chunks_along in Hc0.
      pose proof (Z.div_mod (ax_dimension p + ax_chunk p - 1) (ax_chunk p) ltac:(lia)) as E.
      pose proof (Z.mod_pos_bound (ax_dimension p + ax_chunk p - 1) (ax_chunk p) ltac:(lia)) as B.
      nia. }
    rewrite add64_small by lia.
    rewrite mul64_small by nia. rewrite mul64_small by nia.
    unfold min. apply sub64_small.
    unfold extent in He, He'. lia. }
  assert (Horigin : add64 (mul64 (pl_c0Offset p) (ax_chunk p)) (ax_arrayOffset p) = origin p).
  { unfold origin. rewrite mul64_small by nia. rewrite add64_small by nia. lia. }
  assert (Ho : 0 <= origin p /\ origin p + extent p <= ax_arrayDimension p).
  { unfold origin. nia. }
  unfold start_axis, divide_rounded_up.
  rewrite (div64_nonzero _ (ax_chunk p)) by lia.
  cbn [mbind outcome_bind].
  rewrite !(div64_nonzero _ (rollingMultiply st)) by lia.
  cbn [mbind outcome_bind].
  fold (chunks_along p).
  rewrite !(mod64_nonzero _ (chunks_along p)) by lia.
  cbn [mbind outcome_bind].
  rewrite <- Ec0, <- Eco.
  rewrite Hlen, Horigin.
  rewrite !assert_true by (apply Z.leb_le; nia).
  cbn [mbind outcome_bind].
  destruct (linear_run _ _ _ _ _ _) as [lrc lr]. cbn [fst snd].
  rewrite !mul64_small by nia.
  rewrite add64_small by nia.
  reflexivity.
Qed.
Lemma place_in_grid (rolling : Z) (axes : list axis) :
  0 < rolling ->
  Forall axis_ok (place ci co rolling axes) ->
  Forall in_grid (place ci co rolling axes).
Proof.
  revert rolling. induction axes as [|a axes IH]; intros rolling Hr Hok; [constructor|].
  cbn [place] in *. inversion Hok as [|p ps Hp Hok']; subst.
  assert (HnC : 1 <= chunks_along a).
  { destruct Hp as (Hchunk & Hdim & _). cbn [pl_axis] in *.
    unfold chunks_along. apply Z.div_le_lower_bound; lia. }
  constructor.
  - unfold in_grid. cbn [pl_c0 pl_c0Offset pl_axis].
    pose proof (Z.mod_pos_bound (ci / rolling) (chunks_along a) ltac:(lia)).
    pose proof (Z.mod_pos_bound (co / rolling) (chunks_along a) ltac:(lia)).
    lia.
  - apply IH; [nia|exact Hok'].
Qed.

Lemma start_axes_ok (first : bool) (axes : list axis) (st : cursor) :
  let ps := place ci co (rollingMultiply st) axes in
  Forall axis_ok ps ->
  0 < rollingMultiply st ->
  rollingMultiply st * grid_volume ps < 2 ^ 64 ->
  0 <= rollingMultiplyChunkLength st ->
  rollingMultiplyChunkLength st * volume ps < 2 ^ 64 ->
  0 <= rollingMultiplyTargetCube st ->
  rollingMultiplyTargetCube st * source_volume ps < 2 ^ 64 ->
  0 <= readCoordinate st < rollingMultiplyTargetCube st ->
  start_axes ci co first axes st
  = Returned {|
      rollingMultiply := rollingMultiply st * grid_volume ps;
      rollingMultiplyChunkLength := rollingMultiplyChunkLength st * volume ps;
      rollingMultiplyTargetCube := rollingMultiplyTargetCube st * source_volume ps;
      readCoordinate :=
        readCoordinate st + rollingMultiplyTargetCube st * source_coordinate ps 0;
      writeCoordinate := writeCoordinate st;
      linearReadCount := fst (runs first ps (linearReadCount st, linearRead st));
      linearRead := snd (runs first ps (linearReadCount st, linearRead st));
      lengthLast :=
        match ps with
        | p :: _ => if first then extent p else lengthLast st
        | [] => lengthLast st
        end |}.
Proof.
  revert first st. induction axes as [|a axes IH]; intros first st ps Hok Hrm Hrm' Hcl Hcl' Htc Htc' Hrc.
  - subst ps. cbn. destruct st; cbn. f_equal. f_equal; lia.
  - subst ps. cbn [place] in *.
    set (p := {| pl_axis := a; pl_c0 := _; pl_c0Offset := _ |}) in *.
    set (ps := place ci co (rollingMultiply st * chunks_along a) axes) in *.
    pose proof (place_in_grid (rollingMultiply st) (a :: axes) Hrm Hok) as Hg.
    cbn [place] in Hg. fold p in Hg. fold ps in Hg.
    inversion Hok as [|? ? Hp Hok']; subst.
    inversion Hg as [|? ? Hgp Hg']; subst.
    destruct (axis_geometry p Hp Hgp) as (G1 & G2 & G3 & G4 & G5).
    destruct (volumes_pos ps Hok' Hg') as (V1 & V2 & V3).
    cbn [grid_volume volume source_volume fold_right] in *.
    fold (grid_volume ps) in *. fold (volume ps) in *. fold (source_volume ps) in *.
    cbn [start_axes].
    change a with (pl_axis p) at 1.
    rewrite (start_axis_ok first p st); try reflexivity; try assumption; try nia.
    cbn [mbind outcome_bind].
    rewrite IH; cbn [rollingMultiply rollingMultiplyChunkLength
                     rollingMultiplyTargetCube readCoordinate writeCoordinate
                     linearReadCount linearRead lengthLast];
      change (place ci co (rollingMultiply st * chunks_along p) axes) with ps;
      try assumption; try nia.
    f_equal. cbn [source_coordinate runs].
    rewrite Z.mod_0_l by lia. rewrite Z.div_0_l by lia.
    f_equal; try ring.
    + destruct (linear_run _ _ _ _ _ _); reflexivity.
    + destruct (linear_run _ _ _ _ _ _); reflexivity.
    + destruct ps; destruct first; reflexivity.
Qed.

End StartAxis.


Lemma sub_region_extent (p : placed) :
  axis_ok p -> in_grid p ->
  sub64 (min (mul64 (add64 (pl_c0Offset p) 1) (ax_chunk p)) (ax_arrayCount p))
    (mul64 (pl_c0Offset p) (ax_chunk p)) = extent p.
Proof.
  intros Hok Hg. destruct (axis_geometry p Hok Hg) as (G1 & G2 & G3 & G4 & G5).
  destruct Hok as (Hchunk & Hdim & Hoff & Hbox & Hin & Hcut & Hedge & Hb1 & Hb2).
  destruct Hg as (Hc0 & Hco).
  rewrite add64_small by nia.
  rewrite mul64_small by nia. rewrite mul64_small by nia.
  unfold min. rewrite sub64_small by nia. nia.
Qed.

Lemma step_axis_ok (first is_first : bool) (p : placed) (st : cursor)
    (M lo j rest : Z) :
  axis_ok p -> in_grid p ->
  rollingMultiplyTargetCube st = M ->
  0 < M -> 0 <= lo < M -> 0 <= j < extent p -> 0 <= rest ->
  readCoordinate st = lo + M * ((origin p + j) + ax_arrayDimension p * rest) ->
  readCoordinate st + M < 2 ^ 64 ->
  M * ax_arrayDimension p < 2 ^ 64 ->
  let s := linear_run first (ax_arrayCount p) (ax_arrayDimension p) (extent p)
             (linearReadCount st) (linearRead st) in
  step_axis first is_first p st
  = Returned
      (if j + 1 <? extent p
       then (Break, with_step st (readCoordinate st + M) M s)
       else (if is_first then Return else NextDimension,
             with_step st (lo + M * (origin p + ax_arrayDimension p * rest))
               (M * ax_arrayDimension p) s)).
Proof.
  intros Hok Hg EM HM Hlo Hj Hrest Hrc Hb Hb' s.
  destruct (axis_geometry p Hok Hg) as (G1 & G2 & G3 & G4 & G5).
  pose proof (sub_region_extent p Hok Hg) as Hext.
  destruct Hok as (Hchunk & Hdim & Hoff & Hbox & Hin & Hcut & Hedge & Hb1 & Hb2).
  destruct Hg as (Hc0 & Hco).
  set (X := origin p + j + ax_arrayDimension p * rest) in *.
  assert (HX : 0 <= X) by (unfold X; nia).
  assert (E1 : readCoordinate st / M = X).
  { rewrite Hrc. rewrite Z.add_comm, Z.mul_comm, Z.div_add_l by lia.
    rewrite (Z.div_small lo M) by lia. lia. }
  assert (E2 : X mod ax_arrayDimension p = origin p + j).
  { unfold X. rewrite Z.mul_comm, Z.mod_add by lia. apply Z.mod_small. lia. }
  assert (E3 : (origin p + j - ax_arrayOffset p) / ax_chunk p = pl_c0Offset p).
  { unfold origin. replace (ax_arrayOffset p + pl_c0Offset p * ax_chunk p + j - ax_arrayOffset p)
      with (j + pl_c0Offset p * ax_chunk p) by lia.
    rewrite Z.div_add by lia. rewrite Z.div_small by lia. lia. }
  assert (E4 : (readCoordinate st + M) / M = X + 1).
  { replace (readCoordinate st + M) with (lo + (X + 1) * M) by (rewrite Hrc; unfold X; ring).
    rewrite Z.div_add by lia. rewrite (Z.div_small lo M) by lia. lia. }
  unfold step_axis. rewrite EM.
  rewrite (div64_nonzero (readCoordinate st) M) by lia. cbn [mbind outcome_bind].
  rewrite E1.
  rewrite (mod64_nonzero X (ax_arrayDimension p)) by lia. cbn [mbind outcome_bind].
  rewrite E2.
  rewrite (sub64_small (origin p + j)) by (unfold origin; nia).
  rewrite (div64_nonzero _ (ax_chunk p)) by lia. cbn [mbind outcome_bind].
  rewrite E3, Hext.
  rewrite (add64_small (readCoordinate st) M) by lia.
  fold s. destruct s as [lrc lr] eqn:Es.
  rewrite (div64_nonzero (readCoordinate st + M) M) by lia. cbn [mbind outcome_bind].
  rewrite E4.
  rewrite (mod64_nonzero (X + 1) (ax_arrayDimension p)) by lia. cbn [mbind outcome_bind].
  rewrite (mod64_nonzero _ (ax_chunk p)) by lia. cbn [mbind outcome_bind].
  set (q0 := sub64 ((X + 1) mod ax_arrayDimension p) (ax_arrayOffset p) mod ax_chunk p).
  assert (Q0 : if j + 1 <? extent p then q0 = j + 1
               else q0 = 0 \/ q0 = extent p).
  { subst q0. destruct (Z.ltb_spec (j + 1) (extent p)) as [Hlt|Hge].
    - assert (E5 : (X + 1) mod ax_arrayDimension p = origin p + j + 1).
      { unfold X. replace (origin p + j + ax_arrayDimension p * rest + 1)
          with (origin p + j + 1 + rest * ax_arrayDimension p) by ring.
        rewrite Z.mod_add by lia. apply Z.mod_small. lia. }
      rewrite E5. rewrite sub64_small by (unfold origin; nia).
      unfold origin.
      replace (ax_arrayOffset p + pl_c0Offset p * ax_chunk p + j + 1 - ax_arrayOffset p)
        with (j + 1 + pl_c0Offset p * ax_chunk p) by lia.
      rewrite Z.mod_add by lia. apply Z.mod_small. lia.
    - assert (Hj1 : j + 1 = extent p) by lia.
      destruct (Z.eq_dec (origin p + extent p) (ax_arrayDimension p)) as [Hedge'|Hin'].
      + assert (Hoff0 : ax_arrayOffset p = 0) by lia.
        assert (E5 : (X + 1) mod ax_arrayDimension p = 0).
        { unfold X. replace (origin p + j + ax_arrayDimension p * rest + 1)
            with (0 + (rest + 1) * ax_arrayDimension p) by lia.
          rewrite Z.mod_add by lia. apply Z.mod_0_l. lia. }
        rewrite E5, Hoff0. change (sub64 0 0) with 0.
        rewrite Z.mod_0_l by lia. left. reflexivity.
      + assert (E5 : (X + 1) mod ax_arrayDimension p = origin p + extent p).
        { unfold X. replace (origin p + j + ax_arrayDimension p * rest + 1)
            with (origin p + extent p + rest * ax_arrayDimension p) by lia.
          rewrite Z.mod_add by lia. apply Z.mod_small. lia. }
        rewrite E5. rewrite sub64_small by (unfold origin; nia).
        unfold origin.
        replace (ax_arrayOffset p + pl_c0Offset p * ax_chunk p + extent p - ax_arrayOffset p)
          with (extent p + pl_c0Offset p * ax_chunk p) by lia.
        rewrite Z.mod_add by lia.
        destruct (Z.eq_dec (extent p) (ax_chunk p)) as [->|Hne].
        * left. apply Z.mod_same. lia.
        * right. apply Z.mod_small. lia. }
  clearbody q0.
  destruct (Z.ltb_spec (j + 1) (extent p)) as [Hlt|Hge].
  - subst q0.
    replace (negb (j + 1 =? 0) && negb (j + 1 =? extent p)) with true.
    2:{ symmetry. apply andb_true_iff. split; apply negb_true_iff, Z.eqb_neq; lia. }
    reflexivity.
  - replace (negb (q0 =? 0) && negb (q0 =? extent p)) with false.
    2:{ symmetry. destruct Q0 as [->| ->].
        - reflexivity.
        - rewrite Z.eqb_refl. apply andb_false_r. }
    assert (Hj1 : j + 1 = extent p) by lia.
    assert (B1 : 0 <= extent p * M <= M * ax_arrayDimension p).
    { split; [apply Z.mul_nonneg_nonneg; lia|].
      rewrite (Z.mul_comm M). apply Z.mul_le_mono_nonneg_r; lia. }
    assert (B2 : readCoordinate st + M - extent p * M
                 = lo + M * (origin p + ax_arrayDimension p * rest)).
    { rewrite Hrc. unfold X. rewrite <- Hj1. ring. }
    assert (B3 : 0 <= M * (origin p + ax_arrayDimension p * rest)).
    { apply Z.mul_nonneg_nonneg; [lia|].
      apply Z.add_nonneg_nonneg; [lia|]. apply Z.mul_nonneg_nonneg; lia. }
    f_equal. f_equal. unfold with_step. cbn [fst snd].
    rewrite (mul64_small (extent p) M) by lia.
    rewrite (mul64_small M) by (split; [apply Z.mul_nonneg_nonneg|]; lia).
    rewrite sub64_small by lia.
    rewrite B2. reflexivity.
Qed.

(** *** One step of the cursor *)

Lemma linear_run_growth (first : bool) (p : placed) (ps : list placed)
    (lrc : Z) (lr : bool) :
  (first = true -> lrc = 1 /\ lr = true) ->
  0 <= lrc -> 1 <= extent p -> lrc * extent p < 2 ^ 64 ->
  let s := linear_run first (ax_arrayCount p) (ax_arrayDimension p) (extent p)
             lrc lr in
  exists g,
    fst s = lrc * g /\
    growth first lr (p :: ps) = g * growth false (snd s) ps /\
    (g = extent p \/ (g = 1 /\ snd s = false)).
Proof.
  intros Hfirst Hlrc He Hb. unfold linear_run. fold (covered p).
  unfold growth. cbn [run_length joined].
  destruct first.
  - destruct (Hfirst eq_refl) as [-> ->]. destruct (covered p); cbn [andb negb fst snd].
    + exists (extent p). rewrite mul64_small by lia.
      split; [lia|]. split; [reflexivity|]. left. reflexivity.
    + exists (extent p). split; [lia|]. split; [lia|]. left. reflexivity.
  - destruct lr, (covered p); cbn [andb negb fst snd].
    + exists (extent p). rewrite mul64_small by nia.
      split; [lia|]. split; [reflexivity|]. left. reflexivity.
    + exists 1. split; [lia|]. split; [lia|]. right. split; reflexivity.
    + exists 1. split; [lia|]. split; [lia|]. right. split; reflexivity.
    + exists 1. split; [lia|]. split; [lia|]. right. split; reflexivity.
Qed.

Lemma source_coordinate_range (ps : list placed) (w : Z) :
  Forall axis_ok ps -> Forall in_grid ps -> 0 <= w < volume ps ->
  0 <= source_coordinate ps w < source_volume ps.
Proof.
  intros Hok Hg. revert w. induction Hok as [|p ps Hp Hok IH]; intros w Hw.
  - cbn. lia.
  - inversion Hg as [|? ? Hgp Hg']; subst.
    destruct (axis_geometry p Hp Hgp) as (G1 & G2 & G3 & G4 & G5).
    destruct (volumes_pos ps Hok Hg') as (V1 & V2 & V3).
    cbn [volume source_volume fold_right source_coordinate] in *.
    fold (volume ps) in *. fold (source_volume ps) in *.
    pose proof (Z.mod_pos_bound w (extent p) ltac:(lia)) as Hj.
    assert (Hw' : 0 <= w / extent p < volume ps).
    { split; [apply Z.div_pos; lia|]. apply Z.div_lt_upper_bound; lia. }
    specialize (IH Hg' _ Hw').
    split; [nia|].
    assert (ax_arrayDimension p * source_coordinate ps (w / extent p)
            <= ax_arrayDimension p * (source_volume ps - 1)).
    { apply Z.mul_le_mono_nonneg_l; lia. }
    lia.
Qed.

Lemma succ_digit (w e : Z) :
  0 <= w -> 1 <= e ->
  (w mod e + 1 < e ->
   (w + 1) mod e = w mod e + 1 /\ (w + 1) / e = w / e) /\
  (w mod e + 1 = e ->
   (w + 1) mod e = 0 /\ (w + 1) / e = w / e + 1 /\ w + 1 = e * (w / e + 1)).
Proof.
  intros Hw He.
  pose proof (Z.div_mod w e ltac:(lia)) as E.
  pose proof (Z.mod_pos_bound w e ltac:(lia)) as B.
  split; intros H.
  - assert (Q : (w + 1) / e = w / e).
    { symmetry. apply (Z.div_unique_pos (w + 1) e (w / e) (w mod e + 1)); lia. }
    split; [|exact Q].
    pose proof (Z.div_mod (w + 1) e ltac:(lia)) as E'. rewrite Q in E'. lia.
  - assert (Q : (w + 1) / e = w / e + 1).
    { symmetry. apply (Z.div_unique_pos (w + 1) e (w / e + 1) 0); lia. }
    pose proof (Z.div_mod (w + 1) e ltac:(lia)) as E'. rewrite Q in E'.
    repeat split; lia.
Qed.

Lemma step_axes_ok (ps : list placed) :
  forall (first : bool) (st : cursor) (M lo w : Z),
  ps <> [] -> Forall axis_ok ps -> Forall in_grid ps ->
  rollingMultiplyTargetCube st = M -> 0 < M -> 0 <= lo < M ->
  0 <= w < volume ps ->
  readCoordinate st = lo + M * source_coordinate ps w ->
  2 * (M * source_volume ps) <= 2 ^ 64 ->
  (first = true -> linearReadCount st = 1 /\ linearRead st = true) ->
  0 <= linearReadCount st ->
  linearReadCount st * volume ps < 2 ^ 64 ->
  (growth first (linearRead st) ps | w + 1) ->
  exists st',
    step_axes first (map pl_axis ps) st
    = Returned (if w + 1 <? volume ps then Break else Return, st') /\
    writeCoordinate st' = writeCoordinate st /\
    lengthLast st' = lengthLast st /\
    (w + 1 < volume ps ->
     readCoordinate st' = lo + M * source_coordinate ps (w + 1) /\
     linearReadCount st' = linearReadCount st * growth first (linearRead st) ps).
Proof.
  induction ps as [|p ps IH]; intros first st M lo w Hne Hok Hg EM HM Hlo Hw Hrc Hb Hfirst Hlrc Hlrc' Hdiv;
    [contradiction|].
  inversion Hok as [|? ? Hp Hok']; subst.
  inversion Hg as [|? ? Hgp Hg']; subst.
  destruct (axis_geometry p Hp Hgp) as (G1 & G2 & G3 & G4 & G5).
  destruct (volumes_pos ps Hok' Hg') as (V1 & V2 & V3).
  cbn [volume source_volume fold_right source_coordinate] in *.
  fold (volume ps) in *. fold (source_volume ps) in *.
  set (M := rollingMultiplyTargetCube st) in *.
  set (j := w mod extent p) in *. set (w' := w / extent p) in *.
  pose proof (Z.mod_pos_bound w (extent p) ltac:(lia)) as Hj. fold j in Hj.
  assert (Hw' : 0 <= w' < volume ps).
  { split; [apply Z.div_pos; lia|]. apply Z.div_lt_upper_bound; lia. }
  pose proof (source_coordinate_range ps w' Hok' Hg' Hw') as Hrest.
  set (rest := source_coordinate ps w') in *.
  destruct (succ_digit w (extent p) ltac:(lia) ltac:(lia)) as [Hsame Hcarry].
  fold j in Hsame, Hcarry. fold w' in Hsame, Hcarry.
  assert (Hsv : M * ax_arrayDimension p <= M * (ax_arrayDimension p * source_volume ps)).
  { apply Z.mul_le_mono_nonneg_l; [lia|]. nia. }
  assert (Hrcb : readCoordinate st + M < 2 ^ 64).
  { rewrite Hrc.
    assert (M * (origin p + j + ax_arrayDimension p * rest)
            <= M * (ax_arrayDimension p * source_volume ps - 1)).
    { apply Z.mul_le_mono_nonneg_l; [lia|].
      assert (ax_arrayDimension p * rest <= ax_arrayDimension p * (source_volume ps - 1))
        by (apply Z.mul_le_mono_nonneg_l; lia).
      lia. }
    lia. }
  destruct (linear_run_growth first p ps (linearReadCount st) (linearRead st)
              Hfirst Hlrc ltac:(lia) ltac:(nia)) as (g & Hg1 & Hg2 & Hg3).
  set (s := linear_run first _ _ _ _ _) in *.
  cbn [map step_axes].
  rewrite (step_axis_ok first _ p st M lo j rest Hp Hgp eq_refl HM Hlo Hj
             ltac:(lia) Hrc Hrcb ltac:(lia)).
  fold s. cbn [mbind outcome_bind].
  destruct (Z.ltb_spec (j + 1) (extent p)) as [Hlt|Hge].
  - (* the cursor moves along this axis *)
    destruct (Hsame Hlt) as [Em Ed].
    assert (Hlt' : w + 1 < extent p * volume ps).
    { pose proof (Z.div_mod w (extent p) ltac:(lia)) as E. fold j w' in E. nia. }
    destruct (Z.ltb_spec (w + 1) (extent p * volume ps)); [|lia].
    eexists. split; [reflexivity|]. split; [reflexivity|]. split; [reflexivity|].
    intros _. cbn [with_step readCoordinate linearReadCount].
    rewrite Em, Ed. fold rest. split; [rewrite Hrc; ring|].
    rewrite Hg1. destruct Hg3 as [->|[-> Es]].
    + exfalso. rewrite Hg2 in Hdiv.
      assert (D : (extent p | w + 1)).
      { eapply Z.divide_trans; [|exact Hdiv]. apply Z.divide_factor_l. }
      apply Z.mod_divide in D; [|lia]. lia.
    + rewrite Hg2, Es. unfold growth. reflexivity.
  - (* the axis wraps *)
    assert (Hj1 : j + 1 = extent p) by lia.
    destruct (Hcarry Hj1) as (Em & Ed & Ew).
    destruct ps as [|p' ps'].
    + (* dimension 0 *)
      cbn [map]. cbn [volume fold_right] in *.
      destruct (Z.ltb_spec (w + 1) (extent p * 1)); [lia|].
      eexists. split; [reflexivity|]. split; [reflexivity|]. split; [reflexivity|].
      intros; lia.
    + cbn [map]. set (ps := p' :: ps') in *.
      change (pl_axis p' :: map pl_axis ps') with (map pl_axis ps).
      destruct (IH false
                  (with_step st (lo + M * (origin p + ax_arrayDimension p * rest))
                     (M * ax_arrayDimension p) s)
                  (M * ax_arrayDimension p) (lo + M * origin p) w')
        as (st' & Hst' & Hwc & Hll & Hnext).
      * discriminate.
      * exact Hok'.
      * exact Hg'.
      * reflexivity.
      * nia.
      * split; [nia|].
        assert (M * origin p <= M * (ax_arrayDimension p - 1))
          by (apply Z.mul_le_mono_nonneg_l; lia).
        lia.
      * exact Hw'.
      * cbn [with_step readCoordinate]. fold rest. ring.
      * rewrite <- Z.mul_assoc. exact Hb.
      * discriminate.
      * cbn [with_step linearReadCount]. rewrite Hg1.
        destruct Hg3 as [->|[-> _]]; nia.
      * cbn [with_step linearReadCount]. rewrite Hg1.
        assert (linearReadCount st * g * volume ps
                <= linearReadCount st * (extent p * volume ps)).
        { rewrite <- Z.mul_assoc. apply Z.mul_le_mono_nonneg_l; [lia|].
          apply Z.mul_le_mono_nonneg_r; [lia|]. destruct Hg3 as [->|[-> _]]; lia. }
        lia.
      * cbn [with_step linearRead].
        rewrite Hg2, Ew in Hdiv.
        destruct Hg3 as [->|[-> Es]].
        -- apply (Z.mul_divide_cancel_l _ _ (extent p)); [lia|exact Hdiv].
        -- rewrite Es. unfold growth. apply Z.divide_1_l.
      * rewrite Hst'.
        replace (w + 1 <? extent p * volume ps) with (w' + 1 <? volume ps).
        2:{ destruct (Z.ltb_spec (w' + 1) (volume ps)), (Z.ltb_spec (w + 1) (extent p * volume ps));
              try reflexivity; nia. }
        exists st'. split; [reflexivity|].
        split; [rewrite Hwc; reflexivity|]. split; [rewrite Hll; reflexivity|].
        intros Hlt. destruct Hnext as [Hr Hl]; [nia|].
        rewrite Hr, Hl, Em, Ed. cbn [with_step linearReadCount linearRead].
        fold w'. split; [ring|]. rewrite Hg1, Hg2. ring.
Qed.

(** *** Runs *)

Lemma covered_axis (p : placed) :
  axis_ok p -> in_grid p -> covered p = true ->
  origin p = 0 /\ ax_arrayDimension p = extent p.
Proof.
  intros Hok Hg Hc. destruct (axis_geometry p Hok Hg) as (G1 & G2 & G3 & G4 & G5).
  unfold covered in Hc. apply andb_true_iff in Hc. destruct Hc as [H1 H2].
  apply Z.eqb_eq in H1, H2. lia.
Qed.

Lemma joined_divides (ps : list placed) :
  Forall axis_ok ps -> Forall in_grid ps ->
  1 <= joined ps /\ (joined ps | volume ps).
Proof.
  intros Hok Hg. induction Hok as [|p ps Hp Hok IH].
  - cbn. split; [lia|apply Z.divide_refl].
  - inversion Hg as [|? ? Hgp Hg']; subst.
    destruct (IH Hg') as [I1 I2].
    destruct (axis_geometry p Hp Hgp) as (G1 & G2 & G3 & G4 & G5).
    cbn [joined volume fold_right]. fold (volume ps).
    destruct (covered p).
    + split; [nia|]. apply Z.mul_divide_mono_l. exact I2.
    + split; [lia|apply Z.divide_1_l].
Qed.

Lemma run_length_divides (ps : list placed) :
  Forall axis_ok ps -> Forall in_grid ps ->
  1 <= run_length ps /\ (run_length ps | volume ps).
Proof.
  intros Hok Hg. destruct ps as [|p ps].
  - cbn. split; [lia|apply Z.divide_refl].
  - inversion Hok as [|? ? Hp Hok']; subst.
    inversion Hg as [|? ? Hgp Hg']; subst.
    destruct (joined_divides ps Hok' Hg') as [I1 I2].
    destruct (axis_geometry p Hp Hgp) as (G1 & G2 & G3 & G4 & G5).
    cbn [run_length volume fold_right]. fold (volume ps).
    destruct (covered p).
    + split; [nia|]. apply Z.mul_divide_mono_l. exact I2.
    + split; [lia|]. apply Z.divide_factor_l.
Qed.

(** Inside a run the source index moves with the chunk index. *)
Lemma joined_affine (ps : list placed) :
  Forall axis_ok ps -> Forall in_grid ps ->
  forall w t, 0 <= w -> (joined ps | w) -> 0 <= t < joined ps ->
  source_coordinate ps (w + t) = source_coordinate ps w + t.
Proof.
  intros Hok Hg. induction Hok as [|p ps Hp Hok IH]; intros w t Hw Hdiv Ht.
  - cbn in *. lia.
  - inversion Hg as [|? ? Hgp Hg']; subst.
    destruct (axis_geometry p Hp Hgp) as (G1 & G2 & G3 & G4 & G5).
    destruct (joined_divides ps Hok Hg') as [J1 _].
    cbn [joined source_coordinate] in *.
    destruct (covered p) eqn:Hc.
    + destruct (covered_axis p Hp Hgp Hc) as [Ho Hd].
      destruct Hdiv as [k Hk].
      assert (Ew : w = (k * joined ps) * extent p) by lia.
      assert (Ewm : w mod extent p = 0) by (rewrite Ew; apply Z.mod_mul; lia).
      assert (Ewd : w / extent p = k * joined ps) by (rewrite Ew; apply Z.div_mul; lia).
      pose proof (Z.div_mod t (extent p) ltac:(lia)) as Et.
      pose proof (Z.mod_pos_bound t (extent p) ltac:(lia)) as Bt.
      assert (Bt' : 0 <= t / extent p < joined ps).
      { split; [apply Z.div_pos; lia|]. apply Z.div_lt_upper_bound; lia. }
      assert (Em : (w + t) mod extent p = t mod extent p).
      { rewrite Ew, Z.add_comm, Z.mod_add by lia. reflexivity. }
      assert (Ed : (w + t) / extent p = k * joined ps + t / extent p).
      { rewrite Ew, Z.add_comm, Z.div_add by lia. lia. }
      rewrite Em, Ed, Ewm, Ewd.
      rewrite (IH Hg' (k * joined ps) (t / extent p)).
      * rewrite Hd. lia.
      * assert (0 <= k * joined ps) by (rewrite <- Ewd; apply Z.div_pos; lia). lia.
      * apply Z.divide_factor_r.
      * exact Bt'.
    + replace t with 0 by lia. rewrite Z.add_0_r. lia.
Qed.

Lemma run_affine (ps : list placed) :
  Forall axis_ok ps -> Forall in_grid ps ->
  forall w t, 0 <= w -> (run_length ps | w) -> 0 <= t < run_length ps ->
  source_coordinate ps (w + t) = source_coordinate ps w + t.
Proof.
  intros Hok Hg w t Hw Hdiv Ht. destruct ps as [|p ps].
  - cbn in *. lia.
  - destruct (covered p) eqn:Hc.
    + apply joined_affine; try assumption; cbn [run_length joined] in *;
        rewrite Hc in *; assumption.
    + inversion Hok as [|? ? Hp Hok']; subst.
      inversion Hg as [|? ? Hgp Hg']; subst.
      destruct (axis_geometry p Hp Hgp) as (G1 & G2 & G3 & G4 & G5).
      cbn [run_length source_coordinate] in *. rewrite Hc in *.
      destruct Hdiv as [k Hk].
      assert (Ewm : w mod extent p = 0) by (rewrite Hk; apply Z.mod_mul; lia).
      assert (Em : (w + t) mod extent p = t).
      { rewrite Hk, Z.add_comm, Z.mod_add by lia. apply Z.mod_small. lia. }
      assert (Ed : (w + t) / extent p = w / extent p).
      { rewrite Hk, Z.add_comm, Z.div_add by lia.
        rewrite Z.div_small by lia. rewrite Z.div_mul by lia. lia. }
      rewrite Em, Ed, Ewm. lia.
Qed.

Lemma runs_growth (ps : list placed) :
  Forall axis_ok ps -> Forall in_grid ps ->
  forall first lrc lr,
  (first = true -> lrc = 1 /\ lr = true) ->
  0 <= lrc -> lrc * volume ps < 2 ^ 64 ->
  fst (runs first ps (lrc, lr)) = lrc * growth first lr ps.
Proof.
  intros Hok Hg. induction Hok as [|p ps Hp Hok IH]; intros first lrc lr Hfirst Hlrc Hb.
  - cbn. unfold growth. cbn. destruct first, lr; lia.
  - inversion Hg as [|? ? Hgp Hg']; subst.
    destruct (axis_geometry p Hp Hgp) as (G1 & G2 & G3 & G4 & G5).
    destruct (volumes_pos ps Hok Hg') as (V1 & V2 & V3).
    cbn [volume fold_right] in Hb. fold (volume ps) in Hb.
    destruct (linear_run_growth first p ps lrc lr Hfirst Hlrc ltac:(lia) ltac:(nia))
      as (g & Hg1 & Hg2 & Hg3).
    cbn [runs fst snd].
    set (s := linear_run first _ _ _ _ _) in *.
    rewrite (surjective_pairing s).
    rewrite IH; [rewrite Hg1, Hg2; ring|exact Hg'|discriminate| |].
    + rewrite Hg1. destruct Hg3 as [->|[-> _]]; nia.
    + rewrite Hg1.
      assert (lrc * g * volume ps <= lrc * (extent p * volume ps)).
      { rewrite <- Z.mul_assoc. apply Z.mul_le_mono_nonneg_l; [lia|].
        apply Z.mul_le_mono_nonneg_r; [lia|]. destruct Hg3 as [->|[-> _]]; lia. }
      lia.
Qed.

(** *** The main loop *)

Lemma volume_le_source (ps : list placed) :
  Forall axis_ok ps -> Forall in_grid ps -> volume ps <= source_volume ps.
Proof.
  intros Hok Hg. induction Hok as [|p ps Hp Hok IH]; [cbn; lia|].
  inversion Hg as [|? ? Hgp Hg']; subst.
  destruct (axis_geometry p Hp Hgp) as (G1 & G2 & G3 & G4 & G5).
  destruct (volumes_pos ps Hok Hg') as (V1 & V2 & V3).
  cbn [volume source_volume fold_right]. fold (volume ps). fold (source_volume ps).
  specialize (IH Hg'). nia.
Qed.

Section MainLoop.
Variable encoder : OmEncoder_t.
Variables arrayDimensions arrayOffset arrayCount : list Z.
Variable R : nat.
Hypothesis count_R : dimension_count encoder = Z.of_nat R.
Hypothesis len_dimensions : length (dimensions encoder) = R.
Hypothesis len_chunks : length (chunks encoder) = R.
Hypothesis len_arrayDimensions : length arrayDimensions = R.
Hypothesis len_arrayOffset : length arrayOffset = R.
Hypothesis len_arrayCount : length arrayCount = R.
Variable ps : list placed.
Hypothesis ps_axes :
  map pl_axis ps = inner_first encoder arrayDimensions arrayOffset arrayCount.
Hypothesis ps_ok : Forall axis_ok ps.
Hypothesis ps_grid : Forall in_grid ps.
Hypothesis ps_nonempty : ps <> [].
Hypothesis source_fits : source_volume ps <= 2 ^ 63.

Lemma step_loop_backward (st : cursor) :
  step_loop encoder arrayDimensions arrayOffset arrayCount (backward encoder) st
  = step_axes true (map pl_axis ps) st.
Proof.
  unfold backward. rewrite count_R, Nat2Z.id.
  rewrite (step_loop_axes encoder arrayDimensions arrayOffset arrayCount R)
    by (assumption || lia).
  rewrite Nat.eqb_refl, ps_axes. unfold inner_first, backward.
  rewrite count_R, Nat2Z.id. reflexivity.
Qed.

Lemma main_loop_ok (n : nat) :
  forall (k : Z) (fuel : nat) (st : cursor) (calls : list copy_call),
  0 <= k -> k + Z.of_nat (S n) = volume ps / run_length ps ->
  (S n <= fuel)%nat ->
  readCoordinate st = source_coordinate ps (k * run_length ps) ->
  writeCoordinate st = k * run_length ps ->
  linearReadCount st = run_length ps ->
  1 <= lengthLast st ->
  main_loop encoder arrayDimensions arrayOffset arrayCount fuel
    (source_volume ps) (volume ps) st calls
  = Returned
      {| copies := calls ++ map (expected_copy encoder ps) (seqZ k (Z.of_nat (S n)));
         filter_callback := compress_filter_callback encoder;
         filter_length0 := volume ps / lengthLast st;
         filter_length1 := lengthLast st;
         compressor_callback := compress_callback encoder;
         compressor_length := volume ps |}.
Proof.
  destruct (run_length_divides ps ps_ok ps_grid) as [HL [N HN]].
  destruct (volumes_pos ps ps_ok ps_grid) as (V1 & V2 & V3).
  pose proof (volume_le_source ps ps_ok ps_grid) as Hvs.
  set (L := run_length ps) in *.
  assert (EN : volume ps / L = N) by (rewrite HN; apply Z.div_mul; lia).
  induction n as [|n IH]; intros k fuel st calls Hk Hkn Hfuel Hrc Hwc Hlrc Hll;
    (destruct fuel as [|fuel]; [lia|]); rewrite EN in Hkn.
  all: assert (Hw : 0 <= k * L) by nia.
  all: assert (Hend : k * L + L <= volume ps) by nia.
  all: pose proof (run_affine ps ps_ok ps_grid (k * L) (L - 1) Hw
                     (Z.divide_factor_r L k) ltac:(lia)) as Haff.
  all: pose proof (source_coordinate_range ps (k * L + (L - 1)) ps_ok ps_grid
                     ltac:(lia)) as Hlast.
  all: pose proof (source_coordinate_range ps (k * L) ps_ok ps_grid ltac:(lia)) as Hfst.
  all: cbn [main_loop].
  all: rewrite Hrc, Hwc, Hlrc.
  all: rewrite (add64_small (source_coordinate ps (k * L)) L) by lia.
  all: rewrite (add64_small (k * L) L) by lia.
  all: rewrite !assert_true by (apply Z.leb_le; lia).
  all: cbn [mbind outcome_bind].
  all: rewrite step_loop_backward.
  all: rewrite (sub64_small L 1) by lia.
  all: rewrite (add64_small (source_coordinate ps (k * L)) (L - 1)) by lia.
  all: rewrite (add64_small (k * L) (L - 1)) by lia.
  all: rewrite (add64_small (k * L + (L - 1)) 1) by lia.
  all: match goal with
       | |- context [step_axes true (map pl_axis ps) ?st1] =>
           destruct (step_axes_ok ps true st1 1 0 (k * L + (L - 1)))
             as (st2 & Hst2 & Hwc2 & Hll2 & Hnext);
             [ exact ps_nonempty | exact ps_ok | exact ps_grid | reflexivity
             | lia | lia | lia
             | cbn [readCoordinate]; rewrite Haff; ring
             | lia
             | intros _; split; reflexivity
             | cbn [linearReadCount]; lia
             | cbn [linearReadCount]; lia
             | cbn [linearRead]; unfold growth; fold L;
               replace (k * L + (L - 1) + 1) with ((k + 1) * L) by ring;
               apply Z.divide_factor_r
             | rewrite Hst2 ]
       end.
  all: cbn [mbind outcome_bind].
  all: cbn [lengthLast writeCoordinate linearReadCount linearRead] in Hwc2, Hll2, Hnext.
  - (* the last run *)
    assert (k * L + (L - 1) + 1 = volume ps) by nia.
    destruct (Z.ltb_spec (k * L + (L - 1) + 1) (volume ps)); [lia|].
    rewrite Hll2. rewrite (div64_nonzero _ (lengthLast st)) by lia.
    cbn [mbind outcome_bind]. reflexivity.
  - (* a run, and more to come *)
    assert (k * L + (L - 1) + 1 < volume ps) by nia.
    destruct (Z.ltb_spec (k * L + (L - 1) + 1) (volume ps)); [|lia].
    destruct Hnext as [Hrc2 Hlrc2]; [lia|].
    rewrite (IH (k + 1)); try lia.
    + rewrite Hll2. f_equal. f_equal.
      rewrite <- app_assoc. f_equal.
      rewrite (seqZ_cons k (Z.of_nat (S (S n)))) by lia.
      cbn [map app]. f_equal.
      replace (Z.succ k) with (k + 1) by lia.
      replace (Z.pred (Z.of_nat (S (S n)))) with (Z.of_nat (S n)) by lia.
      reflexivity.
    + rewrite Hrc2. replace (k * L + (L - 1) + 1) with ((k + 1) * L) by ring. ring.
    + rewrite Hlrc2. unfold growth. fold L. ring.
Qed.

End MainLoop.

(** *** The size of the source array *)

Lemma place_axes (ci co rolling : Z) (axes : list axis) :
  map pl_axis (place ci co rolling axes) = axes.
Proof.
  revert rolling. induction axes as [|a axes IH]; intros rolling; [reflexivity|].
  cbn [place map pl_axis]. rewrite IH. reflexivity.
Qed.

Lemma product_app (l1 l2 : list Z) : product (l1 ++ l2) = product l1 * product l2.
Proof.
  unfold product. induction l1 as [|x l1 IH]; cbn [app fold_right].
  - destruct (fold_right Z.mul 1 l2); reflexivity.
  - rewrite IH. ring.
Qed.

Lemma product_rev (l : list Z) : product (rev l) = product l.
Proof.
  induction l as [|x l IH]; [reflexivity|].
  cbn [rev]. rewrite product_app, IH. cbn [product fold_right]. fold (product l). ring.
Qed.

Lemma source_volume_product (ps : list placed) :
  source_volume ps = product (map ax_arrayDimension (map pl_axis ps)).
Proof.
  induction ps as [|p ps IH]; [reflexivity|].
  cbn [source_volume map product fold_right].
  fold (source_volume ps). fold (product (map ax_arrayDimension (map pl_axis ps))).
  rewrite IH. reflexivity.
Qed.

Lemma map_lookup_total_seq (arr : list Z) :
  map (fun i => arr !!! i) (seq 0 (length arr)) = arr.
Proof.
  apply list_eq. intros i.
  rewrite list_lookup_fmap.
  destruct (decide (i < length arr)%nat) as [Hi|Hi].
  - rewrite lookup_seq_lt by exact Hi. cbn.
    destruct (lookup_lt_is_Some_2 arr i Hi) as [v Hv].
    rewrite Hv, (list_lookup_total_correct _ _ _ Hv). reflexivity.
  - rewrite lookup_seq_ge by lia. cbn.
    symmetry. apply lookup_ge_None_2. lia.
Qed.

Section TotalCount.
Variable arrayDimensions : list Z.
Hypothesis positive : Forall (fun d => 1 <= d) arrayDimensions.

Lemma product_pos (l : list Z) : Forall (fun d => 1 <= d) l -> 1 <= product l.
Proof.
  induction 1 as [|x l Hx Hl IH]; cbn [product fold_right]; [lia|].
  fold (product l). nia.
Qed.

Lemma total_count_ok (n : nat) :
  forall (i : nat) (acc : Z),
  (i + n = length arrayDimensions)%nat -> 0 <= acc ->
  acc * product (drop i arrayDimensions) < 2 ^ 64 ->
  total_count arrayDimensions (seq i n) acc
  = Returned (acc * product (drop i arrayDimensions)).
Proof.
  induction n as [|n IH]; intros i acc Hi Hacc Hb.
  - cbn. rewrite drop_ge by lia. cbn. f_equal. lia.
  - cbn [seq total_count].
    destruct (lookup_lt_is_Some_2 arrayDimensions i ltac:(lia)) as [d Hd].
    rewrite (drop_S _ _ _ Hd) in Hb |- *.
    unfold read. rewrite Hd. cbn [mbind outcome_bind].
    cbn [product fold_right] in Hb |- *. fold (product (drop (S i) arrayDimensions)) in Hb |- *.
    assert (Hd1 : 1 <= d).
    { rewrite Forall_lookup in positive. exact (positive i d Hd). }
    assert (Hrest : 1 <= product (drop (S i) arrayDimensions)).
    { apply product_pos. apply Forall_drop. exact positive. }
    rewrite mul64_small by nia.
    rewrite IH; [f_equal; ring|lia|nia|].
    rewrite <- Z.mul_assoc. exact Hb.
Qed.
End TotalCount.

(** *** The calls of [om_encoder_compress_chunk]

    The axes of the call, placed from [rollingMultiply = 1], inner first. *)
Section Gather.
Variable encoder : OmEncoder_t.
Variables arrayDimensions arrayOffset arrayCount : list Z.
Variables chunkIndex chunkIndexOffsetInThisArray : Z.
Variable R : nat.
Hypothesis count_R : dimension_count encoder = Z.of_nat R.
Hypothesis R_pos : (0 < R)%nat.
Hypothesis len_dimensions : length (dimensions encoder) = R.
Hypothesis len_chunks : length (chunks encoder) = R.
Hypothesis len_arrayDimensions : length arrayDimensions = R.
Hypothesis len_arrayOffset : length arrayOffset = R.
Hypothesis len_arrayCount : length arrayCount = R.
Hypothesis chunkIndex_range : 0 <= chunkIndex < 2 ^ 64.
Hypothesis chunkIndexOffset_range : 0 <= chunkIndexOffsetInThisArray < 2 ^ 64.

Let ps : list placed :=
  place chunkIndex chunkIndexOffsetInThisArray 1
    (inner_first encoder arrayDimensions arrayOffset arrayCount).

Hypothesis ps_ok : Forall axis_ok ps.
Hypothesis grid_fits : grid_volume ps < 2 ^ 64.
Hypothesis source_fits : source_volume ps <= 2 ^ 63.

Lemma inner_first_dimensions :
  map ax_arrayDimension (inner_first encoder arrayDimensions arrayOffset arrayCount)
  = rev arrayDimensions.
Proof.
  unfold inner_first, backward. rewrite count_R, Nat2Z.id.
  rewrite map_map. cbn [axis_at ax_arrayDimension].
  rewrite map_rev. f_equal. rewrite <- len_arrayDimensions.
  apply map_lookup_total_seq.
Qed.

Lemma source_volume_arrayDimensions : source_volume ps = product arrayDimensions.
Proof.
  rewrite source_volume_product. unfold ps. rewrite place_axes.
  rewrite inner_first_dimensions. apply product_rev.
Qed.

Lemma placed_in_grid : Forall in_grid ps.
Proof. apply place_in_grid; [lia|exact ps_ok]. Qed.

Lemma placed_nonempty : ps <> [].
Proof.
  intros E. apply (f_equal (map pl_axis)) in E. unfold ps in E.
  rewrite place_axes in E. unfold inner_first, backward in E.
  rewrite count_R, Nat2Z.id in E.
  apply (f_equal (@length axis)) in E. rewrite length_map, length_rev, length_seq in E.
  cbn in E. lia.
Qed.

Lemma arrayDimensions_positive : Forall (fun d => 1 <= d) arrayDimensions.
Proof.
  assert (H : Forall (fun d => 1 <= d) (map ax_arrayDimension (map pl_axis ps))).
  { pose proof placed_in_grid as Hg. clear - ps_ok Hg.
    induction ps_ok as [|p l Hp Hok IH]; [constructor|].
    inversion Hg as [|? ? Hgp Hg']; subst.
    cbn [map]. constructor; [|apply IH; [exact Hok|exact Hg']].
    destruct (axis_geometry p Hp Hgp) as (_ & _ & _ & _ & G5). exact G5. }
  unfold ps in H. rewrite place_axes, inner_first_dimensions in H.
  apply Forall_rev in H. rewrite rev_involutive in H. exact H.
Qed.

(** The calls of one [om_encoder_compress_chunk], once the main loop may
    run for one iteration per run. *)
Lemma compress_chunk_returns (fuel : nat) :
  (Z.to_nat (volume ps / run_length ps) <= fuel)%nat ->
  om_encoder_compress_chunk encoder arrayDimensions arrayOffset arrayCount
    chunkIndex chunkIndexOffsetInThisArray fuel
  = Returned (expected_calls encoder ps).
Proof.
  intros Hfuel.
  pose proof placed_in_grid as Hg. pose proof placed_nonempty as Hne.
  destruct (volumes_pos ps ps_ok Hg) as (V1 & V2 & V3).
  destruct (run_length_divides ps ps_ok Hg) as [HL [N HN]].
  pose proof (volume_le_source ps ps_ok Hg) as Hvs.
  assert (EN : volume ps / run_length ps = N) by (rewrite HN; apply Z.div_mul; lia).
  assert (HN1 : 1 <= N) by nia.
  unfold om_encoder_compress_chunk.
  rewrite count_R, Nat2Z.id.
  rewrite (total_count_ok arrayDimensions arrayDimensions_positive R 0 1);
    [|lia|lia|rewrite drop_0, <- source_volume_arrayDimensions; lia].
  cbn [mbind outcome_bind].
  rewrite drop_0, Z.mul_1_l, <- source_volume_arrayDimensions.
  unfold backward. rewrite count_R, Nat2Z.id.
  rewrite (start_loop_axes encoder arrayDimensions arrayOffset arrayCount
             chunkIndex chunkIndexOffsetInThisArray R)
    by (assumption || lia).
  rewrite Nat.eqb_refl.
  change (map (axis_at encoder arrayDimensions arrayOffset arrayCount) (rev (seq 0 R)))
    with (map (axis_at encoder arrayDimensions arrayOffset arrayCount)
            (rev (seq 0 R))).
  assert (Eaxes : map (axis_at encoder arrayDimensions arrayOffset arrayCount)
                    (rev (seq 0 R))
                  = inner_first encoder arrayDimensions arrayOffset arrayCount).
  { unfold inner_first, backward. rewrite count_R, Nat2Z.id. reflexivity. }
  rewrite Eaxes.
  rewrite (start_axes_ok chunkIndex chunkIndexOffsetInThisArray chunkIndex_range
             chunkIndexOffset_range true);
    cbn [rollingMultiply rollingMultiplyChunkLength rollingMultiplyTargetCube
         readCoordinate writeCoordinate linearReadCount linearRead lengthLast];
    fold ps; try lia; [|exact ps_ok].
  cbn [mbind outcome_bind].
  cbn [rollingMultiplyChunkLength].
  rewrite !Z.mul_1_l, Z.add_0_l.
  destruct ps as [|p ps'] eqn:Eps; [contradiction|]. rewrite <- Eps in *.
  assert (Hp : 1 <= extent p).
  { rewrite Eps in ps_ok, Hg. inversion ps_ok; subst. inversion Hg; subst.
    destruct (axis_geometry p) as (_ & G2 & _); assumption || lia. }
  rewrite (main_loop_ok encoder arrayDimensions arrayOffset arrayCount R
             count_R len_dimensions len_chunks len_arrayDimensions
             len_arrayOffset len_arrayCount ps
             ltac:(unfold ps; apply place_axes) ps_ok Hg Hne source_fits
             (Z.to_nat N - 1) 0 fuel _ []);
    cbn [readCoordinate writeCoordinate linearReadCount lengthLast];
    try lia.
  - assert (Hm : match ps with q :: _ => extent q | [] => 0 end = extent p)
      by (rewrite Eps; reflexivity).
    unfold expected_calls, expected_copies. rewrite Hm.
    cbn [app]. rewrite EN.
    replace (Z.of_nat (S (Z.to_nat N - 1))) with N by lia.
    reflexivity.
  - rewrite Z.mul_0_l. reflexivity.
  - rewrite (runs_growth ps ps_ok Hg true 1 true); [unfold growth; lia| | |]; try lia.
Qed.

(** X1. A call of [om_encoder_compress_chunk] with [dimension_count >= 1]
    and arrays of [dimension_count] elements, [chunkIndex] and
    [chunkIndexOffsetInThisArray] in [uint64_t], whose axes all satisfy
    [axis_ok] (chunk size and dimension at least 1; the sub-region inside
    the source array; the chunk inside the sub-region and, along every
    axis, either a full chunk or ending where the sub-region ends; the
    sub-region starting at 0 or the chunk ending before the source array
    does; [dimension + chunk] and [arrayCount + chunk] at most [2^64]), with
    fewer than [2^64] chunks in the file and at most [2^63] elements in the
    source array, returns, with no [assert] failing and no operation
    undefined, once the loop may run for one iteration per run.  It calls
    the copy callback once per run of the chunk, in row-major order, with
    the source and target addresses of [expected_copy], then the filter and
    the compressor on the whole chunk. *)
Theorem gather_calls (fuel : nat) :
  (Z.to_nat (volume ps / run_length ps) <= fuel)%nat ->
  om_encoder_compress_chunk encoder arrayDimensions arrayOffset arrayCount
    chunkIndex chunkIndexOffsetInThisArray fuel
  = Returned (expected_calls encoder ps).
Proof. exact (compress_chunk_returns fuel). Qed.

End Gather.

(** A 4 x 6 file array in chunks of 2 x 3, written from the rows 2..5 and
    the columns 3..8 of a 10 x 10 source array; the chunk number 3 is the
    last one, its two runs of three elements start at the elements 46 and 56
    of the source array. *)
Lemma gather_calls_witness :
  let encoder :=
    snd (om_encoder_init zeroed (S754_zero false) (S754_zero false)
           COMPRESSION_PFOR_DELTA2D DATA_TYPE_UINT8_ARRAY [4; 6] [2; 3] 2) in
  let ps := place 3 3 1 (inner_first encoder [10; 10] [2; 3] [4; 6]) in
  Forall axis_ok ps /\
  map copy_src (expected_copies encoder ps) = [46; 56] /\
  om_encoder_compress_chunk encoder [10; 10] [2; 3] [4; 6] 3 3 2
  = Returned (expected_calls encoder ps).
Proof.
  intros encoder ps.
  assert (Hok : Forall axis_ok ps).
  { apply List.Forall_cons; [|apply List.Forall_cons; [|apply List.Forall_nil]];
      vm_compute; repeat split; try discriminate;
      first [left; reflexivity|right; reflexivity]. }
  split; [exact Hok|]. split; [vm_compute; reflexivity|].
  apply (gather_calls encoder [10; 10] [2; 3] [4; 6] 3 3 2%nat);
    try exact Hok; try (vm_compute; reflexivity); try (vm_compute; lia);
    vm_compute; repeat split; try discriminate; reflexivity.
Defined.

(** *** The copies on memory *)

Lemma copy_loop_ok (width : nat) (src : list Z) (n : nat) :
  forall (i : nat) (dst : list Z),
  ((i + n) * width <= length src)%nat ->
  ((i + n) * width <= length dst)%nat ->
  copy_loop width n i src dst
  = Some (take (i * width) dst
            ++ take (n * width) (drop (i * width) src)
            ++ drop ((i + n) * width) dst).
Proof.
  induction n as [|n IH]; intros i dst Hs Hd.
  - cbn [copy_loop]. rewrite Nat.add_0_r. change (0 * width)%nat with 0%nat.
    rewrite take_0, app_nil_l, take_drop. reflexivity.
  - cbn [copy_loop]. unfold copy_element.
    destruct (decide _) as [_|Hn]; [|exfalso; apply Hn; lia].
    rewrite IH.
    + f_equal.
      assert (Hl : length (take (i * width) dst) = (i * width)%nat)
        by (rewrite length_take; lia).
      assert (Hw : length (take width (drop (i * width) src)) = width)
        by (rewrite length_take, length_drop; lia).
      replace (S i * width)%nat with (i * width + width)%nat by lia.
      replace ((S i + n) * width)%nat with (i * width + width + n * width)%nat by lia.
      replace ((i + S n) * width)%nat with (i * width + width + n * width)%nat by lia.
      replace (S n * width)%nat with (width + n * width)%nat by lia.
      set (A := take (i * width) dst) in *.
      set (B := take width (drop (i * width) src)) in *.
      rewrite (app_assoc A B).
      rewrite <- (drop_drop ((A ++ B) ++ _) (n * width) (i * width + width)).
      rewrite take_app_length' by (rewrite length_app; lia).
      rewrite drop_app_length' by (rewrite length_app; lia).
      rewrite drop_drop, <- app_assoc. f_equal.
      rewrite app_assoc. f_equal.
      rewrite <- (drop_drop src width (i * width)).
      apply take_take_drop.
    + lia.
    + rewrite !length_app, length_take, length_take, !length_drop. lia.
Qed.

Lemma take_elements (width : nat) (l : list Z) (n : nat) :
  forall s : nat,
  take (n * width) (drop (s * width) l)
  = concat (map (fun t => take width (drop (t * width) l)) (seq s n)).
Proof.
  induction n as [|n IH]; intros s.
  - reflexivity.
  - cbn [seq map concat]. rewrite <- IH.
    replace (S n * width)%nat with (width + n * width)%nat by lia.
    replace (S s * width)%nat with (s * width + width)%nat by lia.
    rewrite <- (drop_drop l width (s * width)).
    symmetry. apply take_take_drop.
Qed.

Lemma run_copy_ok (array chunkBuffer : list Z) (c : copy_call) (width : nat) :
  straight_copy (copy_callback c) = Some width ->
  (Z.to_nat (copy_src c) + Z.to_nat (copy_length c) * width <= length array)%nat ->
  (Z.to_nat (copy_dst c) + Z.to_nat (copy_length c) * width <= length chunkBuffer)%nat ->
  run_copy array chunkBuffer c
  = Some (take (Z.to_nat (copy_dst c)) chunkBuffer
            ++ take (Z.to_nat (copy_length c) * width)
                 (drop (Z.to_nat (copy_src c)) array)
            ++ drop (Z.to_nat (copy_dst c) + Z.to_nat (copy_length c) * width)
                 chunkBuffer).
Proof.
  intros Hw Hs Hd. unfold run_copy.
  assert (E : forall w : nat, w = width ->
            copy_loop w (Z.to_nat (copy_length c)) 0
              (drop (Z.to_nat (copy_src c)) array)
              (drop (Z.to_nat (copy_dst c)) chunkBuffer)
            = Some (take (Z.to_nat (copy_length c) * width)
                      (drop (Z.to_nat (copy_src c)) array)
                    ++ drop (Z.to_nat (copy_dst c)
                             + Z.to_nat (copy_length c) * width) chunkBuffer)).
  { intros w ->. rewrite copy_loop_ok by (rewrite length_drop; lia).
    cbn [Nat.mul Nat.add]. rewrite take_0, drop_0, app_nil_l, drop_drop.
    reflexivity. }
  destruct (copy_callback c); try discriminate Hw;
    injection Hw as Hw;
    unfold om_common_copy8, om_common_copy16, om_common_copy32, om_common_copy64;
    rewrite (E _ Hw); reflexivity.
Qed.

Lemma seqZ_blocks {A : Type} (g : Z -> list A) (L : Z) (n : nat) :
  0 <= L ->
  forall k : Z,
  concat (map (fun j => concat (map g (seqZ (j * L) L))) (seqZ k (Z.of_nat n)))
  = concat (map g (seqZ (k * L) (Z.of_nat n * L))).
Proof.
  intros HL. induction n as [|n IH]; intros k.
  - reflexivity.
  - rewrite seqZ_cons by lia. cbn [map concat].
    replace (Z.pred (Z.of_nat (S n))) with (Z.of_nat n) by lia.
    rewrite IH.
    replace (Z.of_nat (S n) * L) with (L + Z.of_nat n * L) by lia.
    rewrite seqZ_app by nia. rewrite map_app, concat_app.
    replace (Z.succ k * L) with (k * L + L) by lia. reflexivity.
Qed.

Lemma map_seqZ {A : Type} (g : Z -> A) (m : Z) (n : nat) :
  map g (seqZ m (Z.of_nat n)) = map (fun i : nat => g (Z.of_nat i + m)) (seq 0 n).
Proof.
  unfold seqZ. rewrite Nat2Z.id. generalize (seq 0 n). intros l.
  induction l as [|i l IH]; [reflexivity|]. cbn. rewrite <- IH. reflexivity.
Qed.

Lemma map_seq_from {A : Type} (g : nat -> A) (n : nat) :
  forall s : nat, map g (seq s n) = map (fun i : nat => g (s + i)%nat) (seq 0 n).
Proof.
  induction n as [|n IH]; intros s; [reflexivity|].
  cbn [seq map]. rewrite Nat.add_0_r. f_equal.
  rewrite (IH (S s)), <- (seq_shift n 0), map_map. apply map_ext. intros i.
  f_equal. lia.
Qed.

(** The copies of one chunk, for an encoder that copies elements of
    [width] bytes from the source array [array]. *)
Section Elements.
Variable encoder : OmEncoder_t.
Variable ps : list placed.
Variable width : nat.
Variable array : list Z.
Hypothesis copy_width : straight_copy (compress_copy_callback encoder) = Some width.
Hypothesis source_width : bytes_per_element encoder = Z.of_nat width.
Hypothesis target_width : bytes_per_element_compressed encoder = Z.of_nat width.
Hypothesis placed_ok : Forall axis_ok ps.
Hypothesis placed_grid : Forall in_grid ps.
Hypothesis array_size : Z.of_nat (length array) = Z.of_nat width * source_volume ps.
Hypothesis array_fits : Z.of_nat (length array) < 2 ^ 64.

(** The bytes that the copy number [k] moves. *)
Let run_bytes (k : Z) : list Z :=
  take (Z.to_nat (run_length ps) * width)
    (drop (Z.to_nat (source_coordinate ps (k * run_length ps)) * width) array).

Lemma run_in_source (k : Z) :
  0 <= k < volume ps / run_length ps ->
  0 <= source_coordinate ps (k * run_length ps) /\
  source_coordinate ps (k * run_length ps) + run_length ps <= source_volume ps.
Proof.
  intros Hk.
  destruct (run_length_divides ps placed_ok placed_grid) as [HL [N HN]].
  assert (EN : volume ps / run_length ps = N) by (rewrite HN; apply Z.div_mul; lia).
  rewrite EN in Hk.
  assert (H0 : 0 <= k * run_length ps) by (apply Z.mul_nonneg_nonneg; lia).
  assert (H1 : k * run_length ps + run_length ps <= volume ps).
  { rewrite HN. replace (k * run_length ps + run_length ps)
      with ((k + 1) * run_length ps) by ring.
    apply Z.mul_le_mono_nonneg_r; lia. }
  pose proof (source_coordinate_range ps (k * run_length ps) placed_ok placed_grid
                ltac:(lia)) as R0.
  pose proof (source_coordinate_range ps (k * run_length ps + (run_length ps - 1))
                placed_ok placed_grid ltac:(lia)) as R1.
  rewrite (run_affine ps placed_ok placed_grid (k * run_length ps)
             (run_length ps - 1)) in R1;
    [lia|lia|apply Z.divide_factor_r|lia].
Qed.

Lemma run_expected_copy (k : Z) (chunkBuffer : list Z) :
  0 <= k < volume ps / run_length ps ->
  Z.of_nat width * volume ps <= Z.of_nat (length chunkBuffer) ->
  run_copy array chunkBuffer (expected_copy encoder ps k)
  = Some (take (Z.to_nat (k * run_length ps) * width) chunkBuffer
            ++ run_bytes k
            ++ drop (Z.to_nat ((k + 1) * run_length ps) * width) chunkBuffer).
Proof.
  intros Hk Hbuf.
  destruct (run_length_divides ps placed_ok placed_grid) as [HL [N HN]].
  assert (EN : volume ps / run_length ps = N) by (rewrite HN; apply Z.div_mul; lia).
  destruct (run_in_source k Hk) as [S0 S1].
  rewrite EN in Hk.
  pose proof (volume_le_source ps placed_ok placed_grid) as Hvs.
  assert (H0 : 0 <= k * run_length ps) by (apply Z.mul_nonneg_nonneg; lia).
  assert (H1 : k * run_length ps + run_length ps <= volume ps).
  { rewrite HN. replace (k * run_length ps + run_length ps)
      with ((k + 1) * run_length ps) by ring.
    apply Z.mul_le_mono_nonneg_r; lia. }
  assert (Hw : 0 <= Z.of_nat width) by lia.
  assert (Esrc : copy_src (expected_copy encoder ps k)
                 = Z.of_nat width * source_coordinate ps (k * run_length ps)).
  { cbn [copy_src expected_copy]. rewrite source_width. apply mul64_small.
    split; [apply Z.mul_nonneg_nonneg; lia|].
    apply Z.le_lt_trans with (Z.of_nat width * source_volume ps); [|lia].
    apply Z.mul_le_mono_nonneg_l; lia. }
  assert (Edst : copy_dst (expected_copy encoder ps k)
                 = Z.of_nat width * (k * run_length ps)).
  { cbn [copy_dst expected_copy]. rewrite target_width. apply mul64_small.
    split; [apply Z.mul_nonneg_nonneg; lia|].
    apply Z.le_lt_trans with (Z.of_nat width * source_volume ps); [|lia].
    apply Z.mul_le_mono_nonneg_l; lia. }
  assert (Nsrc : Z.to_nat (copy_src (expected_copy encoder ps k))
                 = (Z.to_nat (source_coordinate ps (k * run_length ps)) * width)%nat).
  { rewrite Esrc, Z2Nat.inj_mul, Nat2Z.id by lia. apply Nat.mul_comm. }
  assert (Ndst : Z.to_nat (copy_dst (expected_copy encoder ps k))
                 = (Z.to_nat (k * run_length ps) * width)%nat).
  { rewrite Edst, Z2Nat.inj_mul, Nat2Z.id by lia. apply Nat.mul_comm. }
  assert (Hsrc : (Z.to_nat (source_coordinate ps (k * run_length ps)) * width
                  + Z.to_nat (run_length ps) * width <= length array)%nat).
  { rewrite <- Nat.mul_add_distr_r, <- Z2Nat.inj_add by lia.
    apply Nat2Z.inj_le. rewrite Nat2Z.inj_mul, Z2Nat.id, array_size by lia.
    rewrite Z.mul_comm. apply Z.mul_le_mono_nonneg_l; lia. }
  assert (Hdst : (Z.to_nat (k * run_length ps) * width
                  + Z.to_nat (run_length ps) * width <= length chunkBuffer)%nat).
  { rewrite <- Nat.mul_add_distr_r, <- Z2Nat.inj_add by lia.
    apply Nat2Z.inj_le. rewrite Nat2Z.inj_mul, Z2Nat.id by lia.
    apply Z.le_trans with (Z.of_nat width * volume ps); [|exact Hbuf].
    rewrite Z.mul_comm. apply Z.mul_le_mono_nonneg_l; lia. }
  rewrite (run_copy_ok array chunkBuffer (expected_copy encoder ps k) width
             copy_width);
    rewrite ?Nsrc, ?Ndst; cbn [copy_length expected_copy]; try assumption.
  unfold run_bytes.
  replace ((k + 1) * run_length ps)
    with (k * run_length ps + run_length ps) by ring.
  rewrite Z2Nat.inj_add, Nat.mul_add_distr_r by lia. reflexivity.
Qed.

Lemma run_copies_expected (n : nat) :
  forall (k : Z) (chunkBuffer : list Z),
  0 <= k -> k + Z.of_nat n <= volume ps / run_length ps ->
  Z.of_nat width * volume ps <= Z.of_nat (length chunkBuffer) ->
  run_copies array chunkBuffer
    (map (expected_copy encoder ps) (seqZ k (Z.of_nat n)))
  = Some (take (Z.to_nat (k * run_length ps) * width) chunkBuffer
            ++ concat (map run_bytes (seqZ k (Z.of_nat n)))
            ++ drop (Z.to_nat ((k + Z.of_nat n) * run_length ps) * width)
                 chunkBuffer).
Proof.
  destruct (run_length_divides ps placed_ok placed_grid) as [HL [N HN]].
  assert (EN : volume ps / run_length ps = N) by (rewrite HN; apply Z.div_mul; lia).
  induction n as [|n IH]; intros k chunkBuffer Hk Hn Hbuf.
  - change (Z.of_nat 0) with 0. rewrite seqZ_nil by lia.
    cbn [map run_copies concat app]. rewrite Z.add_0_r, take_drop. reflexivity.
  - rewrite seqZ_cons by lia.
    replace (Z.pred (Z.of_nat (S n))) with (Z.of_nat n) by lia.
    cbn [map run_copies concat].
    rewrite run_expected_copy by lia.
    set (A := take (Z.to_nat (k * run_length ps) * width) chunkBuffer).
    set (C := drop (Z.to_nat ((k + 1) * run_length ps) * width) chunkBuffer).
    assert (H0 : 0 <= k * run_length ps) by (apply Z.mul_nonneg_nonneg; lia).
    assert (H1 : (k + 1) * run_length ps <= volume ps).
    { rewrite HN. apply Z.mul_le_mono_nonneg_r; lia. }
    assert (Enat : (Z.to_nat ((k + 1) * run_length ps) * width
                    = Z.to_nat (k * run_length ps) * width
                      + Z.to_nat (run_length ps) * width)%nat).
    { replace ((k + 1) * run_length ps)
        with (k * run_length ps + run_length ps) by ring.
      rewrite Z2Nat.inj_add by lia. apply Nat.mul_add_distr_r. }
    assert (Hbufn : (Z.to_nat ((k + 1) * run_length ps) * width
                     <= length chunkBuffer)%nat).
    { apply Nat2Z.inj_le. rewrite Nat2Z.inj_mul, Z2Nat.id by lia.
      apply Z.le_trans with (Z.of_nat width * volume ps); [|exact Hbuf].
      rewrite Z.mul_comm. apply Z.mul_le_mono_nonneg_l; lia. }
    assert (LA : length A = (Z.to_nat (k * run_length ps) * width)%nat).
    { unfold A. rewrite length_take. lia. }
    assert (LB : length (run_bytes k) = (Z.to_nat (run_length ps) * width)%nat).
    { unfold run_bytes. rewrite length_take, length_drop.
      destruct (run_in_source k ltac:(lia)) as [S0 S1].
      assert ((Z.to_nat (source_coordinate ps (k * run_length ps)) * width
               + Z.to_nat (run_length ps) * width <= length array)%nat); [|lia].
      rewrite <- Nat.mul_add_distr_r, <- Z2Nat.inj_add by lia.
      apply Nat2Z.inj_le. rewrite Nat2Z.inj_mul, Z2Nat.id, array_size by lia.
      rewrite Z.mul_comm. apply Z.mul_le_mono_nonneg_l; lia. }
    assert (LC : length C = (length chunkBuffer
                             - Z.to_nat ((k + 1) * run_length ps) * width)%nat).
    { unfold C. apply length_drop. }
    rewrite (IH (Z.succ k)); try lia.
    + f_equal. replace (Z.succ k) with (k + 1) by lia.
      rewrite (app_assoc A (run_bytes k) C).
      rewrite take_app_length' by (rewrite length_app; lia).
      assert (ED : drop (Z.to_nat ((k + 1 + Z.of_nat n) * run_length ps) * width)
                     ((A ++ run_bytes k) ++ C)
                   = drop (Z.to_nat ((k + Z.of_nat (S n)) * run_length ps) * width)
                       chunkBuffer).
      { replace ((k + 1 + Z.of_nat n) * run_length ps)
          with ((k + Z.of_nat (S n)) * run_length ps) by (f_equal; lia).
        assert (H2 : (k + Z.of_nat (S n)) * run_length ps
                     = (k + 1) * run_length ps + Z.of_nat n * run_length ps)
          by (rewrite Nat2Z.inj_succ; ring).
        rewrite H2, Z2Nat.inj_add, Nat.mul_add_distr_r by nia.
        rewrite <- (drop_drop ((A ++ run_bytes k) ++ C)).
        rewrite drop_app_length' by (rewrite length_app; lia).
        unfold C. rewrite drop_drop. reflexivity. }
      rewrite ED, <- !app_assoc. reflexivity.
    + rewrite !length_app, LA, LB, LC. lia.
Qed.

Lemma run_bytes_elements (k : Z) :
  0 <= k < volume ps / run_length ps ->
  run_bytes k
  = concat (map (fun w => element width array (source_coordinate ps w))
              (seqZ (k * run_length ps) (run_length ps))).
Proof.
  intros Hk.
  destruct (run_length_divides ps placed_ok placed_grid) as [HL _].
  destruct (run_in_source k Hk) as [S0 S1].
  unfold run_bytes. rewrite take_elements. f_equal.
  replace (seqZ (k * run_length ps) (run_length ps))
    with (seqZ (k * run_length ps) (Z.of_nat (Z.to_nat (run_length ps))))
    by (rewrite Z2Nat.id by lia; reflexivity).
  rewrite map_seqZ, map_seq_from.
  apply map_ext_in. intros i Hi. apply in_seq in Hi.
  unfold element. do 3 f_equal.
  rewrite Z.add_comm, run_affine; try assumption.
  - rewrite Z2Nat.inj_add, Nat2Z.id by lia. reflexivity.
  - apply Z.mul_nonneg_nonneg; lia.
  - apply Z.divide_factor_r.
  - lia.
Qed.

(** The copies of [expected_copies] gather the chunk: they leave its
    elements in row-major order at the start of the chunk buffer. *)
Lemma expected_copies_gather (chunkBuffer : list Z) :
  Z.of_nat width * volume ps <= Z.of_nat (length chunkBuffer) ->
  run_copies array chunkBuffer (expected_copies encoder ps)
  = Some (chunk_elements width array ps
            ++ drop (Z.to_nat (volume ps) * width) chunkBuffer).
Proof.
  intros Hbuf.
  destruct (run_length_divides ps placed_ok placed_grid) as [HL [N HN]].
  destruct (volumes_pos ps placed_ok placed_grid) as (_ & V2 & _).
  assert (EN : volume ps / run_length ps = N) by (rewrite HN; apply Z.div_mul; lia).
  assert (HN0 : 0 <= N) by nia.
  unfold expected_copies.
  rewrite <- (Z2Nat.id (volume ps / run_length ps)) by lia.
  rewrite run_copies_expected; try lia.
  rewrite Z.mul_0_l. change (Z.to_nat 0 * width)%nat with 0%nat.
  rewrite take_0, app_nil_l. f_equal. f_equal.
  - rewrite (map_ext_in run_bytes
               (fun j => concat (map (fun w => element width array
                                                 (source_coordinate ps w))
                                   (seqZ (j * run_length ps) (run_length ps))))).
    + rewrite seqZ_blocks by lia. rewrite Z.mul_0_l, Z2Nat.id, EN, <- HN by lia.
      reflexivity.
    + intros j Hj. apply run_bytes_elements.
      rewrite Z2Nat.id in Hj by lia.
      apply list_elem_of_In, elem_of_seqZ in Hj. lia.
  - rewrite Z.add_0_l, Z2Nat.id, EN, <- HN by lia. reflexivity.
Qed.

End Elements.

(** *** The chunk buffer that [om_encoder_compress_chunk] leaves *)
Section Gathered.
Variable encoder : OmEncoder_t.
Variables arrayDimensions arrayOffset arrayCount : list Z.
Variables chunkIndex chunkIndexOffsetInThisArray : Z.
Variable R : nat.
Hypothesis count_R : dimension_count encoder = Z.of_nat R.
Hypothesis R_pos : (0 < R)%nat.
Hypothesis len_dimensions : length (dimensions encoder) = R.
Hypothesis len_chunks : length (chunks encoder) = R.
Hypothesis len_arrayDimensions : length arrayDimensions = R.
Hypothesis len_arrayOffset : length arrayOffset = R.
Hypothesis len_arrayCount : length arrayCount = R.
Hypothesis chunkIndex_range : 0 <= chunkIndex < 2 ^ 64.
Hypothesis chunkIndexOffset_range : 0 <= chunkIndexOffsetInThisArray < 2 ^ 64.

Let ps : list placed :=
  place chunkIndex chunkIndexOffsetInThisArray 1
    (inner_first encoder arrayDimensions arrayOffset arrayCount).

Hypothesis ps_ok : Forall axis_ok ps.
Hypothesis grid_fits : grid_volume ps < 2 ^ 64.
Hypothesis source_fits : source_volume ps <= 2 ^ 63.

Variable width : nat.
Variable array : list Z.
Hypothesis copy_width : straight_copy (compress_copy_callback encoder) = Some width.
Hypothesis source_width : bytes_per_element encoder = Z.of_nat width.
Hypothesis target_width : bytes_per_element_compressed encoder = Z.of_nat width.
Hypothesis array_size :
  Z.of_nat (length array) = Z.of_nat width * product arrayDimensions.
Hypothesis array_fits : Z.of_nat (length array) < 2 ^ 64.

(** X2. The chunk buffer that the copy calls of [om_encoder_compress_chunk]
    leave.  The call has [dimension_count >= 1] and arrays of
    [dimension_count] elements, [chunkIndex] and
    [chunkIndexOffsetInThisArray] in [uint64_t], axes that all satisfy
    [axis_ok], fewer than [2^64] chunks in the file, at most [2^63]
    elements in the source array, and room for one iteration per run.  The
    copy callback of the encoder is the straight copy of its element width
    ([om_common_copy8], [16], [32], [64] with [bytes_per_element =
    bytes_per_element_compressed] = 1, 2, 4, 8), the source array has
    [width * product(arrayDimensions)] bytes, fewer than [2^64], and the
    chunk buffer at least [width * volume] bytes.  Then the call returns,
    and its copy calls, run on the bytes of the two buffers, leave in the
    chunk buffer the elements of the chunk in row-major order, each one
    taken from its place in the source array; the bytes of the buffer past
    the chunk stay as they were. *)
Theorem copies_gather_row_major (chunkBuffer : list Z) (fuel : nat) :
  (Z.to_nat (volume ps / run_length ps) <= fuel)%nat ->
  Z.of_nat width * volume ps <= Z.of_nat (length chunkBuffer) ->
  gathered encoder array arrayDimensions arrayOffset arrayCount
    chunkIndex chunkIndexOffsetInThisArray chunkBuffer fuel
  = Returned (chunk_elements width array ps
                ++ drop (Z.to_nat (volume ps) * width) chunkBuffer).
Proof.
  intros Hfuel Hbuf. unfold gathered.
  rewrite (compress_chunk_returns encoder arrayDimensions arrayOffset arrayCount
             chunkIndex chunkIndexOffsetInThisArray R count_R R_pos
             len_dimensions len_chunks len_arrayDimensions len_arrayOffset
             len_arrayCount chunkIndex_range chunkIndexOffset_range
             ps_ok grid_fits source_fits fuel Hfuel).
  cbn [mbind outcome_bind]. fold ps.
  assert (Hsize : Z.of_nat (length array) = Z.of_nat width * source_volume ps).
  { rewrite array_size. f_equal. symmetry.
    apply (source_volume_arrayDimensions encoder arrayDimensions arrayOffset
             arrayCount chunkIndex chunkIndexOffsetInThisArray R count_R
             len_arrayDimensions). }
  assert (Hg : Forall in_grid ps)
    by (apply place_in_grid; [lia|exact ps_ok]).
  cbn [copies expected_calls].
  rewrite (expected_copies_gather encoder ps width array copy_width
             source_width target_width ps_ok Hg Hsize array_fits chunkBuffer Hbuf).
  reflexivity.
Qed.

End Gathered.

(** The last chunk of a 4 x 6 file array in chunks of 2 x 3, from the rows
    2..5 and the columns 3..8 of a 10 x 10 source array of bytes whose
    element [k] holds [k]. *)
Lemma copies_gather_row_major_witness :
  let encoder :=
    snd (om_encoder_init zeroed (S754_zero false) (S754_zero false)
           COMPRESSION_PFOR_DELTA2D DATA_TYPE_UINT8_ARRAY [4; 6] [2; 3] 2) in
  let ps := place 3 3 1 (inner_first encoder [10; 10] [2; 3] [4; 6]) in
  let array := seqZ 0 100 in
  Forall axis_ok ps /\
  chunk_elements 1 array ps = [46; 47; 48; 56; 57; 58] /\
  gathered encoder array [10; 10] [2; 3] [4; 6] 3 3 [0; 0; 0; 0; 0; 0; 0; 0] 2
  = Returned (chunk_elements 1 array ps ++ [0; 0]).
Proof.
  intros encoder ps array.
  assert (Hok : Forall axis_ok ps).
  { apply List.Forall_cons; [|apply List.Forall_cons; [|apply List.Forall_nil]];
      vm_compute; repeat split; try discriminate;
      first [left; reflexivity|right; reflexivity]. }
  split; [exact Hok|]. split; [vm_compute; reflexivity|].
  apply (copies_gather_row_major encoder [10; 10] [2; 3] [4; 6] 3 3 2%nat);
    try exact Hok; try (vm_compute; reflexivity); try (vm_compute; lia);
    vm_compute; repeat split; try discriminate; reflexivity.
Defined.

End ChunkGatherFacts.

(** ** The loops of om_common.c in closed form *)

Module OmCommonLoops.
Import MachInt IEEE OmCommon OmCommonFacts ChunkGatherFacts.
Local Open Scope nat_scope.

Lemma copy_loop_short (width : nat) (src : list Z) (n : nat) :
  forall (i : nat) (dst : list Z),
  0 < n ->
  ~ ((i + n) * width <= length src /\ (i + n) * width <= length dst) ->
  copy_loop width n i src dst = None.
Proof.
  induction n as [|n IH]; intros i dst Hn Hshort; [lia|].
  cbn [copy_loop]. unfold copy_element.
  destruct (decide _) as [[Hs Hd]|Hbad]; [|reflexivity].
  destruct n as [|n].
  - exfalso. apply Hshort. lia.
  - apply IH; [lia|].
    rewrite !length_app, !length_take, !length_drop.
    intros [H1 H2]. apply Hshort. lia.
Qed.

Lemma copy_loop_bytes (width : nat) (n : nat) (src dst : list Z) :
  copy_loop width n 0 src dst
  = if decide (n * width <= length src /\ n * width <= length dst)
    then Some (take (n * width) src ++ drop (n * width) dst)
    else None.
Proof.
  case_decide as H.
  - rewrite copy_loop_ok by lia. cbn [Nat.mul Nat.add].
    rewrite take_0, drop_0. reflexivity.
  - destruct n as [|n]; [exfalso; apply H; simpl; lia|].
    apply copy_loop_short; [lia|exact H].
Qed.

(** X7. [om_common_copy8], [16], [32] and [64] called with [length] move
    the first [length] elements of 1, 2, 4 and 8 bytes from [src] to [dst]
    and leave the rest of [dst] as it was, whatever [scale_factor] and
    [add_offset] are; a call has no defined result exactly when one of the
    two buffers is shorter than that. *)
Theorem straight_copies_move_bytes (length : Z)
    (scale_factor add_offset : spec_float) (src dst : list Z) :
  let n := Z.to_nat length in
  let moved (width : nat) :=
    if decide (n * width <= List.length src /\ n * width <= List.length dst)
    then Some (take (n * width) src ++ drop (n * width) dst)
    else None in
  om_common_copy8 length scale_factor add_offset src dst = moved 1 /\
  om_common_copy16 length scale_factor add_offset src dst = moved 2 /\
  om_common_copy32 length scale_factor add_offset src dst = moved 4 /\
  om_common_copy64 length scale_factor add_offset src dst = moved 8.
Proof.
  intros n moved. subst n moved. cbv beta.
  unfold om_common_copy8, om_common_copy16, om_common_copy32, om_common_copy64.
  repeat split; apply copy_loop_bytes.
Qed.

Section ElementLoopClosed.
Context {A B : Type} (body : A -> option B).

Lemma element_loop_short (n i : nat) (src : list A) (dst : list B) :
  0 < n -> ~ (i + n <= length src /\ i + n <= length dst) ->
  element_loop body n i src dst = None.
Proof.
  revert i dst. induction n as [|n IH]; intros i dst Hn Hshort; [lia|].
  cbn [element_loop].
  destruct (src !! i) as [val|] eqn:Hsrc; [|reflexivity].
  destruct (body val) as [r|]; [|reflexivity].
  case_decide as Hi; [|reflexivity].
  apply lookup_lt_Some in Hsrc.
  destruct n as [|n]; [exfalso; apply Hshort; lia|].
  apply IH; [lia|]. rewrite length_insert. intros [H1 H2]. apply Hshort. lia.
Qed.

Lemma element_loop_mapM (n : nat) (src : list A) :
  forall (i : nat) (dst : list B),
  i + n <= length src -> i + n <= length dst ->
  element_loop body n i src dst
  = rs ← mapM body (take n (drop i src));
    Some (take i dst ++ rs ++ drop (i + n) dst).
Proof.
  induction n as [|n IH]; intros i dst Hs Hd.
  - rewrite Nat.add_0_r. simpl. rewrite take_drop. reflexivity.
  - cbn [element_loop].
    destruct (lookup_lt_is_Some_2 src i) as [val Hval]; [lia|].
    rewrite Hval.
    rewrite (drop_S src val i Hval). cbn [take mapM].
    destruct (body val) as [r|] eqn:Hr; [|reflexivity].
    rewrite decide_True by lia.
    rewrite IH by (rewrite ?length_insert; lia).
    cbn [mbind option_bind].
    destruct (mapM body (take n (drop (S i) src))) as [rs|]; [|reflexivity].
    cbn. f_equal.
    rewrite take_S_r with (x := r) by (apply list_lookup_insert_eq; lia).
    rewrite take_insert_ge by lia.
    rewrite drop_insert_lt by lia.
    rewrite <- app_assoc. cbn [app].
    replace (i + S n) with (S (i + n)) by lia. reflexivity.
Qed.

Lemma element_loop_closed (n : nat) (src : list A) (dst : list B) :
  element_loop body n 0 src dst
  = if decide (n <= length src /\ n <= length dst)
    then rs ← mapM body (take n src); Some (rs ++ drop n dst)
    else None.
Proof.
  case_decide as H.
  - rewrite element_loop_mapM by lia. rewrite drop_0. reflexivity.
  - destruct n as [|n]; [exfalso; apply H; lia|].
    apply element_loop_short; [lia|exact H].
Qed.

End ElementLoopClosed.

Lemma mapM_Some_total {A B : Type} (f : A -> B) (l : list A) :
  mapM (fun x => Some (f x)) l = Some (map f l).
Proof. induction l as [|x l IH]; [reflexivity|]. cbn. rewrite IH. reflexivity. Qed.

(** X8. Every quantiser and every dequantiser of [om_common.c] converts
    the first [length] elements of [src] one by one into the first [length]
    elements of [dst] and leaves the rest of [dst] as it was.  A call has no
    defined result exactly when a buffer holds fewer than [length] elements
    or, for a quantiser, when the conversion of one of these elements to the
    integer type has none. *)
Theorem converters_elementwise (log10f : spec_float -> spec_float)
    (powf : spec_float -> spec_float -> spec_float)
    (length : Z) (scale_factor add_offset : spec_float) :
  let n := Z.to_nat length in
  let quantised (body : spec_float -> option Z)
        (src : list spec_float) (dst : list Z) :=
    if decide (n <= List.length src /\ n <= List.length dst)
    then rs ← mapM body (take n src); Some (rs ++ drop n dst)
    else None in
  let dequantised (body : Z -> spec_float)
        (src : list Z) (dst : list spec_float) :=
    if decide (n <= List.length src /\ n <= List.length dst)
    then Some (map body (take n src) ++ drop n dst)
    else None in
  (forall src dst,
     om_common_copy_float_to_int16 length scale_factor add_offset src dst
     = quantised (float_to_int16 scale_factor add_offset) src dst) /\
  (forall src dst,
     om_common_copy_float_to_int32 length scale_factor add_offset src dst
     = quantised (float_to_int32 scale_factor add_offset) src dst) /\
  (forall src dst,
     om_common_copy_double_to_int64 length scale_factor add_offset src dst
     = quantised (double_to_int64 scale_factor add_offset) src dst) /\
  (forall src dst,
     om_common_copy_float_to_int16_log10 log10f length scale_factor add_offset
       src dst
     = quantised (float_to_int16_log10 log10f scale_factor add_offset) src dst) /\
  (forall src dst,
     om_common_copy_int16_to_float length scale_factor add_offset src dst
     = dequantised (int16_to_float scale_factor add_offset) src dst) /\
  (forall src dst,
     om_common_copy_int32_to_float length scale_factor add_offset src dst
     = dequantised (int32_to_float scale_factor add_offset) src dst) /\
  (forall src dst,
     om_common_copy_int64_to_double length scale_factor add_offset src dst
     = dequantised (int64_to_double scale_factor add_offset) src dst) /\
  (forall src dst,
     om_common_copy_int16_to_float_log10 powf length scale_factor add_offset
       src dst
     = dequantised (int16_to_float_log10 powf scale_factor add_offset) src dst).
Proof.
  intros n quantised dequantised. subst quantised dequantised. cbv beta.
  assert (D : forall (body : Z -> spec_float) src dst,
            element_loop (fun val => Some (body val)) n 0 src dst
            = if decide (n <= List.length src /\ n <= List.length dst)
              then Some (map body (take n src) ++ drop n dst)
              else None).
  { intros body src dst. rewrite element_loop_closed.
    case_decide; [|reflexivity]. rewrite mapM_Some_total. reflexivity. }
  split; [intros src dst; apply element_loop_closed|].
  split; [intros src dst; apply element_loop_closed|].
  split; [intros src dst; apply element_loop_closed|].
  split; [intros src dst; apply element_loop_closed|].
  split; [intros src dst; apply D|].
  split; [intros src dst; apply D|].
  split; [intros src dst; apply D|].
  intros src dst. apply D.
Qed.

End OmCommonLoops.

(** ** Where the quantisers of om_common.c have a result *)

Module QuantiserFacts.
Import MachInt MachIntFacts IEEE OmCommon OmCommonFacts.
Local Open Scope Z_scope.

(** The magnitude of the integral part of [m * 2^e]. *)
Lemma magnitude_bound (p k : Z) (m : positive) (e : Z) :
  0 <= p -> 0 <= p + k -> Zpos m < 2 ^ p -> e <= k ->
  0 <= (if 0 <=? e then Zpos m * 2 ^ e else Zpos m / 2 ^ (- e)) < 2 ^ (p + k).
Proof.
  intros Hp Hpk Hm He. destruct (Z.leb_spec 0 e) as [H0|H0].
  - assert (H1 : 0 < 2 ^ e) by (apply Z.pow_pos_nonneg; lia).
    assert (H2 : 2 ^ e <= 2 ^ k) by (apply Z.pow_le_mono_r; lia).
    assert (H3 : 0 < 2 ^ p) by (apply Z.pow_pos_nonneg; lia).
    rewrite Z.pow_add_r by lia. split; [nia|].
    apply Z.lt_le_trans with (2 ^ p * 2 ^ e); [nia|].
    apply Z.mul_le_mono_nonneg_l; lia.
  - assert (H1 : 0 < 2 ^ (- e)) by (apply Z.pow_pos_nonneg; lia).
    split; [apply Z.div_pos; lia|].
    apply Z.div_lt_upper_bound; [exact H1|].
    rewrite <- Z.pow_add_r by lia.
    apply Z.lt_le_trans with (2 ^ p); [exact Hm|].
    apply Z.pow_le_mono_r; lia.
Qed.

Lemma to_int_finite (W : Z) (s : bool) (m : positive) (e : Z) :
  let a := if 0 <=? e then Zpos m * 2 ^ e else Zpos m / 2 ^ (- e) in
  0 <= a < 2 ^ (W - 1) ->
  to_int W (S754_finite s m e) = Some (if s then - a else a)
  /\ in_range W (if s then - a else a).
Proof.
  intros a Ha. unfold to_int, trunc. fold a.
  assert (R : in_range W (if s then - a else a))
    by (unfold in_range; destruct s; lia).
  split; [|exact R]. unfold in_range in R.
  destruct (Z.leb_spec (- 2 ^ (W - 1)) (if s then - a else a)); [|lia].
  destruct (Z.ltb_spec (if s then - a else a) (2 ^ (W - 1))); [reflexivity|lia].
Qed.

Section Clamp.
Variables (fmt : format) (W : Z).
Variables (mM : positive) (eM : Z) (mN : positive) (eN : Z).
Let MAXf := S754_finite false mM eM.
Let MINf := S754_finite true mN eN.
Let magnitude (m : positive) (e : Z) : Z :=
  if 0 <=? e then Zpos m * 2 ^ e else Zpos m / 2 ^ (- e).
Hypothesis W_pos : 0 < W.
Hypothesis prec_nonneg : 0 <= prec fmt.
Hypothesis below_eM : 0 <= prec fmt + (eM - 1) <= W - 1.
Hypothesis below_eN : 0 <= prec fmt + (eN - 1) <= W - 1.
Hypothesis at_eM :
  forall m, Zpos m < Zpos mM -> 0 <= magnitude m eM < 2 ^ (W - 1).
Hypothesis at_eN :
  forall m, Zpos m < Zpos mN -> 0 <= magnitude m eN < 2 ^ (W - 1).
Hypothesis at_MIN : to_int W MINf = Some (- 2 ^ (W - 1)).

Lemma clamp_above (r : spec_float) :
  SFltb r MAXf = false -> fmax MINf (fmin MAXf r) = MAXf.
Proof.
  intros H. assert (E : fmin MAXf r = MAXf).
  { unfold fmin, MAXf in *. destruct r; try reflexivity; rewrite H; reflexivity. }
  rewrite E. reflexivity.
Qed.

Lemma small_magnitude (m : positive) (e k : Z) :
  Zpos m < 2 ^ prec fmt -> 0 <= prec fmt + k <= W - 1 -> e <= k ->
  0 <= magnitude m e < 2 ^ (W - 1).
Proof.
  intros Hm Hk He.
  destruct (magnitude_bound (prec fmt) k m e prec_nonneg ltac:(lia) Hm He) as [H0 H1].
  split; [exact H0|].
  apply Z.lt_le_trans with (2 ^ (prec fmt + k)); [exact H1|].
  apply Z.pow_le_mono_r; lia.
Qed.

Lemma clamp_below (r : spec_float) :
  mantissa_fits fmt r -> SFltb r MAXf = true ->
  exists v, to_int W (fmax MINf (fmin MAXf r)) = Some v /\ in_range W v.
Proof.
  intros Hfit Hlt.
  assert (P2 : 0 < 2 ^ (W - 1)) by (apply Z.pow_pos_nonneg; lia).
  assert (Hmin : exists v, to_int W MINf = Some v /\ in_range W v).
  { exists (- 2 ^ (W - 1)). split; [exact at_MIN|]. unfold in_range. lia. }
  destruct r as [s|s| |s m e].
  - (* zero *)
    exists 0. split; [|unfold in_range; lia].
    unfold fmin, fmax, MAXf, MINf. cbn.
    unfold to_int. cbn [trunc].
    destruct (Z.leb_spec (- 2 ^ (W - 1)) 0); [|lia].
    destruct (Z.ltb_spec 0 (2 ^ (W - 1))); [reflexivity|lia].
  - (* infinity *)
    destruct s; [|discriminate Hlt]. exact Hmin.
  - discriminate Hlt.
  - cbn [mantissa_fits] in Hfit. destruct s.
    + (* negative *)
      assert (E : fmin MAXf (S754_finite true m e) = S754_finite true m e)
        by reflexivity.
      rewrite E. unfold fmax, MINf, SFltb, SFcompare.
      destruct (Z.compare_spec eN e) as [He|He|He].
      * subst e. rewrite Pos.compare_cont_spec. cbn [Pos.switch_Eq].
        destruct (Pos.compare_spec mN m) as [Hm|Hm|Hm]; cbn [CompOpp];
          try exact Hmin.
        destruct (to_int_finite W true m eN
                      (at_eN m (Pos2Z.pos_lt_pos _ _ Hm))) as [Ei Hr].
        eexists. split; [exact Ei|exact Hr].
      * exact Hmin.
      * destruct (to_int_finite W true m e
                    (small_magnitude m e (eN - 1) Hfit below_eN ltac:(lia)))
          as [Ei Hr].
        eexists. split; [exact Ei|exact Hr].
    + (* positive *)
      unfold SFltb, SFcompare, MAXf in Hlt.
      assert (E : fmax MINf (fmin MAXf (S754_finite false m e))
                  = S754_finite false m e).
      { unfold fmin, MAXf, SFltb, SFcompare.
        destruct (e ?= eM); try discriminate Hlt;
          [destruct (Pos.compare_cont Eq m mM); try discriminate Hlt|];
          reflexivity. }
      rewrite E.
      destruct (Z.compare_spec e eM) as [He|He|He]; [| |discriminate Hlt].
      * subst e. rewrite Pos.compare_cont_spec in Hlt. cbn [Pos.switch_Eq] in Hlt.
        destruct (Pos.compare_spec m mM) as [Hm|Hm|Hm]; try discriminate Hlt.
        destruct (to_int_finite W false m eM
                      (at_eM m (Pos2Z.pos_lt_pos _ _ Hm))) as [Ei Hr].
        eexists. split; [exact Ei|exact Hr].
      * destruct (to_int_finite W false m e
                    (small_magnitude m e (eM - 1) Hfit below_eM ltac:(lia)))
          as [Ei Hr].
        eexists. split; [exact Ei|exact Hr].
Qed.

End Clamp.

Ltac clamp_side :=
  match goal with
  | |- forall m : positive, _ => idtac
  | |- to_int _ _ = _ => vm_compute; reflexivity
  | |- _ => cbn [prec binary32 binary64]; lia
  end.

Lemma clamp16 (r : spec_float) :
  mantissa_fits binary32 r ->
  exists v, to_int 16 (fmax (of_int binary32 INT16_MIN)
                         (fmin (of_int binary32 INT16_MAX) r)) = Some v
            /\ in_range 16 v.
Proof.
  intros Hfit.
  change (of_int binary32 INT16_MAX) with (S754_finite false 16776704 (-9)).
  change (of_int binary32 INT16_MIN) with (S754_finite true 8388608 (-8)).
  destruct (SFltb r (S754_finite false 16776704 (-9))) eqn:Hlt.
  - apply (clamp_below binary32 16 16776704 (-9) 8388608 (-8));
      try assumption; clamp_side.
    + intros m Hm. change (0 <=? -9) with false. cbv iota.
      change (2 ^ (- (-9))) with 512. change (2 ^ (16 - 1)) with 32768.
      split; [apply Z.div_pos; lia|apply Z.div_lt_upper_bound; lia].
    + intros m Hm. change (0 <=? -8) with false. cbv iota.
      change (2 ^ (- (-8))) with 256. change (2 ^ (16 - 1)) with 32768.
      split; [apply Z.div_pos; lia|apply Z.div_lt_upper_bound; lia].
  - rewrite clamp_above by exact Hlt.
    exists 32767. split; [vm_compute; reflexivity|unfold in_range; lia].
Qed.

Lemma clamp32 (r : spec_float) :
  mantissa_fits binary32 r -> SFltb r (of_int binary32 INT32_MAX) = true ->
  exists v, to_int 32 (fmax (of_int binary32 INT32_MIN)
                         (fmin (of_int binary32 INT32_MAX) r)) = Some v
            /\ in_range 32 v.
Proof.
  change (of_int binary32 INT32_MAX) with (S754_finite false 8388608 8).
  change (of_int binary32 INT32_MIN) with (S754_finite true 8388608 8).
  intros Hfit Hlt.
  apply (clamp_below binary32 32 8388608 8 8388608 8);
    try assumption; clamp_side;
    intros m Hm; change (0 <=? 8) with true; cbv iota;
    change (2 ^ 8) with 256; change (2 ^ (32 - 1)) with 2147483648; lia.
Qed.

Lemma clamp64 (r : spec_float) :
  mantissa_fits binary64 r -> SFltb r (of_int binary64 INT64_MAX) = true ->
  exists v, to_int 64 (fmax (of_int binary64 INT64_MIN)
                         (fmin (of_int binary64 INT64_MAX) r)) = Some v
            /\ in_range 64 v.
Proof.
  change (of_int binary64 INT64_MAX) with (S754_finite false 4503599627370496 11).
  change (of_int binary64 INT64_MIN) with (S754_finite true 4503599627370496 11).
  intros Hfit Hlt.
  apply (clamp_below binary64 64 4503599627370496 11 4503599627370496 11);
    try assumption; clamp_side;
    intros m Hm; change (0 <=? 11) with true; cbv iota;
    change (2 ^ 11) with 2048; change (2 ^ (64 - 1)) with 9223372036854775808;
    lia.
Qed.

(** X20. For a value that is not NaN and whose scaled and rounded value
    [r] is a value of its format, the two 16-bit quantisers always have a
    result, an [int16_t]; the 32-bit and the 64-bit quantiser have a
    result, in the range of their integer type, when [r] is less than the
    upper bound of the clamp ([(float)INT32_MAX], [(double)INT64_MAX]), and
    have none when it is not (when [r] reaches the bound, or is NaN as for
    [inf * 0]). *)
Theorem quantisers_defined_below_bound (log10f : spec_float -> spec_float)
    (scale_factor add_offset val : spec_float) :
  isnan val = false ->
  let r32 := round binary32
               (add binary32 (mul binary32 val scale_factor) add_offset) in
  let rlog := round binary32
                (mul binary32
                   (log10f (add binary32 (of_int binary32 1) val))
                   scale_factor) in
  let r64 := round binary64
               (add binary64 (mul binary64 val (to_double scale_factor))
                  (to_double add_offset)) in
  (mantissa_fits binary32 r32 ->
   exists v, float_to_int16 scale_factor add_offset val = Some v
             /\ in_range 16 v) /\
  (mantissa_fits binary32 rlog ->
   exists v, float_to_int16_log10 log10f scale_factor add_offset val = Some v
             /\ in_range 16 v) /\
  (mantissa_fits binary32 r32 ->
   SFltb r32 (of_int binary32 INT32_MAX) = true ->
   exists v, float_to_int32 scale_factor add_offset val = Some v
             /\ in_range 32 v) /\
  (SFltb r32 (of_int binary32 INT32_MAX) = false ->
   float_to_int32 scale_factor add_offset val = None) /\
  (mantissa_fits binary64 r64 ->
   SFltb r64 (of_int binary64 INT64_MAX) = true ->
   exists v, double_to_int64 scale_factor add_offset val = Some v
             /\ in_range 64 v) /\
  (SFltb r64 (of_int binary64 INT64_MAX) = false ->
   double_to_int64 scale_factor add_offset val = None).
Proof.
  intros Hnan r32 rlog r64.
  unfold float_to_int16, float_to_int16_log10, float_to_int32, double_to_int64.
  rewrite Hnan. fold r32. fold rlog. fold r64.
  split; [apply clamp16|]. split; [apply clamp16|].
  split; [apply clamp32|]. split.
  - intros Hlt.
    change (of_int binary32 INT32_MAX) with (S754_finite false 8388608 8) in *.
    change (of_int binary32 INT32_MIN) with (S754_finite true 8388608 8).
    rewrite clamp_above by exact Hlt. vm_compute. reflexivity.
  - split; [apply clamp64|]. intros Hlt.
    change (of_int binary64 INT64_MAX)
      with (S754_finite false 4503599627370496 11) in *.
    change (of_int binary64 INT64_MIN)
      with (S754_finite true 4503599627370496 11).
    rewrite clamp_above by exact Hlt. vm_compute. reflexivity.
Qed.

(** [-4000] with [scale_factor = 10]: clamped to [INT16_MIN] on the 16-bit
    path, [-40000] on the 32-bit path. *)
Lemma quantisers_defined_below_bound_witness :
  float_to_int16 (of_int binary32 10) (S754_zero false) (of_int binary32 (-4000))
    = Some (-32768) /\
  (exists v, float_to_int16 (of_int binary32 10) (S754_zero false)
               (of_int binary32 (-4000)) = Some v /\ in_range 16 v) /\
  float_to_int32 (of_int binary32 10) (S754_zero false) (of_int binary32 (-4000))
    = Some (-40000) /\
  (exists v, float_to_int32 (of_int binary32 10) (S754_zero false)
               (of_int binary32 (-4000)) = Some v /\ in_range 32 v).
Proof.
  pose proof (quantisers_defined_below_bound (fun x => x) (of_int binary32 10)
                (S754_zero false) (of_int binary32 (-4000)) eq_refl)
    as (H16 & _ & H32 & _).
  split; [vm_compute; reflexivity|].
  split; [apply H16; vm_compute; reflexivity|].
  split; [vm_compute; reflexivity|].
  apply H32; vm_compute; reflexivity.
Defined.

End QuantiserFacts.

(** ** The sizing functions of om_encoder.c *)

Module SizingFacts.
Import MachInt IEEE OmCommon OmEncoder ChunkGather ChunkGatherFacts.
Local Open Scope Z_scope.

Lemma divide_rounded_up_nonzero (a b : Z) :
  b <> 0 -> divide_rounded_up a b = Returned ((a + b - 1) / b).
Proof. intros H. unfold divide_rounded_up. apply div64_nonzero. exact H. Qed.

Lemma ceiling_nonneg (d c : Z) : 0 <= d -> 1 <= c -> 0 <= (d + c - 1) / c.
Proof. intros. apply Z.div_pos; lia. Qed.

Lemma ceiling_mono (a d c : Z) :
  a <= d -> 1 <= c -> (a + c - 1) / c <= (d + c - 1) / c.
Proof. intros. apply Z.div_le_mono; lia. Qed.

Lemma product_nonneg (l : list Z) : Forall (fun x => 0 <= x) l -> 0 <= product l.
Proof.
  induction 1 as [|x l Hx _ IH]; cbn [product fold_right]; [lia|].
  fold (product l). apply Z.mul_nonneg_nonneg; assumption.
Qed.

Lemma product_le (l l' : list Z) :
  Forall2 (fun x y => 0 <= x <= y) l l' -> 0 <= product l <= product l'.
Proof.
  induction 1 as [|x y l l' Hxy _ IH]; cbn [product fold_right]; [lia|].
  fold (product l). fold (product l'). split; [nia|].
  apply Z.mul_le_mono_nonneg; lia.
Qed.

Section CountLoop.
Variable encoder : OmEncoder_t.
Variable array : list Z.
Hypothesis lengths : length array = length (chunks encoder).
Hypothesis nonneg : Forall (fun d => 0 <= d) array.
Hypothesis chunks_pos : Forall (fun c => 1 <= c) (chunks encoder).

Let grid : list Z :=
  zip_with (fun d c => (d + c - 1) / c) array (chunks encoder).

Lemma grid_nonneg (i : nat) : 0 <= product (drop i grid).
Proof.
  apply product_nonneg. apply Forall_drop. unfold grid.
  apply Forall_lookup. intros k x Hx.
  apply lookup_zip_with_Some in Hx. destruct Hx as (d & c & -> & Hd & Hc).
  rewrite Forall_lookup in nonneg, chunks_pos.
  apply ceiling_nonneg; [apply (nonneg k d Hd)|apply (chunks_pos k c Hc)].
Qed.

Lemma count_loop_ok (n : nat) :
  forall (i : nat) (acc : Z),
  (i + n = length array)%nat -> 0 <= acc < 2 ^ 64 ->
  count_loop encoder array (seq i n) acc
  = Returned (u64 (acc * product (drop i grid))).
Proof.
  induction n as [|n IH]; intros i acc Hi Hacc.
  - cbn [seq count_loop]. rewrite drop_ge.
    + cbn [product fold_right]. rewrite Z.mul_1_r, u64_small by exact Hacc.
      reflexivity.
    + unfold grid. rewrite length_zip_with. lia.
  - cbn [seq count_loop].
    rewrite !read_in_range by lia. cbn [mbind outcome_bind].
    assert (Hc : 1 <= chunks encoder !!! i).
    { rewrite Forall_lookup in chunks_pos. apply (chunks_pos i).
      apply list_lookup_lookup_total_lt. lia. }
    rewrite divide_rounded_up_nonzero by lia. cbn [mbind outcome_bind].
    set (k := (array !!! i + chunks encoder !!! i - 1) / chunks encoder !!! i).
    assert (Hg : grid !! i = Some k).
    { unfold grid. apply lookup_zip_with_Some.
      exists (array !!! i), (chunks encoder !!! i).
      split; [reflexivity|].
      split; apply list_lookup_lookup_total_lt; lia. }
    rewrite (drop_S grid k i Hg).
    cbn [product fold_right]. fold (product (drop (S i) grid)).
    rewrite IH.
    + f_equal. unfold mul64, u64.
      rewrite Z.mul_mod_idemp_l by lia. f_equal. ring.
    + lia.
    + unfold mul64, u64. apply Z.mod_pos_bound. lia.
Qed.

Lemma count_loop_all :
  count_loop encoder array (seq 0 (length array)) 1
  = Returned (u64 (product grid)).
Proof.
  rewrite count_loop_ok by lia. rewrite drop_0, Z.mul_1_l. reflexivity.
Qed.

End CountLoop.

Section ChunkLength.
Variable encoder : OmEncoder_t.

Lemma chunk_length_loop_ok (n : nat) :
  forall (i : nat) (acc : Z),
  (i + n = length (chunks encoder))%nat -> 0 <= acc < 2 ^ 64 ->
  chunk_length_loop encoder (seq i n) acc
  = Returned (u64 (acc * product (drop i (chunks encoder)))).
Proof.
  induction n as [|n IH]; intros i acc Hi Hacc.
  - cbn [seq chunk_length_loop]. rewrite drop_ge by lia.
    cbn [product fold_right]. rewrite Z.mul_1_r, u64_small by exact Hacc.
    reflexivity.
  - cbn [seq chunk_length_loop].
    rewrite read_in_range by lia. cbn [mbind outcome_bind].
    rewrite (drop_S (chunks encoder) (chunks encoder !!! i) i)
      by (apply list_lookup_lookup_total_lt; lia).
    cbn [product fold_right]. fold (product (drop (S i) (chunks encoder))).
    rewrite IH.
    + f_equal. unfold mul64, u64.
      rewrite Z.mul_mod_idemp_l by lia. f_equal. ring.
    + lia.
    + unfold mul64, u64. apply Z.mod_pos_bound. lia.
Qed.

End ChunkLength.

Lemma grid_volume_product (ps : list placed) :
  grid_volume ps = product (map chunks_along (map pl_axis ps)).
Proof.
  induction ps as [|p ps IH]; [reflexivity|].
  cbn [grid_volume map product fold_right].
  fold (grid_volume ps). fold (product (map chunks_along (map pl_axis ps))).
  rewrite IH. reflexivity.
Qed.

Lemma volume_le_chunks (ps : list placed) :
  Forall (fun p : placed => 1 <= ax_chunk p /\ 1 <= ax_dimension p
                            /\ 0 <= pl_c0 p < chunks_along p) ps ->
  1 <= volume ps <= product (map ax_chunk (map pl_axis ps)).
Proof.
  induction 1 as [|p ps (Hc & Hd & Hc0) _ IH]; [cbn; lia|].
  destruct (extent_bounds p Hc Hd Hc0) as [He _].
  cbn [volume map product fold_right].
  fold (volume ps). fold (product (map ax_chunk (map pl_axis ps))).
  split; [nia|]. apply Z.mul_le_mono_nonneg; lia.
Qed.

Lemma place_number (ci co : Z) (axes : list axis) :
  forall rolling : Z,
  0 < rolling ->
  Forall (fun a => 1 <= chunks_along a) axes ->
  chunk_number (place ci co rolling axes)
  = (ci / rolling) mod product (map chunks_along axes).
Proof.
  induction axes as [|a axes IH]; intros rolling Hr Hpos.
  - cbn. rewrite Z.mod_1_r. reflexivity.
  - inversion Hpos as [|? ? Ha Hpos']; subst.
    cbn [place chunk_number fold_right map product pl_c0 pl_axis].
    fold (chunk_number (place ci co (rolling * chunks_along a) axes)).
    fold (product (map chunks_along axes)).
    rewrite IH by (assumption || nia).
    pose proof (product_pos _ ltac:(apply Forall_map; exact Hpos')) as HP.
    rewrite Z.rem_mul_r by lia.
    rewrite Zdiv_Zdiv by lia. reflexivity.
Qed.

Lemma place_coordinates (ci co : Z) (axes : list axis) :
  forall rolling : Z,
  Forall (fun a => 1 <= chunks_along a) axes ->
  Forall (fun p : placed => 0 <= pl_c0 p < chunks_along p)
    (place ci co rolling axes).
Proof.
  induction axes as [|a axes IH]; intros rolling Hpos; [constructor|].
  inversion Hpos as [|? ? Ha Hpos']; subst.
  cbn [place]. constructor; [|apply IH; exact Hpos'].
  cbn [pl_c0 pl_axis]. apply Z.mod_pos_bound. lia.
Qed.

(** Along an axis of a call on the whole file array every chunk of the
    file's grid is a chunk of the array. *)
Lemma whole_axis_ok (a : axis) (c0 : Z) :
  1 <= ax_chunk a -> 1 <= ax_dimension a ->
  ax_dimension a + ax_chunk a <= 2 ^ 64 ->
  ax_arrayDimension a = ax_dimension a -> ax_arrayCount a = ax_dimension a ->
  ax_arrayOffset a = 0 ->
  axis_ok {| pl_axis := a; pl_c0 := c0; pl_c0Offset := c0 |}.
Proof.
  intros Hc Hd Hg Ead Eac Eao.
  unfold axis_ok, extent, origin. cbn [pl_axis pl_c0 pl_c0Offset].
  rewrite Ead, Eac, Eao.
  repeat split; lia.
Qed.

Lemma whole_axes_ok (ci : Z) (axes : list axis) :
  forall rolling : Z,
  Forall (fun a => 1 <= ax_chunk a /\ 1 <= ax_dimension a /\
                   ax_dimension a + ax_chunk a <= 2 ^ 64 /\
                   ax_arrayDimension a = ax_dimension a /\
                   ax_arrayCount a = ax_dimension a /\
                   ax_arrayOffset a = 0) axes ->
  Forall axis_ok (place ci ci rolling axes).
Proof.
  induction axes as [|a axes IH]; intros rolling Hax; [constructor|].
  inversion Hax as [|? ? (H1 & H2 & H3 & H4 & H5 & H6) Hax']; subst.
  cbn [place]. constructor; [|apply IH; exact Hax'].
  apply whole_axis_ok; assumption.
Qed.

(** On the whole file array the chunk starts at the element
    [c0 * chunk] along every axis: two chunks that start at the same element
    of the array have the same number. *)
Lemma whole_first_read (ci ci' : Z) (axes : list axis) :
  forall rolling : Z,
  Forall (fun a => 1 <= ax_chunk a /\ 1 <= ax_dimension a /\
                   ax_dimension a + ax_chunk a <= 2 ^ 64 /\
                   ax_arrayDimension a = ax_dimension a /\
                   ax_arrayCount a = ax_dimension a /\
                   ax_arrayOffset a = 0) axes ->
  source_coordinate (place ci ci rolling axes) 0
  = source_coordinate (place ci' ci' rolling axes) 0 ->
  chunk_number (place ci ci rolling axes)
  = chunk_number (place ci' ci' rolling axes).
Proof.
  induction axes as [|a axes IH]; intros rolling Hax Heq; [reflexivity|].
  inversion Hax as [|? ? (H1 & H2 & H3 & H4 & H5 & H6) Hax']; subst.
  cbn [place source_coordinate chunk_number fold_right pl_axis pl_c0] in *.
  fold (chunk_number (place ci ci (rolling * chunks_along a) axes)).
  fold (chunk_number (place ci' ci' (rolling * chunks_along a) axes)).
  unfold origin in Heq. cbn [pl_axis pl_c0Offset] in Heq.
  rewrite !Zmod_0_l, !Zdiv_0_l, H4, H6 in Heq.
  assert (Hn : 1 <= chunks_along a)
    by (unfold chunks_along; apply Z.div_le_lower_bound; lia).
  set (c := (ci / rolling) mod chunks_along a) in *.
  set (c' := (ci' / rolling) mod chunks_along a) in *.
  assert (Hc : 0 <= c < chunks_along a) by (apply Z.mod_pos_bound; lia).
  assert (Hc' : 0 <= c' < chunks_along a) by (apply Z.mod_pos_bound; lia).
  destruct (extent_bounds {| pl_axis := a; pl_c0 := c; pl_c0Offset := c |}
              H1 H2 Hc) as [[He _] Hd].
  destruct (extent_bounds {| pl_axis := a; pl_c0 := c'; pl_c0Offset := c' |}
              H1 H2 Hc') as [[He' _] Hd'].
  cbn [pl_axis pl_c0] in Hd, Hd'.
  set (s := source_coordinate (place ci ci (rolling * chunks_along a) axes) 0) in *.
  set (s' := source_coordinate (place ci' ci' (rolling * chunks_along a) axes) 0) in *.
  assert (Es : s = s') by nia.
  assert (Ec : c = c') by nia.
  rewrite Ec. f_equal. f_equal. apply IH; [exact Hax'|exact Es].
Qed.

(** The first copy of a chunk reads at the chunk's first element. *)
Lemma first_copy_src (encoder : OmEncoder_t) (ps : list placed) :
  Forall axis_ok ps -> Forall in_grid ps ->
  0 <= bytes_per_element encoder ->
  bytes_per_element encoder * source_volume ps < 2 ^ 64 ->
  copy_src <$> head (copies (expected_calls encoder ps))
  = Some (bytes_per_element encoder * source_coordinate ps 0).
Proof.
  intros Hok Hg Hb Hfit.
  destruct (volumes_pos ps Hok Hg) as (_ & V2 & V3).
  destruct (run_length_divides ps Hok Hg) as [HL [N HN]].
  assert (EN : volume ps / run_length ps = N) by (rewrite HN; apply Z.div_mul; lia).
  assert (HN1 : 1 <= N) by nia.
  pose proof (source_coordinate_range ps 0 Hok Hg ltac:(lia)) as Hr.
  cbn [copies expected_calls]. unfold expected_copies.
  rewrite EN, seqZ_cons by lia. cbn [map head fmap option_fmap option_map].
  cbn [copy_src expected_copy]. rewrite Z.mul_0_l.
  rewrite mul64_small; [reflexivity|]. split; [nia|].
  apply Z.le_lt_trans with (bytes_per_element encoder * source_volume ps); [|lia].
  apply Z.mul_le_mono_nonneg_l; lia.
Qed.

Section Sizing.
Variable encoder : OmEncoder_t.
Variable R : nat.
Hypothesis count_R : dimension_count encoder = Z.of_nat R.
Hypothesis len_dimensions : length (dimensions encoder) = R.
Hypothesis len_chunks : length (chunks encoder) = R.
Hypothesis dimensions_pos : Forall (fun d => 1 <= d) (dimensions encoder).
Hypothesis chunks_pos : Forall (fun c => 1 <= c) (chunks encoder).

Lemma forward_seq : forward encoder = seq 0 R.
Proof. unfold forward. rewrite count_R, Nat2Z.id. reflexivity. Qed.

Lemma count_chunks_any :
  om_encoder_count_chunks encoder = Returned (u64 (product (chunk_grid encoder))).
Proof.
  unfold om_encoder_count_chunks. rewrite forward_seq, <- len_dimensions.
  apply count_loop_all; [lia|exact chunks_pos].
Qed.

Lemma count_chunks_in_array_any (array_count : list Z) :
  length array_count = R ->
  om_encoder_count_chunks_in_array encoder array_count
  = Returned (u64 (product (zip_with (fun d c => (d + c - 1) / c)
                              array_count (chunks encoder)))).
Proof.
  intros Hlen. unfold om_encoder_count_chunks_in_array.
  rewrite forward_seq, <- Hlen.
  apply count_loop_all; [lia|exact chunks_pos].
Qed.

Lemma chunk_length_any :
  chunk_length_loop encoder (forward encoder) 1
  = Returned (u64 (product (chunks encoder))).
Proof.
  rewrite forward_seq, chunk_length_loop_ok by lia.
  rewrite drop_0, Z.mul_1_l. reflexivity.
Qed.

Section Axes.
Variables arrayDimensions arrayOffset arrayCount : list Z.

Let axes : list axis := inner_first encoder arrayDimensions arrayOffset arrayCount.

Lemma axes_map (f : Z -> Z -> Z) :
  map (fun a => f (ax_dimension a) (ax_chunk a)) axes
  = rev (zip_with f (dimensions encoder) (chunks encoder)).
Proof.
  unfold axes, inner_first, backward. rewrite count_R, Nat2Z.id.
  rewrite map_map, map_rev. f_equal. cbn [axis_at ax_dimension ax_chunk].
  apply list_eq. intros i. rewrite list_lookup_fmap, lookup_zip_with.
  destruct (decide (i < R)%nat) as [Hi|Hi].
  - rewrite lookup_seq_lt by exact Hi. cbn.
    rewrite (list_lookup_lookup_total_lt (dimensions encoder) i) by lia.
    rewrite (list_lookup_lookup_total_lt (chunks encoder) i) by lia.
    reflexivity.
  - rewrite lookup_seq_ge by lia. cbn.
    rewrite (lookup_ge_None_2 (dimensions encoder)) by lia. reflexivity.
Qed.

Lemma axes_grid : map chunks_along axes = rev (chunk_grid encoder).
Proof. apply (axes_map (fun d c => (d + c - 1) / c)). Qed.

Lemma axes_chunks : map ax_chunk axes = rev (chunks encoder).
Proof.
  transitivity (rev (zip_with (fun _ c : Z => c) (dimensions encoder)
                       (chunks encoder)));
    [exact (axes_map (fun _ c => c))|]. f_equal.
  apply list_eq. intros i. rewrite lookup_zip_with.
  destruct (decide (i < R)%nat) as [Hi|Hi].
  - rewrite (list_lookup_lookup_total_lt (dimensions encoder) i) by lia.
    cbn. destruct (chunks encoder !! i); reflexivity.
  - rewrite (lookup_ge_None_2 (dimensions encoder)) by lia.
    rewrite (lookup_ge_None_2 (chunks encoder)) by lia. reflexivity.
Qed.

Lemma axes_sizes :
  Forall (fun a => 1 <= ax_chunk a /\ 1 <= ax_dimension a) axes.
Proof.
  unfold axes, inner_first, backward. rewrite count_R, Nat2Z.id.
  apply Forall_map, Forall_rev. apply Forall_forall. intros i Hi.
  apply elem_of_seq in Hi. cbn [axis_at ax_chunk ax_dimension].
  rewrite Forall_lookup in dimensions_pos, chunks_pos. split.
  - apply (chunks_pos i). apply list_lookup_lookup_total_lt. lia.
  - apply (dimensions_pos i). apply list_lookup_lookup_total_lt. lia.
Qed.

Lemma axes_grid_pos : Forall (fun a => 1 <= chunks_along a) axes.
Proof.
  eapply Forall_impl; [apply axes_sizes|].
  intros a [Hc Hd]. unfold chunks_along. apply Z.div_le_lower_bound; lia.
Qed.

(** X13. For an encoder with dimensions and chunk sizes of at least 1 and
    sizes that fit [uint64_t], [om_encoder_chunk_buffer_size] returns the
    product [n] of the chunk sizes times [bytes_per_element_compressed],
    [om_encoder_compressed_chunk_buffer_size] returns
    [(n + 255) / 256 + (n + 32) * bytes_per_element_compressed], and every
    chunk that a [chunkIndex] addresses has between 1 and [n] elements: a
    buffer of [om_encoder_chunk_buffer_size] bytes holds it. *)
Theorem chunk_buffer_holds_the_chunk (chunkIndex chunkIndexOffsetInThisArray : Z) :
  let n := product (chunks encoder) in
  let width := bytes_per_element_compressed encoder in
  0 <= width ->
  (n + 255) / 256 + (n + 32) * width < 2 ^ 64 -> n + 255 < 2 ^ 64 ->
  let ps := place chunkIndex chunkIndexOffsetInThisArray 1 axes in
  om_encoder_chunk_buffer_size encoder = Returned (n * width) /\
  om_encoder_compressed_chunk_buffer_size encoder
    = Returned ((n + 255) / 256 + (n + 32) * width) /\
  1 <= volume ps /\ volume ps * width <= n * width.
Proof.
  intros n width Hw Hfit Hfit' ps.
  assert (Hn : 1 <= n) by (apply product_pos; exact chunks_pos).
  assert (Hh : 0 <= (n + 255) / 256) by (apply Z.div_pos; lia).
  assert (Hnw : 0 <= n * width) by (apply Z.mul_nonneg_nonneg; lia).
  assert (Hvol : 1 <= volume ps <= n).
  { subst n. rewrite <- (product_rev (chunks encoder)), <- axes_chunks.
    assert (Ea : map pl_axis ps = axes) by apply place_axes.
    rewrite <- Ea. apply volume_le_chunks. subst ps.
    pose proof (place_coordinates chunkIndex chunkIndexOffsetInThisArray axes 1
                  axes_grid_pos) as Hc0.
    pose proof axes_sizes as Hs.
    rewrite <- (place_axes chunkIndex chunkIndexOffsetInThisArray 1 axes) in Hs.
    apply Forall_map in Hs.
    rewrite Forall_lookup in Hc0, Hs. apply Forall_lookup. intros k p Hp.
    destruct (Hs k p Hp). split; [assumption|]. split; [assumption|].
    apply (Hc0 k p Hp). }
  unfold om_encoder_chunk_buffer_size, om_encoder_compressed_chunk_buffer_size.
  rewrite chunk_length_any. cbn [mbind outcome_bind].
  fold n. fold width.
  rewrite (u64_small n) by lia.
  split; [|split; [|split]].
  - rewrite mul64_small; [reflexivity|nia].
  - rewrite (add64_small n 255) by lia. rewrite (add64_small n 32) by lia.
    rewrite mul64_small by nia. rewrite add64_small by nia. reflexivity.
  - lia.
  - apply Z.mul_le_mono_nonneg_r; lia.
Qed.

End Axes.

(** *** A call on the whole file array *)

Let whole : list axis :=
  inner_first encoder (dimensions encoder) (replicate R 0) (dimensions encoder).

Lemma whole_axes :
  Forall2 (fun d c => d + c <= 2 ^ 64) (dimensions encoder) (chunks encoder) ->
  Forall (fun a => 1 <= ax_chunk a /\ 1 <= ax_dimension a /\
                   ax_dimension a + ax_chunk a <= 2 ^ 64 /\
                   ax_arrayDimension a = ax_dimension a /\
                   ax_arrayCount a = ax_dimension a /\
                   ax_arrayOffset a = 0) whole.
Proof.
  intros Hguard.
  unfold whole, inner_first, backward. rewrite count_R, Nat2Z.id.
  apply Forall_map, Forall_rev. apply Forall_forall. intros i Hi.
  apply elem_of_seq in Hi.
  cbn [axis_at ax_chunk ax_dimension ax_arrayDimension ax_arrayCount ax_arrayOffset].
  pose proof dimensions_pos as Hdp. pose proof chunks_pos as Hcp.
  rewrite Forall_lookup in Hdp, Hcp.
  assert (Hd : dimensions encoder !! i = Some (dimensions encoder !!! i))
    by (apply list_lookup_lookup_total_lt; lia).
  assert (Hc : chunks encoder !! i = Some (chunks encoder !!! i))
    by (apply list_lookup_lookup_total_lt; lia).
  pose proof (Forall2_lookup_lr _ _ _ i _ _ Hguard Hd Hc) as Hg. cbv beta in Hg.
  pose proof (Hdp i _ Hd) as Hd1. pose proof (Hcp i _ Hc) as Hc1. cbv beta in Hd1, Hc1.
  repeat split; try assumption.
  apply list_lookup_total_correct, lookup_replicate_2. lia.
Qed.

(** X12. An encoder with [dimension_count >= 1], dimensions and chunk sizes
    of at least 1, [dimensions[i] + chunks[i] <= 2^64] for every [i] and at
    most [2^63] elements in the file array.  [om_encoder_count_chunks]
    returns the product of the numbers of chunks along the dimensions.
    For every [chunkIndex] below that count, [om_encoder_compress_chunk]
    called on the whole file array ([arrayDimensions = arrayCount =
    dimensions], [arrayOffset = 0], [chunkIndexOffsetInThisArray =
    chunkIndex]), with room for one iteration per element of a chunk,
    returns with the calls of the chunk whose coordinate along each axis is
    [c0 = (chunkIndex / rollingMultiply) mod nChunksInThisDimension]; these
    coordinates lie in the chunk grid and, read as one number with the last
    dimension counting fastest, give [chunkIndex] back.  Two calls for two
    chunk indices below the count read their first element at different
    places of the array, when [bytes_per_element >= 1] and the array has
    fewer than [2^64] bytes. *)
Theorem chunk_index_numbers_the_chunk (chunkIndex : Z) (fuel : nat) :
  let offsets := replicate R 0 in
  let call (ci : Z) :=
    om_encoder_compress_chunk encoder (dimensions encoder) offsets
      (dimensions encoder) ci ci fuel in
  let ps := place chunkIndex chunkIndex 1
              (inner_first encoder (dimensions encoder) offsets
                 (dimensions encoder)) in
  (0 < R)%nat ->
  Forall2 (fun d c => d + c <= 2 ^ 64) (dimensions encoder) (chunks encoder) ->
  product (dimensions encoder) <= 2 ^ 63 ->
  product (chunks encoder) <= Z.of_nat fuel ->
  0 <= chunkIndex < product (chunk_grid encoder) ->
  om_encoder_count_chunks encoder = Returned (product (chunk_grid encoder)) /\
  call chunkIndex = Returned (expected_calls encoder ps) /\
  Forall (fun p : placed => 0 <= pl_c0 p < chunks_along p) ps /\
  chunk_number ps = chunkIndex /\
  (1 <= bytes_per_element encoder ->
   bytes_per_element encoder * product (dimensions encoder) < 2 ^ 64 ->
   forall (chunkIndex' : Z) (calls calls' : chunk_calls),
   0 <= chunkIndex' < product (chunk_grid encoder) ->
   call chunkIndex = Returned calls -> call chunkIndex' = Returned calls' ->
   copy_src <$> head (copies calls) = copy_src <$> head (copies calls') ->
   chunkIndex' = chunkIndex).
Proof.
  intros offsets call ps HR Hguard Hsrc Hfuel Hci.
  assert (Hlo : length offsets = R) by apply length_replicate.
  pose proof (axes_grid_pos (dimensions encoder) offsets (dimensions encoder)) as Hpos.
  pose proof (axes_grid (dimensions encoder) offsets (dimensions encoder)) as Hgrid.
  pose proof (axes_chunks (dimensions encoder) offsets (dimensions encoder)) as Hchunks.
  pose proof (axes_sizes (dimensions encoder) offsets (dimensions encoder)) as Hsizes.
  pose proof (whole_axes Hguard) as Hwhole. unfold whole in Hwhole.
  fold offsets in Hwhole.
  set (axes := inner_first encoder (dimensions encoder) offsets
                 (dimensions encoder)) in *.
  assert (HP : product (map chunks_along axes) = product (chunk_grid encoder))
    by (rewrite Hgrid; apply product_rev).
  assert (Hle : product (chunk_grid encoder) <= product (dimensions encoder)).
  { apply product_le. unfold chunk_grid.
    apply Forall2_same_length_lookup. split.
    - rewrite length_zip_with. lia.
    - intros i x d Hx Hd.
      apply lookup_zip_with_Some in Hx. destruct Hx as (d' & c & -> & Hd' & Hc).
      rewrite Hd in Hd'. injection Hd' as <-.
      pose proof dimensions_pos as Hdp. pose proof chunks_pos as Hcp.
      rewrite Forall_lookup in Hdp, Hcp.
      pose proof (Hdp i d Hd) as Hd1. pose proof (Hcp i c Hc) as Hc1.
      cbv beta in Hd1, Hc1.
      split; [apply Z.div_pos; lia|].
      apply Z.div_le_upper_bound; [lia|nia]. }
  (* every chunk index below the count is served *)
  assert (Hcall : forall ci, 0 <= ci < product (chunk_grid encoder) ->
            call ci = Returned (expected_calls encoder (place ci ci 1 axes))).
  { intros ci Hrange.
    assert (Hok : Forall axis_ok (place ci ci 1 axes))
      by (apply whole_axes_ok; exact Hwhole).
    assert (Hg : Forall in_grid (place ci ci 1 axes))
      by (apply place_in_grid; [lia|exact Hok]).
    assert (Hsv : source_volume (place ci ci 1 axes) = product (dimensions encoder)).
    { apply (source_volume_arrayDimensions encoder (dimensions encoder) offsets
               (dimensions encoder) ci ci R count_R len_dimensions). }
    assert (Hgv : grid_volume (place ci ci 1 axes) = product (chunk_grid encoder)).
    { rewrite grid_volume_product, place_axes. exact HP. }
    assert (Hvol : 1 <= volume (place ci ci 1 axes) <= product (chunks encoder)).
    { assert (Hv : 1 <= volume (place ci ci 1 axes)
                   <= product (map ax_chunk (map pl_axis (place ci ci 1 axes)))).
      { apply volume_le_chunks.
        pose proof (place_coordinates ci ci axes 1 Hpos) as Hc0.
        pose proof Hsizes as Hs.
        rewrite <- (place_axes ci ci 1 axes) in Hs. apply Forall_map in Hs.
        rewrite Forall_lookup in Hc0, Hs. apply Forall_lookup. intros k p Hp.
        destruct (Hs k p Hp). split; [assumption|]. split; [assumption|].
        apply (Hc0 k p Hp). }
      rewrite place_axes, Hchunks, product_rev in Hv. exact Hv. }
    destruct (run_length_divides _ Hok Hg) as [HL _].
    apply (compress_chunk_returns encoder (dimensions encoder) offsets
             (dimensions encoder) ci ci R); try assumption; try lia.
    - fold axes. lia.
    - fold axes. lia.
    - fold axes.
      assert (volume (place ci ci 1 axes) / run_length (place ci ci 1 axes)
              <= product (chunks encoder)); [|lia].
      apply Z.div_le_upper_bound; [lia|nia]. }
  assert (Hnum : forall ci, 0 <= ci < product (chunk_grid encoder) ->
            chunk_number (place ci ci 1 axes) = ci).
  { intros ci Hrange. rewrite place_number by (lia || exact Hpos).
    rewrite Z.div_1_r, HP. apply Z.mod_small. exact Hrange. }
  split; [|split; [|split; [|split]]].
  - rewrite count_chunks_any, u64_small; [reflexivity|lia].
  - apply Hcall. exact Hci.
  - apply place_coordinates. exact Hpos.
  - apply Hnum. exact Hci.
  - intros Hbpe Hbytes ci' calls calls' Hci' Hc Hc' Heq.
    rewrite (Hcall _ Hci) in Hc. rewrite (Hcall _ Hci') in Hc'.
    injection Hc as <-. injection Hc' as <-.
    rewrite <- (Hnum _ Hci), <- (Hnum _ Hci').
    apply whole_first_read; [exact Hwhole|].
    assert (Hsrc' : forall ci,
              copy_src <$> head (copies (expected_calls encoder (place ci ci 1 axes)))
              = Some (bytes_per_element encoder
                      * source_coordinate (place ci ci 1 axes) 0)).
    { intros ci.
      assert (Hok : Forall axis_ok (place ci ci 1 axes))
        by (apply whole_axes_ok; exact Hwhole).
      apply first_copy_src; [exact Hok|apply place_in_grid; [lia|exact Hok]|lia|].
      replace (source_volume (place ci ci 1 axes))
        with (product (dimensions encoder)); [exact Hbytes|].
      symmetry.
      apply (source_volume_arrayDimensions encoder (dimensions encoder) offsets
               (dimensions encoder) ci ci R count_R len_dimensions). }
    fold ps in Heq. unfold ps in Heq. rewrite !Hsrc' in Heq.
    injection Heq as Heq. nia.
Qed.

(** X14. For an encoder with dimensions and chunk sizes of at least 1,
    [dimensions[i] + chunks[i] <= 2^64] for every [i] and fewer than [2^64]
    chunks, and an array whose extents [array_count[i]] are between 0 and
    [dimensions[i]], [om_encoder_count_chunks_in_array] returns a value
    between 0 and what [om_encoder_count_chunks] returns, the product of
    the numbers of chunks along the dimensions. *)
Theorem count_chunks_in_array_le (array_count : list Z) :
  Forall2 (fun d c => d + c <= 2 ^ 64) (dimensions encoder) (chunks encoder) ->
  product (chunk_grid encoder) < 2 ^ 64 ->
  Forall2 (fun a d => 0 <= a <= d) array_count (dimensions encoder) ->
  exists n,
    om_encoder_count_chunks_in_array encoder array_count = Returned n /\
    om_encoder_count_chunks encoder = Returned (product (chunk_grid encoder)) /\
    0 <= n <= product (chunk_grid encoder).
Proof.
  intros _ Hfit Hsub.
  assert (Hlen : length array_count = R)
    by (rewrite (Forall2_length _ _ _ Hsub); exact len_dimensions).
  set (grid := zip_with (fun d c => (d + c - 1) / c) array_count (chunks encoder)).
  assert (Hle : 0 <= product grid <= product (chunk_grid encoder)).
  { apply product_le. unfold grid, chunk_grid.
    apply Forall2_same_length_lookup. split.
    - rewrite !length_zip_with. lia.
    - intros i x y Hx Hy.
      apply lookup_zip_with_Some in Hx. destruct Hx as (a & c & -> & Ha & Hc).
      apply lookup_zip_with_Some in Hy. destruct Hy as (d & c' & -> & Hd & Hc').
      rewrite Hc in Hc'. injection Hc' as <-.
      pose proof (Forall2_lookup_lr _ _ _ i a d Hsub Ha Hd) as Had.
      cbv beta in Had.
      pose proof chunks_pos as Hcp. rewrite Forall_lookup in Hcp.
      specialize (Hcp i c Hc). cbv beta in Hcp.
      split; [apply ceiling_nonneg; lia|apply ceiling_mono; lia]. }
  exists (product grid). split; [|split].
  - rewrite count_chunks_in_array_any by exact Hlen.
    fold grid. rewrite u64_small; [reflexivity|lia].
  - rewrite count_chunks_any, u64_small; [reflexivity|].
    split; [|exact Hfit]. lia.
  - exact Hle.
Qed.

End Sizing.

(** *** A chunk size of zero, and no dimension at all *)

Section ZeroChunk.
Variable encoder : OmEncoder_t.
Variable R : nat.
Hypothesis count_R : dimension_count encoder = Z.of_nat R.
Hypothesis len_chunks : length (chunks encoder) = R.

Lemma count_loop_zero_chunk (array : list Z) (n : nat) :
  forall (s : nat) (acc : Z) (i : nat),
  length array = R -> (s + n <= R)%nat -> (s <= i < s + n)%nat ->
  chunks encoder !!! i = 0 ->
  count_loop encoder array (seq s n) acc = Undefined.
Proof.
  induction n as [|n IH]; intros s acc i Hlen Hs Hi Hz; [lia|].
  cbn [seq count_loop]. rewrite !read_in_range by lia.
  cbn [mbind outcome_bind].
  destruct (Z.eq_dec (chunks encoder !!! s) 0) as [E|E].
  - rewrite E. reflexivity.
  - rewrite divide_rounded_up_nonzero by exact E. cbn [mbind outcome_bind].
    apply (IH (S s) _ i); try lia.
    destruct (decide (i = s)) as [->|]; [contradiction|lia].
Qed.

Lemma total_count_any (arrayDimensions : list Z) (n : nat) :
  forall (i : nat) (acc : Z),
  (i + n <= length arrayDimensions)%nat ->
  exists t, total_count arrayDimensions (seq i n) acc = Returned t.
Proof.
  induction n as [|n IH]; intros i acc Hi.
  - eexists. reflexivity.
  - cbn [seq total_count]. rewrite read_in_range by lia.
    cbn [mbind outcome_bind]. apply IH. lia.
Qed.

(** X15. When one of the chunk sizes is 0, [om_encoder_count_chunks] and
    [om_encoder_count_chunks_in_array] divide by zero; so does
    [om_encoder_compress_chunk] when the chunk size of the last dimension
    is 0. *)
Theorem zero_chunk_size_is_undefined (i : nat) :
  (i < R)%nat -> chunks encoder !!! i = 0 ->
  (length (dimensions encoder) = R ->
   om_encoder_count_chunks encoder = Undefined) /\
  (forall array_count, length array_count = R ->
   om_encoder_count_chunks_in_array encoder array_count = Undefined) /\
  (forall arrayDimensions arrayOffset arrayCount
          chunkIndex chunkIndexOffsetInThisArray fuel,
   length (dimensions encoder) = R -> length arrayDimensions = R ->
   i = (R - 1)%nat ->
   om_encoder_compress_chunk encoder arrayDimensions arrayOffset arrayCount
     chunkIndex chunkIndexOffsetInThisArray fuel = Undefined).
Proof.
  intros Hi Hz.
  assert (Hf : forward encoder = seq 0 R)
    by (unfold forward; rewrite count_R, Nat2Z.id; reflexivity).
  split; [|split].
  - intros Hlen. unfold om_encoder_count_chunks. rewrite Hf.
    apply (count_loop_zero_chunk _ _ _ _ i); (lia || assumption).
  - intros array_count Hlen. unfold om_encoder_count_chunks_in_array. rewrite Hf.
    apply (count_loop_zero_chunk _ _ _ _ i); (lia || assumption).
  - intros arrayDimensions arrayOffset arrayCount ci co fuel Hld Hla ->.
    unfold om_encoder_compress_chunk.
    rewrite count_R, Nat2Z.id.
    destruct (total_count_any arrayDimensions R 0 1 ltac:(lia)) as [t ->].
    cbn [mbind outcome_bind].
    unfold backward. rewrite count_R, Nat2Z.id.
    destruct R as [|r]; [lia|].
    rewrite rev_seq_S. cbn [start_loop].
    replace (S r - 1)%nat with r in Hz by lia.
    unfold start_dimension.
    rewrite (read_in_range (dimensions encoder) r) by lia.
    cbn [mbind outcome_bind].
    rewrite (read_in_range (chunks encoder) r) by lia.
    cbn [mbind outcome_bind].
    rewrite Hz. reflexivity.
Qed.

End ZeroChunk.

(** X16. With [dimension_count = 0], [om_encoder_count_chunks] returns 1,
    but [om_encoder_compress_chunk] does not return: after the first copy
    the inner loop has no dimension to end the chunk at, and the [assert] of
    line 283 fails in the second iteration. *)
Theorem no_dimension_aborts (encoder : OmEncoder_t)
    (arrayDimensions arrayOffset arrayCount : list Z)
    (chunkIndex chunkIndexOffsetInThisArray : Z) (fuel : nat) :
  dimension_count encoder = 0 ->
  om_encoder_count_chunks encoder = Returned 1 /\
  om_encoder_compress_chunk encoder arrayDimensions arrayOffset arrayCount
    chunkIndex chunkIndexOffsetInThisArray (S (S fuel)) = AssertionFailed 283.
Proof.
  intros H0. split.
  - unfold om_encoder_count_chunks, forward. rewrite H0. reflexivity.
  - unfold om_encoder_compress_chunk, backward. rewrite H0.
    change (Z.to_nat 0) with 0%nat.
    cbn [seq rev total_count start_loop mbind outcome_bind].
    cbn [main_loop]. unfold backward. rewrite H0. reflexivity.
Qed.

(** *** At an encoder

    A 4 x 9 file array of bytes in chunks of 2 x 3: 2 x 3 chunks of 6
    elements. *)
Lemma chunk_index_numbers_the_chunk_witness :
  let encoder :=
    snd (om_encoder_init zeroed (S754_zero false) (S754_zero false)
           COMPRESSION_PFOR_DELTA2D DATA_TYPE_UINT8_ARRAY [4; 9] [2; 3] 2) in
  let ps := place 4 4 1 (inner_first encoder [4; 9] [0; 0] [4; 9]) in
  om_encoder_count_chunks encoder = Returned 6 /\
  om_encoder_compress_chunk encoder [4; 9] [0; 0] [4; 9] 4 4 6
  = Returned (expected_calls encoder ps) /\
  map copy_src (copies (expected_calls encoder ps)) = [21; 30] /\
  map pl_c0 ps = [1; 1] /\ chunk_number ps = 4.
Proof.
  intros encoder ps.
  pose proof (chunk_index_numbers_the_chunk encoder 2%nat eq_refl eq_refl eq_refl
                ltac:(repeat constructor; lia) ltac:(repeat constructor; lia)
                4 6%nat ltac:(lia)
                ltac:(repeat constructor; vm_compute; discriminate)
                ltac:(vm_compute; discriminate)
                ltac:(vm_compute; discriminate)
                ltac:(vm_compute; split; [discriminate|reflexivity]))
    as (Hn & Hcall & _ & Hc & _).
  split; [exact Hn|]. split; [exact Hcall|].
  split; [vm_compute; reflexivity|]. split; [reflexivity|exact Hc].
Defined.

Lemma chunk_buffer_holds_the_chunk_witness :
  let encoder :=
    snd (om_encoder_init zeroed (of_int binary32 20) (S754_zero false)
           COMPRESSION_PFOR_DELTA2D_INT16 DATA_TYPE_FLOAT_ARRAY [4; 8] [2; 3] 2) in
  let ps := place 5 0 1 (inner_first encoder [4; 8] [0; 0] [4; 8]) in
  om_encoder_chunk_buffer_size encoder = Returned 12 /\
  om_encoder_compressed_chunk_buffer_size encoder = Returned 77 /\
  volume ps = 4.
Proof.
  intros encoder ps.
  pose proof (chunk_buffer_holds_the_chunk encoder 2%nat eq_refl eq_refl eq_refl
                ltac:(repeat constructor; lia) ltac:(repeat constructor; lia)
                [4; 8] [0; 0] [4; 8] 5 0
                ltac:(vm_compute; discriminate)
                ltac:(vm_compute; reflexivity)
                ltac:(vm_compute; reflexivity))
    as (Hs & Hc & _).
  split; [exact Hs|]. split; [exact Hc|reflexivity].
Defined.

Lemma count_chunks_in_array_le_witness :
  let encoder :=
    snd (om_encoder_init zeroed (S754_zero false) (S754_zero false)
           COMPRESSION_PFOR_DELTA2D DATA_TYPE_UINT8_ARRAY [4; 9] [2; 3] 2) in
  om_encoder_count_chunks_in_array encoder [2; 4] = Returned 2 /\
  exists n, om_encoder_count_chunks_in_array encoder [2; 4] = Returned n /\
            om_encoder_count_chunks encoder = Returned 6 /\ 0 <= n <= 6.
Proof.
  intros encoder. split; [reflexivity|].
  apply (count_chunks_in_array_le encoder 2%nat eq_refl eq_refl eq_refl
           ltac:(repeat constructor; lia) [2; 4]
           ltac:(repeat constructor; vm_compute; discriminate)
           ltac:(vm_compute; reflexivity)
           ltac:(repeat constructor; lia)).
Defined.

Lemma zero_chunk_size_is_undefined_witness :
  let encoder :=
    snd (om_encoder_init zeroed (S754_zero false) (S754_zero false)
           COMPRESSION_PFOR_DELTA2D DATA_TYPE_UINT8_ARRAY [4; 9] [2; 0] 2) in
  om_encoder_count_chunks encoder = Undefined /\
  om_encoder_compress_chunk encoder [4; 9] [0; 0] [4; 9] 0 0 1 = Undefined.
Proof.
  intros encoder.
  pose proof (zero_chunk_size_is_undefined encoder 2%nat eq_refl eq_refl 1%nat
                ltac:(lia) eq_refl) as (Hn & _ & Hc).
  split; [apply Hn; reflexivity|apply Hc; reflexivity].
Defined.

Lemma no_dimension_aborts_witness :
  om_encoder_compress_chunk
    (snd (om_encoder_init zeroed (S754_zero false) (S754_zero false)
            COMPRESSION_PFOR_DELTA2D DATA_TYPE_UINT8_ARRAY [] [] 0))
    [] [] [] 0 0 2 = AssertionFailed 283.
Proof.
  apply (no_dimension_aborts _ [] [] [] 0 0 0%nat). reflexivity.
Defined.

End SizingFacts.

(** ** The look-up table functions of om_encoder.c *)

Module LutFacts.
Import MachInt IEEE OmCommon OmEncoder ChunkGatherFacts SizingFacts.
Local Open Scope Z_scope.

(** X17. For an empty table ([lookUpTableCount = 0]),
    [om_encoder_lut_buffer_size] returns the 256 bytes of slack, and
    [om_encoder_compress_lut] divides by zero, whatever the other arguments
    are: [lutSize / nLutChunks] with [nLutChunks = 0]. *)
Theorem empty_lut (p4ndenc64 : list Z -> Z -> list Z -> Z * list Z)
    (lookUpTable out : list Z) (compressed_lut_buffer_size : Z) :
  om_encoder_lut_buffer_size p4ndenc64 lookUpTable 0 = Returned 256 /\
  om_encoder_compress_lut p4ndenc64 lookUpTable 0 out
    compressed_lut_buffer_size = Undefined.
Proof. split; reflexivity. Qed.

Lemma zero_fill_ok (count : nat) :
  forall (out : list Z) (j : Z),
  0 <= j -> (Z.to_nat j + count <= length out)%nat ->
  exists out',
    zero_fill out j count = Returned out' /\
    length out' = length out /\
    forall k : nat,
      out' !! k = if decide (Z.to_nat j <= k < Z.to_nat j + count)%nat
                  then Some 0 else out !! k.
Proof.
  induction count as [|count IH]; intros out j Hj Hlen.
  - exists out. split; [reflexivity|]. split; [reflexivity|].
    intros k. rewrite decide_False by lia. reflexivity.
  - cbn [zero_fill]. rewrite decide_True by lia.
    destruct (IH (<[Z.to_nat j := 0]> out) (j + 1)) as (out' & E & Hl & Hk).
    + lia.
    + rewrite length_insert, Z2Nat.inj_add by lia.
      change (Z.to_nat 1) with 1%nat. lia.
    + exists out'. split; [exact E|]. rewrite length_insert in Hl.
      split; [exact Hl|]. intros k. rewrite Hk.
      rewrite Z2Nat.inj_add by lia. change (Z.to_nat 1) with 1%nat.
      destruct (decide (k = Z.to_nat j)) as [->|Hne].
      * rewrite decide_False by lia. rewrite decide_True by lia.
        apply list_lookup_insert_eq. lia.
      * rewrite list_lookup_insert_ne by lia.
        repeat case_decide; try lia; reflexivity.
Qed.

(** *** A table that is not empty

    What the theorems need of the compressor: the length it returns is a
    function of its input, a [uint64_t], and it writes in place. *)
Section Blocks.
Variable p4ndenc64 : list Z -> Z -> list Z -> Z * list Z.
Variable encoded_length : list Z -> Z -> Z.
Hypothesis length_of_input :
  forall inp n out, fst (p4ndenc64 inp n out) = encoded_length inp n.
Hypothesis length_range : forall inp n, 0 <= encoded_length inp n < 2 ^ 64.
Hypothesis in_place :
  forall inp n out, length (snd (p4ndenc64 inp n out)) = length out.

Variable lookUpTable : list Z.
Variable lookUpTableCount : Z.
Hypothesis count_pos : 1 <= lookUpTableCount.
Hypothesis count_fits : lookUpTableCount + LUT_CHUNK_COUNT <= 2 ^ 64.
Hypothesis table_holds : lookUpTableCount <= Z.of_nat (length lookUpTable).

(** The number of blocks, and the length that the compressor returns for
    the block [i]. *)
Let blocks : Z := (lookUpTableCount + LUT_CHUNK_COUNT - 1) / LUT_CHUNK_COUNT.

Let block_length (i : nat) : Z :=
  encoded_length
    (drop (Z.to_nat (Z.of_nat i * LUT_CHUNK_COUNT)) lookUpTable)
    (Z.min (Z.of_nat i * LUT_CHUNK_COUNT + LUT_CHUNK_COUNT) lookUpTableCount
     - Z.of_nat i * LUT_CHUNK_COUNT).

Lemma blocks_bounds :
  1 <= blocks /\ LUT_CHUNK_COUNT * (blocks - 1) < lookUpTableCount
  /\ blocks < 2 ^ 64.
Proof.
  unfold blocks, LUT_CHUNK_COUNT in *.
  pose proof (Z.div_mod (lookUpTableCount + 256 - 1) 256 ltac:(lia)) as E.
  pose proof (Z.mod_pos_bound (lookUpTableCount + 256 - 1) 256 ltac:(lia)) as B.
  lia.
Qed.

Lemma lut_encode_block (i : nat) (out : list Z) :
  Z.of_nat i < blocks ->
  lut_encode p4ndenc64 lookUpTable lookUpTableCount i out
  = Returned (p4ndenc64
                (drop (Z.to_nat (Z.of_nat i * LUT_CHUNK_COUNT)) lookUpTable)
                (Z.min (Z.of_nat i * LUT_CHUNK_COUNT + LUT_CHUNK_COUNT)
                   lookUpTableCount - Z.of_nat i * LUT_CHUNK_COUNT) out).
Proof.
  intros Hi. destruct blocks_bounds as (B1 & B2 & B3).
  unfold lut_encode, min. unfold LUT_CHUNK_COUNT in *.
  rewrite (mul64_small (Z.of_nat i) 256) by lia.
  rewrite (add64_small (Z.of_nat i * 256) 256) by lia.
  rewrite sub64_small by lia.
  destruct (Z.ltb_spec (Z.of_nat (length lookUpTable)) (Z.of_nat i * 256));
    [lia|reflexivity].
Qed.

Lemma lut_max_length_ok (k : nat) :
  forall (s : nat) (buffer : list Z) (m : Z),
  Z.of_nat (s + k) <= blocks ->
  exists M,
    lut_max_length p4ndenc64 lookUpTable lookUpTableCount (seq s k) buffer m
      = Returned M /\
    m <= M /\
    (forall i, (s <= i < s + k)%nat -> block_length i <= M) /\
    (M = m \/ exists i, (s <= i < s + k)%nat /\ block_length i = M).
Proof.
  induction k as [|k IH]; intros s buffer m Hs.
  - exists m. split; [reflexivity|]. split; [lia|]. split; [intros i Hi; lia|].
    left. reflexivity.
  - cbn [seq lut_max_length]. rewrite lut_encode_block by lia.
    cbn [mbind outcome_bind].
    destruct (p4ndenc64 _ _ buffer) as [len buffer'] eqn:Ep.
    assert (Hlen : len = block_length s).
    { unfold block_length. rewrite <- (length_of_input _ _ buffer), Ep.
      reflexivity. }
    destruct (IH (S s) buffer' (if m <? len then len else m) ltac:(lia))
      as (M & E & Hm & Hall & Hex).
    exists M. split; [exact E|].
    assert (Hmm : m <= (if m <? len then len else m) /\
                  len <= (if m <? len then len else m))
      by (destruct (Z.ltb_spec m len); lia).
    split; [lia|]. split.
    + intros i Hi. destruct (decide (i = s)) as [->|Hne].
      * rewrite <- Hlen. lia.
      * apply Hall. lia.
    + destruct Hex as [->|(i & Hi & Hb)].
      * destruct (Z.ltb_spec m len); [|left; reflexivity].
        right. exists s. split; [lia|]. symmetry. exact Hlen.
      * right. exists i. split; [lia|exact Hb].
Qed.

Lemma lut_max_length_all (buffer : list Z) :
  exists M,
    lut_max_length p4ndenc64 lookUpTable lookUpTableCount
      (seq 0 (Z.to_nat blocks)) buffer 0 = Returned M /\
    0 <= M /\
    (forall i : nat, Z.of_nat i < blocks -> block_length i <= M) /\
    (exists i : nat, Z.of_nat i < blocks /\ block_length i = M).
Proof.
  destruct blocks_bounds as (B1 & B2 & B3).
  destruct (lut_max_length_ok (Z.to_nat blocks) 0 buffer 0 ltac:(lia))
    as (M & E & Hm & Hall & Hex).
  exists M. split; [exact E|]. split; [exact Hm|]. split.
  - intros i Hi. apply Hall. lia.
  - destruct Hex as [->|(i & Hi & Hb)].
    + exists 0%nat. split; [lia|].
      pose proof (Hall 0%nat ltac:(lia)) as H0.
      pose proof (length_range
                    (drop (Z.to_nat (Z.of_nat 0 * LUT_CHUNK_COUNT)) lookUpTable)
                    (Z.min (Z.of_nat 0 * LUT_CHUNK_COUNT + LUT_CHUNK_COUNT)
                       lookUpTableCount - Z.of_nat 0 * LUT_CHUNK_COUNT)) as Hr.
      fold (block_length 0) in Hr. lia.
    + exists i. split; [lia|exact Hb].
Qed.

(** X18. For a table of at least one entry, [om_encoder_lut_buffer_size]
    returns [M * nLutChunks + 256] (in [uint64_t]) where [M] is the largest
    of the lengths that the compressor returns for the blocks of 256 entries
    of the table. *)
Theorem lut_buffer_size_is_largest_block :
  exists M,
    om_encoder_lut_buffer_size p4ndenc64 lookUpTable lookUpTableCount
      = Returned (add64 (mul64 M blocks) 256) /\
    (forall i : nat, Z.of_nat i < blocks -> block_length i <= M) /\
    (exists i : nat, Z.of_nat i < blocks /\ block_length i = M).
Proof.
  destruct blocks_bounds as (B1 & B2 & B3).
  unfold om_encoder_lut_buffer_size.
  rewrite divide_rounded_up_nonzero by (unfold LUT_CHUNK_COUNT; lia).
  cbn [mbind outcome_bind]. fold blocks.
  destruct (lut_max_length_all
              (replicate (Z.to_nat ((LUT_CHUNK_COUNT + 32) * 8)) 0))
    as (M & E & _ & Hall & Hex).
  exists M. rewrite E. cbn [mbind outcome_bind].
  split; [reflexivity|]. split; [exact Hall|exact Hex].
Qed.

Lemma lut_chunks_ok (L : Z) (k : nat) :
  forall (s : nat) (out : list Z),
  Z.of_nat (s + k) = blocks ->
  0 <= L -> L * blocks < 2 ^ 64 -> L * blocks <= Z.of_nat (length out) ->
  (forall i : nat, Z.of_nat i < blocks -> block_length i <= L) ->
  exists out',
    lut_chunks p4ndenc64 lookUpTable lookUpTableCount L (seq s k) out
      = Returned out' /\
    length out' = length out /\
    (forall j : nat, Z.of_nat j < Z.of_nat s * L -> out' !! j = out !! j) /\
    (forall i j : nat, (s <= i < s + k)%nat ->
       Z.of_nat i * L + block_length i <= Z.of_nat j < (Z.of_nat i + 1) * L ->
       out' !! j = Some 0).
Proof.
  induction k as [|k IH]; intros s out Hs HL Hfit Hout Hlen.
  - exists out. split; [reflexivity|]. split; [reflexivity|].
    split; [reflexivity|]. intros i j Hi. lia.
  - destruct blocks_bounds as (B1 & B2 & B3).
    assert (HsL : 0 <= Z.of_nat s * L) by (apply Z.mul_nonneg_nonneg; lia).
    assert (HsL' : (Z.of_nat s + 1) * L <= L * blocks).
    { rewrite (Z.mul_comm L blocks). apply Z.mul_le_mono_nonneg_r; lia. }
    cbn [seq lut_chunks].
    rewrite (mul64_small (Z.of_nat s) L) by lia.
    destruct (Z.ltb_spec (Z.of_nat (length out)) (Z.of_nat s * L)) as [Hbad|_];
      [lia|].
    rewrite lut_encode_block by lia. cbn [mbind outcome_bind].
    destruct (p4ndenc64 _ _ (drop (Z.to_nat (Z.of_nat s * L)) out))
      as [len tail] eqn:Ep.
    assert (Elen : len = block_length s).
    { unfold block_length.
      rewrite <- (length_of_input _ _ (drop (Z.to_nat (Z.of_nat s * L)) out)), Ep.
      reflexivity. }
    assert (Etail : length tail = (length out - Z.to_nat (Z.of_nat s * L))%nat).
    { pose proof (in_place
                    (drop (Z.to_nat (Z.of_nat s * LUT_CHUNK_COUNT)) lookUpTable)
                    (Z.min (Z.of_nat s * LUT_CHUNK_COUNT + LUT_CHUNK_COUNT)
                       lookUpTableCount - Z.of_nat s * LUT_CHUNK_COUNT)
                    (drop (Z.to_nat (Z.of_nat s * L)) out)) as Hp.
      rewrite Ep in Hp. cbn [snd] in Hp. rewrite Hp, length_drop. reflexivity. }
    pose proof (Hlen s ltac:(lia)) as Hls. rewrite <- Elen in Hls.
    assert (Hl0 : 0 <= len).
    { rewrite Elen. unfold block_length. apply length_range. }
    set (out1 := take (Z.to_nat (Z.of_nat s * L)) out ++ tail).
    assert (Hout1 : length out1 = length out).
    { unfold out1. rewrite length_app, length_take, Etail. lia. }
    rewrite (add64_small (Z.of_nat s * L) len) by lia.
    rewrite (mul64_small (Z.of_nat s + 1) L) by lia.
    destruct (zero_fill_ok (Z.to_nat ((Z.of_nat s + 1) * L - (Z.of_nat s * L + len)))
                out1 (Z.of_nat s * L + len)) as (out2 & E2 & Hl2 & Hk2).
    { lia. }
    { rewrite Hout1. lia. }
    rewrite E2. cbn [mbind outcome_bind].
    destruct (IH (S s) out2) as (out' & E & Hl & Hpre & Hpad).
    { lia. } { exact HL. } { exact Hfit. } { rewrite Hl2, Hout1. exact Hout. }
    { exact Hlen. }
    exists out'. split; [exact E|]. split; [lia|]. split.
    + intros j Hj. rewrite Hpre by lia. rewrite Hk2.
      rewrite decide_False by lia.
      unfold out1. rewrite lookup_app_l by (rewrite length_take; lia).
      apply lookup_take_lt. lia.
    + intros i j Hi Hj. destruct (decide (i = s)) as [->|Hne].
      * rewrite Hpre by lia. rewrite Hk2. rewrite decide_True; [reflexivity|].
        rewrite <- Elen in Hj. lia.
      * apply (Hpad i j); [lia|exact Hj].
Qed.

(** X19. [om_encoder_compress_lut], called with the size that
    [om_encoder_lut_buffer_size] returned for the table and a buffer of at
    least that size, returns that size minus the 256 bytes of slack and
    writes inside the buffer; the slots of [lutChunkLength] bytes divide
    the returned size exactly, each block fits in its slot, and the bytes of
    every slot after the compressed block are 0. *)
Theorem lut_slots_are_padded (out : list Z) (size : Z) :
  om_encoder_lut_buffer_size p4ndenc64 lookUpTable lookUpTableCount
    = Returned size ->
  (forall i : nat, Z.of_nat i < blocks ->
     block_length i * blocks + 256 < 2 ^ 64) ->
  size <= Z.of_nat (length out) ->
  let lutChunkLength := (size - 256) / blocks in
  exists out',
    om_encoder_compress_lut p4ndenc64 lookUpTable lookUpTableCount out size
      = Returned (size - 256, out') /\
    length out' = length out /\
    lutChunkLength * blocks = size - 256 /\
    (forall i : nat, Z.of_nat i < blocks -> block_length i <= lutChunkLength) /\
    (forall i j : nat, Z.of_nat i < blocks ->
       Z.of_nat i * lutChunkLength + block_length i <= Z.of_nat j
         < (Z.of_nat i + 1) * lutChunkLength ->
       out' !! j = Some 0).
Proof.
  intros Hsize Hfits Hout L.
  destruct blocks_bounds as (B1 & B2 & B3).
  unfold om_encoder_lut_buffer_size in Hsize.
  rewrite divide_rounded_up_nonzero in Hsize by (unfold LUT_CHUNK_COUNT; lia).
  cbn [mbind outcome_bind] in Hsize. fold blocks in Hsize.
  destruct (lut_max_length_all
              (replicate (Z.to_nat ((LUT_CHUNK_COUNT + 32) * 8)) 0))
    as (M & E & HM & Hall & (i0 & Hi0 & Hb0)).
  rewrite E in Hsize. cbn [mbind outcome_bind] in Hsize.
  injection Hsize as Hsize. change (mul64 32 8) with 256 in Hsize.
  pose proof (Hfits i0 Hi0) as Hfit0. rewrite Hb0 in Hfit0.
  assert (HMb : 0 <= M * blocks) by (apply Z.mul_nonneg_nonneg; lia).
  rewrite mul64_small, add64_small in Hsize by lia.
  assert (EL : L = M).
  { subst L. rewrite <- Hsize. replace (M * blocks + 256 - 256) with (M * blocks) by ring.
    apply Z.div_mul. lia. }
  clearbody L. subst L.
  unfold om_encoder_compress_lut.
  rewrite divide_rounded_up_nonzero by (unfold LUT_CHUNK_COUNT; lia).
  cbn [mbind outcome_bind]. fold blocks.
  change (mul64 32 8) with 256.
  rewrite sub64_small by lia.
  rewrite div64_nonzero by lia. cbn [mbind outcome_bind].
  replace ((size - 256) / blocks) with M
    by (rewrite <- Hsize; replace (M * blocks + 256 - 256) with (M * blocks) by ring;
        symmetry; apply Z.div_mul; lia).
  destruct (lut_chunks_ok M (Z.to_nat blocks) 0 out) as (out' & Ec & Hl & _ & Hpad).
  { lia. } { exact HM. } { lia. } { lia. } { exact Hall. }
  exists out'. rewrite Ec. cbn [mbind outcome_bind].
  split; [reflexivity|]. split; [exact Hl|]. split; [lia|]. split; [exact Hall|].
  intros i j Hi Hj. apply (Hpad i j); [lia|exact Hj].
Qed.

End Blocks.

(** *** With a stand-in for the compressor

    One byte per entry, at most 256 entries. *)
Lemma lut_buffer_size_is_largest_block_witness :
  let p4ndenc64 (inp : list Z) (n : Z) (out : list Z) :=
    let bytes := map (fun x => x mod 256) (take (Z.to_nat (Z.min n 256)) inp) in
    (Z.of_nat (length bytes),
     take (length out) (bytes ++ drop (length bytes) out)) in
  om_encoder_lut_buffer_size p4ndenc64 (seqZ 0 257) 257 = Returned 768 /\
  exists M,
    om_encoder_lut_buffer_size p4ndenc64 (seqZ 0 257) 257
      = Returned (add64 (mul64 M 2) 256).
Proof.
  intros p4ndenc64. split; [vm_compute; reflexivity|].
  destruct (lut_buffer_size_is_largest_block p4ndenc64
              (fun inp n => Z.of_nat (length (take (Z.to_nat (Z.min n 256)) inp))))
    with (lookUpTable := seqZ 0 257) (lookUpTableCount := 257)
    as (M & E & _).
  - intros inp n out. unfold p4ndenc64. cbn [fst]. rewrite length_map. reflexivity.
  - intros inp n. rewrite length_take. lia.
  - lia.
  - vm_compute. discriminate.
  - vm_compute. discriminate.
  - exists M. exact E.
Defined.

Lemma lut_slots_are_padded_witness :
  let p4ndenc64 (inp : list Z) (n : Z) (out : list Z) :=
    let bytes := map (fun x => x mod 256) (take (Z.to_nat (Z.min n 256)) inp) in
    (Z.of_nat (length bytes),
     take (length out) (bytes ++ drop (length bytes) out)) in
  exists out',
    om_encoder_compress_lut p4ndenc64 (seqZ 0 257) 257 (replicate 768 7) 768
      = Returned (512, out') /\
    length out' = 768%nat /\ out' !! 255%nat = Some 255 /\
    out' !! 257%nat = Some 0 /\ out' !! 511%nat = Some 0.
Proof.
  intros p4ndenc64.
  destruct (lut_slots_are_padded p4ndenc64
              (fun inp n => Z.of_nat (length (take (Z.to_nat (Z.min n 256)) inp))))
    with (lookUpTable := seqZ 0 257) (lookUpTableCount := 257)
         (out := replicate 768 7) (size := 768)
    as (out' & E & Hl & _ & _ & Hpad).
  - intros inp n out. unfold p4ndenc64. cbn [fst]. rewrite length_map. reflexivity.
  - intros inp n. rewrite length_take. lia.
  - intros inp n out. unfold p4ndenc64. cbn [snd].
    rewrite length_take, length_app, length_drop. lia.
  - lia.
  - vm_compute. discriminate.
  - vm_compute. discriminate.
  - vm_compute. reflexivity.
  - intros i Hi. rewrite length_take. change ((257 + LUT_CHUNK_COUNT - 1) / LUT_CHUNK_COUNT) with 2. lia.
  - vm_compute. discriminate.
  - exists out'. split; [exact E|]. split; [exact Hl|].
    split.
    + assert (E' : om_encoder_compress_lut p4ndenc64 (seqZ 0 257) 257
                     (replicate 768 7) 768
                   = Returned (512, seqZ 0 256 ++ replicate 256 0 ++ replicate 256 7))
        by (vm_compute; reflexivity).
      rewrite E' in E. injection E as <-. reflexivity.
    + split; [apply (Hpad 1%nat 257%nat); vm_compute; repeat split; discriminate
             |apply (Hpad 1%nat 511%nat); vm_compute; repeat split; discriminate].
Defined.

End LutFacts.
